(** * PyHSPF watershed delineation: a shallow embedding of
      [pyhspf/preprocessing/delineators.py] (class [NHDPlusDelineator])

    Part I holds the definitions, each translated from the Python function of
    the same name; Part II holds the lemmas and theorems about them.

    Conventions of the embedding.
    - A Python [dict] is an association list in insertion order
      ([dict V]); [d[k]] is [getitem], which raises [KeyError].
    - A Python list is a [list]; [x in l] is [mem].
    - Exceptions and loops: every function that can raise or loop returns a
      [result]; every [while] loop, and every [for] loop that runs over a
      list it appends to, carries a counter initialised with the global
      iteration budget [fuel] and yields [OutOfFuel] when the budget is
      spent.
    - Identifiers ([comid], [hydroseq]) are integers.  Drainage areas are
      exact integers (a fixed small unit of area); the code only subtracts
      and compares them.  Coordinates, distances and slopes are rationals.
    - A name that the module does not bind raises [NameError] where the
      code reads it: [get_distance] at line 100, [find_flowlines] at lines
      885 and 907, [HUC8] at line 949 (the methods of these names are
      reached through [self] only).  The call
      [all(data_criteria, year_criteria, watershed_criteria, existing)] of
      line 953 passes four arguments to [all] and raises [TypeError].
    - [get_overland_vector] is modelled with its call of
      [get_distance_vector] bound to the method of that name and [math.pi]
      read as [pi], the reading under which it computes anything; the
      numpy functions [cos] and [sqrt] are parameters. *)

From Stdlib Require Import ZArith List Bool Lia QArith.
From Stdlib Require String.
Import String.StringSyntax.
Delimit Scope string_scope with string.
Import ListNotations.
Open Scope Z_scope.

(* ===================================================================== *)
(** * Part I. Definitions                                                 *)
(* ===================================================================== *)

(** ** The Python run time *)

Inductive exn : Type :=
| KeyError | ValueError | IndexError | FloatingPointError | ShapefileException
| NameError | TypeError.

Inductive result (A : Type) : Type :=
| Ok (a : A)
| Raise (e : exn)
| OutOfFuel.
Arguments Ok {A} a.
Arguments Raise {A} e.
Arguments OutOfFuel {A}.

Definition bind {A B : Type} (c : result A) (k : A -> result B) : result B :=
  match c with
  | Ok a => k a
  | Raise e => Raise e
  | OutOfFuel => OutOfFuel
  end.

Notation "x <- c ;; k" := (bind c (fun x => k))
  (at level 61, c at next level, right associativity).

Definition dict (V : Type) : Type := list (Z * V).

Fixpoint dict_get {V : Type} (k : Z) (d : dict V) : option V :=
  match d with
  | [] => None
  | (k', v) :: d' => if k' =? k then Some v else dict_get k d'
  end.

(** [k in d] *)
Definition dict_mem {V : Type} (k : Z) (d : dict V) : bool :=
  match dict_get k d with Some _ => true | None => false end.

(** [d[k]] *)
Definition getitem {V : Type} (k : Z) (d : dict V) : result V :=
  match dict_get k d with Some v => Ok v | None => Raise KeyError end.

(** [d[k] = v]: an existing key keeps its position *)
Fixpoint dict_set {V : Type} (k : Z) (v : V) (d : dict V) : dict V :=
  match d with
  | [] => [(k, v)]
  | (k', v') :: d' =>
      if k' =? k then (k', v) :: d' else (k', v') :: dict_set k v d'
  end.

Definition keys {V : Type} (d : dict V) : list Z := map fst d.
Definition values {V : Type} (d : dict V) : list V := map snd d.

(** [x in l] for a list of integers *)
Definition mem (x : Z) (l : list Z) : bool := existsb (Z.eqb x) l.

(** [if x not in l: l.append(x)] *)
Definition append_new (l : list Z) (x : Z) : list Z :=
  if mem x l then l else l ++ [x].

(** [max(l)] *)
Definition py_max (l : list Z) : result Z :=
  match l with
  | [] => Raise ValueError
  | x :: xs => Ok (fold_left Z.max xs x)
  end.

(** [[f(x) for x in l]] where [f] may raise *)
Fixpoint mapM {A B : Type} (f : A -> result B) (l : list A) : result (list B) :=
  match l with
  | [] => Ok []
  | x :: xs => y <- f x ;; ys <- mapM f xs ;; Ok (y :: ys)
  end.

(** ** The network model *)

(** The attributes of a [Flowline] object that the delineator reads. *)
Record Flowline : Type := mkFlowline {
  comid    : Z;
  hydroseq : Z;
  down     : Z;
  up       : Z;
  drain    : Z;
  divarea  : Z
}.

(** The pickled attribute file: [{hydroseq: Flowline}]. *)
Definition Flowlines : Type := dict Flowline.

Definition flowline_eqb (f g : Flowline) : bool :=
  (comid f =? comid g) && (hydroseq f =? hydroseq g) && (down f =? down g)
  && (up f =? up g) && (drain f =? drain g) && (divarea f =? divarea g).

(** [hydroseqs = {flowlines[f].comid: f for f in flowlines}] *)
Definition make_hydroseqs (flowlines : Flowlines) : dict Z :=
  fold_left (fun h kv => dict_set (comid (snd kv)) (fst kv) h) flowlines [].

(** [flowlines[hydroseqs[c]]] *)
Definition flowline_of (flowlines : Flowlines) (hydroseqs : dict Z) (c : Z)
  : result Flowline :=
  h <- getitem c hydroseqs ;; getitem h flowlines.

(** ** [make_subbasin_outlets], lines 1060-1121: the subdivision loop *)

Section Subdivision.

Variable fuel : nat.
Variable flowlines : Flowlines.
Variable hydroseqs : dict Z.
Variable inlets : list Z.
Variable drainmax : Z.

(** [[f for f in flowlines if flowlines[f].down == flowline.hydroseq]],
    kept as the flowline objects [flowlines[f]] *)
Definition tributaries_of (flowline : Flowline) : list Flowline :=
  filter (fun f => down f =? hydroseq flowline) (values flowlines).

(** [for f in tributaries: if flowlines[f].comid not in outlets: append] *)
Definition add_tributaries (tributaries : list Flowline) (outlets : list Z)
  : list Z :=
  fold_left (fun o f => append_new o (comid f)) tributaries outlets.

(** The [while flowline.up not in boundaries] loop of one outlet. *)
Fixpoint walk (n : nat) (boundaries : list Z) (drain_area : Z)
         (flowline : Flowline) (outlets : list Z) : result (list Z) :=
  match n with
  | O => OutOfFuel
  | S n' =>
      if mem (up flowline) boundaries then Ok outlets
      else
        let tributaries := tributaries_of flowline in
        major <- getitem (up flowline) flowlines ;;
        if existsb (fun f => mem (comid f) outlets) tributaries
           || (divarea flowline - divarea major >? drainmax)
        then Ok (add_tributaries tributaries outlets)
        else if drain_area - divarea flowline >? drainmax
        then
          d <- getitem (down flowline) flowlines ;;
          Ok (append_new outlets (comid d))
        else walk n' boundaries drain_area major outlets
  end.

(** The body of [for outlet in outlets]. *)
Definition check_outlet (outlet : Z) (outlets : list Z) : result (list Z) :=
  flowline <- flowline_of flowlines hydroseqs outlet ;;
  bs <- mapM (fun b => getitem b hydroseqs) (inlets ++ outlets) ;;
  let boundaries := 0 :: bs in
  let drain_area := divarea flowline in
  walk fuel boundaries drain_area flowline outlets.

(** [for outlet in outlets]: the list grows while it is traversed, and the
    traversal reaches the elements appended on the way. *)
Fixpoint check_outlets (n : nat) (i : nat) (outlets : list Z)
  : result (list Z) :=
  match n with
  | O => OutOfFuel
  | S n' =>
      match nth_error outlets i with
      | None => Ok outlets
      | Some outlet =>
          outlets' <- check_outlet outlet outlets ;;
          check_outlets n' (S i) outlets'
      end
  end.

(** One full pass over the outlets. *)
Definition pass (outlets : list Z) : result (list Z) :=
  check_outlets fuel 0%nat outlets.

(** [n = -1; while len(outlets) != n: n = len(outlets); <pass>] *)
Fixpoint subdivide_loop (k : nat) (n : Z) (outlets : list Z)
  : result (list Z) :=
  match k with
  | O => OutOfFuel
  | S k' =>
      if Z.of_nat (length outlets) =? n then Ok outlets
      else
        outlets' <- pass outlets ;;
        subdivide_loop k' (Z.of_nat (length outlets)) outlets'
  end.

Definition subdivide (outlets : list Z) : result (list Z) :=
  subdivide_loop fuel (-1) outlets.

End Subdivision.

(** ** [make_subbasin_outlets], lines 869-1055: the initial outlets *)

(** A gage record, reduced to the fields the outlet criteria read. *)
Record GageRecord : Type := mkGage {
  DAY1    : Z;
  DAYN    : Z;
  HUC     : String.string;
  SITE_NO : String.string
}.

(** [int(str(d)[:4])] for a non-negative integer field of at most 19
    digits: the number made of the four leading decimal digits. *)
Definition first4 (d : Z) : Z :=
  Nat.iter 19 (fun x => if x >=? 10000 then x / 10 else x) d.

(** Lines 935-944:
    [year_criteria = (first_gage <= last_criteria or
                      last_gage >= first_criteria)],
    and [True] when no years are given. *)
Definition year_criteria (years : option (Z * Z)) (record : GageRecord)
  : bool :=
  match years with
  | Some (first_criteria, last_criteria) =>
      let first_gage := first4 (DAY1 record) in
      let last_gage := first4 (DAYN record) in
      (first_gage <=? last_criteria) || (last_gage >=? first_criteria)
  | None => true
  end.

Section Gages.

Variable flowlines : Flowlines.
Variable hydroseqs : dict Z.
Variable years : option (Z * Z).

(** Lines 948-949:
    [flowlines[hydroseqs[comid]].up in flowlines and
     record[HUC8_index] == HUC8].
    [hydroseqs[None]] is a [KeyError]; the second operand is evaluated
    when the first is true, and there the name [HUC8], which neither the
    method nor the module binds, raises [NameError]. *)
Definition watershed_criteria (record : GageRecord) (comid : option Z)
  : result bool :=
  match comid with
  | None => Raise KeyError
  | Some c =>
      f <- flowline_of flowlines hydroseqs c ;;
      if dict_mem (up f) flowlines then Raise NameError else Ok false
  end.

(** The body of [for record, comid in zip(gagerecords, gage_comids)],
    lines 926-960.  Line 953 calls [all] with four arguments, a
    [TypeError]: the [append] of line 956 is never reached. *)
Definition check_gage (outlets : list Z) (gage_outlets : list Z)
           (rc : GageRecord * option Z) : result (list Z) :=
  let (record, comid) := rc in
  let data_criteria := match comid with Some _ => true | None => false end in
  let year := year_criteria years record in
  watershed <- watershed_criteria record comid ;;
  let existing :=
    match comid with Some c => negb (mem c outlets) | None => true end in
  ok <- (Raise TypeError : result bool) ;;
  if ok
  then match comid with
       | Some c => Ok (gage_outlets ++ [c])
       | None => Ok gage_outlets
       end
  else Ok gage_outlets.

(** Lines 924-956: the gage loop. *)
Fixpoint find_gage_outlets (outlets : list Z) (gage_outlets : list Z)
         (gages : list (GageRecord * option Z)) : result (list Z) :=
  match gages with
  | [] => Ok gage_outlets
  | rc :: rest =>
      gage_outlets' <- check_gage outlets gage_outlets rc ;;
      find_gage_outlets outlets gage_outlets' rest
  end.

End Gages.

(** Lines 887-891: [if comid is not None and comid in hydroseqs: append]. *)
Definition add_dam_outlets (hydroseqs : dict Z) (dam_comids : list (option Z))
           (outlets : list Z) : list Z :=
  fold_left (fun o c =>
               match c with
               | Some c => if dict_mem c hydroseqs then o ++ [c] else o
               | None => o
               end) dam_comids outlets.

(** Lines 973-975. *)
Definition find_inlets (flowlines : Flowlines) : list Z :=
  map comid
      (filter (fun f => negb (dict_mem (up f) flowlines) && negb (up f =? 0))
              (values flowlines)).

(** Lines 979-981: the first flowline holding the largest drainage area. *)
Definition find_last_comid (flowlines : Flowlines) : result (Z * Z) :=
  max_area <- py_max (map drain (values flowlines)) ;;
  match filter (fun f => drain f =? max_area) (values flowlines) with
  | [] => Raise IndexError
  | f :: _ => Ok (max_area, comid f)
  end.

(** Lines 987-992: every other flowline with the same [down] as the
    watershed outlet is appended, without a membership test. *)
Definition add_second_outlets (flowlines : Flowlines) (hydroseqs : dict Z)
           (last_comid : Z) (outlets : list Z) : result (list Z) :=
  match flowlines with
  | [] => Ok outlets
  | _ =>
      last <- flowline_of flowlines hydroseqs last_comid ;;
      Ok (outlets ++
          map comid
              (filter (fun v => (down v =? down last)
                                && negb (comid v =? last_comid))
                      (values flowlines)))
  end.

Section MainChannel.

Variable fuel : nat.
Variable flowlines : Flowlines.
Variable hydroseqs : dict Z.

(** [flowline in main]: the objects of the dictionary are told apart by
    their attribute values. *)
Definition in_main (flowline : Flowline) (main : list Flowline) : bool :=
  existsb (flowline_eqb flowline) main.

Definition main_add (main : list Flowline) (flowline : Flowline)
  : list Flowline :=
  if in_main flowline main then main else main ++ [flowline].

(** Lines 1000-1002. *)
Fixpoint trace_down (n : nat) (flowline : Flowline) (main : list Flowline)
  : result (list Flowline) :=
  match n with
  | O => OutOfFuel
  | S n' =>
      match dict_get (down flowline) flowlines with
      | None => Ok main
      | Some next => trace_down n' next (main_add main next)
      end
  end.

(** Lines 996-1002. *)
Fixpoint trace_inlets (inlets : list Z) (main : list Flowline)
  : result (list Flowline) :=
  match inlets with
  | [] => Ok main
  | inlet :: rest =>
      flowline <- flowline_of flowlines hydroseqs inlet ;;
      main' <- trace_down fuel flowline (main_add main flowline) ;;
      trace_inlets rest main'
  end.

(** Lines 1009-1011. *)
Fixpoint trace_up (n : nat) (flowline : Flowline) (main : list Flowline)
  : result (list Flowline) :=
  match n with
  | O => OutOfFuel
  | S n' =>
      if up flowline =? 0 then Ok main
      else
        next <- getitem (up flowline) flowlines ;;
        trace_up n' next (main ++ [next])
  end.

(** Lines 996-1011. *)
Definition make_main (inlets : list Z) (last_comid : Z)
  : result (list Flowline) :=
  main <- trace_inlets inlets [] ;;
  match inlets with
  | [] =>
      flowline <- flowline_of flowlines hydroseqs last_comid ;;
      trace_up fuel flowline (main ++ [flowline])
  | _ => Ok main
  end.

(** Lines 1031-1036: walk down until the next flowline is on the main
    channel or the watershed outlet is reached. *)
Fixpoint connect_down (n : nat) (flowline : Flowline) (main : list Flowline)
  : result (Flowline * list Flowline) :=
  match n with
  | O => OutOfFuel
  | S n' =>
      next <- getitem (down flowline) flowlines ;;
      if in_main next main then Ok (flowline, main)
      else
        let main' := main ++ [flowline] in
        if dict_mem (down next) flowlines
        then connect_down n' next main'
        else Ok (next, main')
  end.

(** The body of [for outlet in outlets], lines 1017-1055. *)
Definition connect_outlet (outlet : Z) (st : list Z * list Flowline)
  : result (list Z * list Flowline) :=
  let (outlets, main) := st in
  flowline <- flowline_of flowlines hydroseqs outlet ;;
  if dict_mem (down flowline) flowlines && negb (in_main flowline main)
  then
    r <- connect_down fuel flowline main ;;
    let (flowline, main) := r in
    let (outlets, main) :=
      if mem (comid flowline) outlets then (outlets, main)
      else (outlets ++ [comid flowline], main ++ [flowline]) in
    let others :=
      filter (fun v => (down v =? down flowline)
                       && negb (flowline_eqb v flowline))
             (values flowlines) in
    Ok (fold_left (fun o other => append_new o (comid other)) others outlets,
        main)
  else Ok st.

(** Lines 1015-1055, over the growing list of outlets. *)
Fixpoint connect_outlets (n : nat) (i : nat) (st : list Z * list Flowline)
  : result (list Z * list Flowline) :=
  match n with
  | O => OutOfFuel
  | S n' =>
      match nth_error (fst st) i with
      | None => Ok st
      | Some outlet =>
          st' <- connect_outlet outlet st ;;
          connect_outlets n' (S i) st'
      end
  end.

End MainChannel.

(** ** [make_subbasin_outlets], lines 1123-1149: the subbasins *)

Section Subbasins.

Variable fuel : nat.
Variable flowlines : Flowlines.
Variable hydroseqs : dict Z.
Variable outlets : list Z.

(** [for comid in hydroseqs:
       if <p>(flowlines[hydroseqs[comid]]) and comid not in outlets: ...],
    as the selected items [(comid, hydroseqs[comid])] in dictionary order. *)
Fixpoint select_comids (p : Flowline -> bool) (items : dict Z)
  : result (list (Z * Z)) :=
  match items with
  | [] => Ok []
  | (c, h) :: rest =>
      f <- getitem h flowlines ;;
      sel <- select_comids p rest ;;
      Ok (if p f && negb (mem c outlets) then (c, h) :: sel else sel)
  end.

(** Line 1125: [{outlet: [outlet] for outlet in outlets}]. *)
Definition init_subbasins : dict (list Z) :=
  fold_left (fun sb outlet => dict_set outlet [outlet] sb) outlets [].

(** [for c in cs: subbasins[last_comid].append(c)] *)
Fixpoint extend_subbasin (last_comid : Z) (cs : list Z)
         (subbasins : dict (list Z)) : result (dict (list Z)) :=
  match cs with
  | [] => Ok subbasins
  | c :: rest =>
      members <- getitem last_comid subbasins ;;
      extend_subbasin last_comid rest
                      (dict_set last_comid (members ++ [c]) subbasins)
  end.

(** Lines 1129-1134. *)
Definition merge_second_outlets (last_comid : Z) (subbasins : dict (list Z))
  : result (dict (list Z)) :=
  last <- flowline_of flowlines hydroseqs last_comid ;;
  let downhydroseq := down last in
  sel <- select_comids (fun f => down f =? downhydroseq) hydroseqs ;;
  extend_subbasin last_comid (map fst sel) subbasins.

(** Lines 1140-1149: [while len(current) > 0]. *)
Fixpoint flood (n : nat) (members : list Z) (current : list Z)
  : result (list Z) :=
  match n with
  | O => OutOfFuel
  | S n' =>
      match current with
      | [] => Ok members
      | _ =>
          let last := current in
          sel <- select_comids (fun f => mem (down f) last) hydroseqs ;;
          flood n' (members ++ map fst sel) (map snd sel)
      end
  end.

(** Lines 1138-1149: [for subbasin in subbasins]. *)
Fixpoint fill_subbasins (todo : list Z) (subbasins : dict (list Z))
  : result (dict (list Z)) :=
  match todo with
  | [] => Ok subbasins
  | subbasin :: rest =>
      members <- getitem subbasin subbasins ;;
      current <- mapM (fun outlet => getitem outlet hydroseqs) members ;;
      members' <- flood fuel members current ;;
      fill_subbasins rest (dict_set subbasin members' subbasins)
  end.

(** Lines 1125-1149. *)
Definition make_subbasins (last_comid : Z) : result (dict (list Z)) :=
  subbasins <- merge_second_outlets last_comid init_subbasins ;;
  fill_subbasins (keys subbasins) subbasins.

End Subbasins.

(** ** [make_subbasin_outlets], lines 854-1149 *)

(** The arguments of the call and what the files of the delineator hold:
    [dams] is [None] without a dam file and otherwise the comids of the
    flowlines at the dams; [gages] is [None] without a gage file and
    otherwise the gage records, each with the comid of the flowline at the
    gage; [HUC8] is the watershed code of the caller.  The code as written
    gets at none of the three: it calls [find_flowlines] without [self]
    for the comids and reads [HUC8] without binding it. *)
Record Inputs : Type := mkInputs {
  flowlines : Flowlines;
  extras    : option (list Z);
  dams      : option (list (option Z));
  gages     : option (list (GageRecord * option Z));
  HUC8      : String.string;
  years     : option (Z * Z);
  drainmax  : option Z
}.

Record Delineation : Type := mkDelineation {
  outlets   : list Z;
  subbasins : dict (list Z)
}.

Definition make_subbasin_outlets (fuel : nat) (a : Inputs)
  : result Delineation :=
  let outlets := match extras a with None => [] | Some e => e end in
  let flowlines := flowlines a in
  let hydroseqs := make_hydroseqs flowlines in
  outlets <-
    match dams a with
    | Some _ =>
        (* line 885: the module binds no name [find_flowlines] *)
        dam_comids <- (Raise NameError : result (list (option Z))) ;;
        Ok (add_dam_outlets hydroseqs dam_comids outlets)
    | None => Ok outlets
    end ;;
  gage_outlets <-
    match gages a with
    | Some g =>
        (* line 907, the same *)
        gage_comids <- (Raise NameError : result (list (option Z))) ;;
        find_gage_outlets flowlines hydroseqs (years a) outlets []
                          (combine (map fst g) gage_comids)
    | None => Ok []
    end ;;
  let outlets := outlets ++ gage_outlets in
  let inlets := find_inlets flowlines in
  last <- find_last_comid flowlines ;;
  let (max_area, last_comid) := last in
  let outlets := append_new outlets last_comid in
  outlets <- add_second_outlets flowlines hydroseqs last_comid outlets ;;
  main <- make_main fuel flowlines hydroseqs inlets last_comid ;;
  st <- connect_outlets fuel flowlines hydroseqs fuel 0%nat (outlets, main) ;;
  let outlets := fst st in
  let drainmax := match drainmax a with None => max_area | Some d => d end in
  outlets <- subdivide fuel flowlines hydroseqs inlets drainmax outlets ;;
  subbasins <- make_subbasins fuel flowlines hydroseqs outlets last_comid ;;
  Ok (mkDelineation outlets subbasins).

(** ** Example networks *)

(** A linear chain of five flowlines; the areas are those of the list, in
    square kilometres, from the top of the chain to its outlet.  Flowline
    [i] has comid [100 + i] and hydroseq [i]. *)
Definition chain_node (i a : Z) : Z * Flowline :=
  (i, mkFlowline (100 + i) i (if i =? 5 then 0 else i + 1) (i - 1) a a).

(** Stored from the outlet upwards. *)
Definition chain5 : Flowlines :=
  [chain_node 5 100; chain_node 4 100; chain_node 3 30; chain_node 2 20;
   chain_node 1 10].

(** The same flowlines stored from the top downwards. *)
Definition chain5_up : Flowlines := rev chain5.

Definition chain_inputs (fl : Flowlines) (d : Z) : Inputs :=
  mkInputs fl None None None String.EmptyString None (Some d).

(** ** Geometry: [distance2], [closest_index], [get_distance], [get_overland] *)

(** [a < b] on rationals, as a boolean *)
Definition Qltb (a b : Q) : bool := negb (Qle_bool b a).

(** [min(a, b)] and [max(a, b)]: the first argument wins a tie *)
Definition py_min2 (a b : Q) : Q := if Qltb b a then b else a.
Definition py_max2 (a b : Q) : Q := if Qltb a b then b else a.

(** [min(l)] for a non-empty list [d :: l] *)
Definition list_min (d : Q) (l : list Q) : Q := fold_left py_min2 l d.

(** [l.index(v)] *)
Fixpoint index_of (v : Q) (l : list Q) : option nat :=
  match l with
  | [] => None
  | x :: xs => if Qeq_bool x v then Some O else option_map S (index_of v xs)
  end.

(** [l.index(min(l))] *)
Definition index_of_min (l : list Q) : option nat :=
  match l with
  | [] => None
  | d :: rest => index_of (list_min d rest) l
  end.

(** A point [[x, y]]. *)
Definition Point : Type := (Q * Q)%type.

(** Line 43. *)
Definition distance2 (p1 p2 : Point) : Q :=
  ((fst p1 - fst p2) ^ 2 + (snd p1 - snd p2) ^ 2)%Q.

(** A raster point [[x, y, z]]: longitude, latitude, elevation. *)
Record Point3 : Type := mkPoint3 { p0 : Q; p1 : Q; p2 : Q }.

(** [p[:2]] *)
Definition xy (p : Point3) : Point := (p0 p, p1 p).

(** A shape of the flowline file: [bbox = [xmin, ymin, xmax, ymax]] and
    the vertices. *)
Record Shape : Type := mkShape {
  bbox0  : Q;
  bbox1  : Q;
  bbox2  : Q;
  bbox3  : Q;
  points : list Point
}.

(** [xmin < x and x < xmax and ymin < y and y < ymax] *)
Definition inside (xmin ymin xmax ymax x y : Q) : bool :=
  Qltb xmin x && Qltb x xmax && Qltb ymin y && Qltb y ymax.

(** Line 61. *)
Definition bbox_contains (x y : Q) (shape : Shape) : bool :=
  inside (bbox0 shape) (bbox1 shape) (bbox2 shape) (bbox3 shape) x y.

(** Lines 75-80. *)
Definition expanded_bbox_contains (x y : Q) (shape : Shape) : bool :=
  let xmin := (bbox0 shape - (bbox2 shape - bbox0 shape))%Q in
  let xmax := (bbox2 shape + (bbox2 shape - bbox0 shape))%Q in
  let ymin := (bbox1 shape - (bbox3 shape - bbox1 shape))%Q in
  let ymax := (bbox3 shape + (bbox3 shape - bbox1 shape))%Q in
  inside xmin ymin xmax ymax x y.

(** [i = 0; for shape in shapes: if <test>: matches.append(i); i += 1],
    each index kept together with [shapes[i]]. *)
Fixpoint find_matches (test : Shape -> bool) (i : nat) (shapes : list Shape)
  : list (nat * Shape) :=
  match shapes with
  | [] => []
  | shape :: rest =>
      if test shape then (i, shape) :: find_matches test (S i) rest
      else find_matches test (S i) rest
  end.

(** Lines 54-82: the shapes whose bounding box holds the point and, when
    there is none, the shapes whose widened bounding box holds it. *)
Definition find_candidates (x y : Q) (shapes : list Shape)
  : list (nat * Shape) :=
  let matches := find_matches (bbox_contains x y) O shapes in
  match matches with
  | [] => find_matches (expanded_bbox_contains x y) O shapes
  | _ => matches
  end.

(** Lines 92-101 for one match: [distance] starts at the larger side of
    the bounding box, and the loop over the vertices calls
    [get_distance(p, [x, y])] at line 100.  The class has a method of that
    name, but the module binds no name [get_distance]: the call for the
    first vertex raises [NameError].  A shape without a vertex keeps the
    side of its box. *)
Definition match_distance (shape : Shape) : result Q :=
  let distance :=
    py_max2 (bbox2 shape - bbox0 shape)%Q (bbox3 shape - bbox1 shape)%Q in
  match points shape with
  | [] => Ok distance
  | _ :: _ => Raise NameError
  end.

(** Lines 84-103: [if len(matches) > 1: ...
    matches = [matches[distances.index(min(distances))]]]. *)
Definition resolve_matches (matches : list (nat * Shape))
  : result (list (nat * Shape)) :=
  if (1 <? length matches)%nat
  then
    distances <- mapM (fun m => match_distance (snd m)) matches ;;
    match index_of_min distances with
    | Some j => match nth_error matches j with
                | Some m => Ok [m]
                | None => Raise IndexError
                end
    | None => Raise ValueError
    end
  else Ok matches.

(** Lines 45-108; [None] is Python's [None]. *)
Definition closest_index (point : Point) (shapes : list Shape)
  : result (option nat) :=
  let x := fst point in
  let y := snd point in
  let matches := find_candidates x y shapes in
  matches <- resolve_matches matches ;;
  match matches with
  | [m] => Ok (Some (fst m))
  | _ => Ok None
  end.

Section Geometry.

(** [numpy.cos], [numpy.sqrt] and [numpy.pi]. *)
Variable cos : Q -> Q.
Variable sqrt : Q -> Q.
Variable pi : Q.

(** Lines 584-603; the points are (longitude, latitude) and only [p[0]]
    and [p[1]] are read. *)
Definition get_distance (a b : Point) : Q :=
  (let deg_rad := pi / 180 in
   let dphi := snd a - snd b in
   let phim := 0.5 * (snd a + snd b) in
   let dlam := fst a - fst b in
   let k1 := 111.13209 - 0.56605 * cos (2 * phim * deg_rad)
             + 0.00120 * cos (4 * phim * deg_rad) in
   let k2 := 111.41513 * cos (phim * deg_rad)
             - 0.09455 * cos (3 * phim * deg_rad)
             + 0.0012 * cos (5 * phim * deg_rad) in
   sqrt (k1 ^ 2 * dphi ^ 2 + k2 ^ 2 * dlam ^ 2))%Q.

(** Lines 1726-1743, row by row: the formula of [get_distance], with
    [math.pi] of line 1731 read as [pi] (the module does not import
    [math]). *)
Definition get_distance_vector (catchpoints closest : list Point3) : list Q :=
  map (fun ab => get_distance (xy (fst ab)) (xy (snd ab)))
      (combine catchpoints closest).

(** Lines 1745-1755. *)
Definition get_overland (a b : Point3) (tolerance min_slope : Q) : Q * Q :=
  let L := get_distance (xy a) (xy b) in
  if Qltb tolerance L
  then ((L / 2)%Q, ((p2 a - p2 b) / L / 100000)%Q)
  else (tolerance, min_slope).

(** Line 1763: an element-wise division; [combine_catchments] sets
    [numpy.seterr(all = 'raise')], so a zero length raises. *)
Fixpoint slope_vector (rows : list (Point3 * Point3)) (length : list Q)
  : result (list Q) :=
  match rows, length with
  | (a, b) :: rows', l :: length' =>
      if Qeq_bool l 0 then Raise FloatingPointError
      else
        rest <- slope_vector rows' length' ;;
        Ok (((p2 a - p2 b) / l / 100000)%Q :: rest)
  | _, _ => Ok []
  end.

(** Lines 1765-1766: [for l, s in zip(length, slope):
                        if l < tol: l, s = tol, min_slope].
    The assignment binds the loop variables [l] and [s]; the arrays
    [length] and [slope] are not written.  The function returns the last
    values of the two variables. *)
Definition clamp_loop (tol min_slope : Q) (length slope : list Q)
  : option (Q * Q) :=
  fold_left (fun _ ls => if Qltb (fst ls) tol then Some (tol, min_slope)
                         else Some ls)
            (combine length slope) None.

(** Lines 1757-1768, with the name [get_distance_vector] of line 1762
    bound to the method: as written the module binds no such name and the
    call raises [NameError] before anything is computed. *)
Definition get_overland_vector (catchpoints closest : list Point3)
           (tol min_slope : Q) : result (list Q * list Q) :=
  let length := get_distance_vector catchpoints closest in
  slope <- slope_vector (combine catchpoints closest) length ;;
  let _ := clamp_loop tol min_slope length slope in
  Ok (map (fun l => (l / 2)%Q) length, slope).

(** [a.argmin()]: the first index of the least element. *)
Definition argmin (a : list Q) : result nat :=
  match index_of_min a with
  | Some j => Ok j
  | None => Raise ValueError
  end.

(** [numpy.dot(flowpoints[:, :2], point[:2])], one entry. *)
Definition dot2 (flowpoint point : Point3) : Q :=
  (p0 flowpoint * p0 point + p1 flowpoint * p1 point)%Q.

(** Lines 1893-1894:
    [flowpoints[numpy.dot(flowpoints[:, :2], point[:2]).argmin()]]. *)
Definition closest_flowpoint (flowpoints : list Point3) (point : Point3)
  : result Point3 :=
  j <- argmin (map (fun fp => dot2 fp point) flowpoints) ;;
  match nth_error flowpoints j with
  | Some fp => Ok fp
  | None => Raise IndexError
  end.

(** Lines 1890-1898: the pairing and the overland flow of one catchment. *)
Definition catchment_overland (catchpoints flowpoints : list Point3)
  : result (list Q * list Q) :=
  closest <- mapM (closest_flowpoint flowpoints) catchpoints ;;
  get_overland_vector catchpoints closest 0.1%Q 0.00001%Q.

End Geometry.

(** ** [build_watershed] *)

(** A field descriptor such as [['ComID', 'N', 9, 0]]. *)
Definition Field : Type := (String.string * String.string * Z * Z)%type.

(** What [build_watershed] reads of a [shapefile.Reader]. *)
Record Shapefile : Type := mkShapefile { fields : list Field }.

(** The calls that [build_watershed] makes on the outside world: printing,
    and the methods of the [Subbasin] and [Watershed] objects. *)
Inductive event : Type :=
| Print (fs : list Field)
| SubbasinAddInlet (subbasin i : Z)
| WatershedAddInlet (subbasin : Z)
| WatershedAddHeadwater (subbasin : Z)
| WatershedAddOutlet (subbasin : Z)
| AddMassLinkage (updown : dict Z).

(** How a call ends: it returns, raises, leaves the interpreter through
    [exit()], or exhausts the iteration budget. *)
Inductive outcome (A : Type) : Type :=
| Returned (a : A)
| Raised (e : exn)
| Exited
| Diverged.
Arguments Returned {A} a.
Arguments Raised {A} e.
Arguments Exited {A}.
Arguments Diverged {A}.

(** A computation with its trace of events. *)
Definition io (A : Type) : Type := (list event * outcome A)%type.

Definition io_bind {A B : Type} (c : io A) (k : A -> io B) : io B :=
  match c with
  | (t, Returned a) => let (t', o) := k a in (t ++ t', o)
  | (t, Raised e) => (t, Raised e)
  | (t, Exited) => (t, Exited)
  | (t, Diverged) => (t, Diverged)
  end.

Notation "x <~ c ;; k" := (io_bind c (fun x => k))
  (at level 61, c at next level, right associativity).

Definition io_ret {A : Type} (a : A) : io A := ([], Returned a).
Definition emit (e : event) : io unit := ([e], Returned tt).

(** [exit()] *)
Definition exit : io unit := ([], Exited).

Definition lift {A : Type} (r : result A) : io A :=
  match r with
  | Ok a => ([], Returned a)
  | Raise e => ([], Raised e)
  | OutOfFuel => ([], Diverged)
  end.

Section BuildWatershed.

(** [shapefile.Reader(file, shapeType = 5)] *)
Variable Reader : String.string -> result Shapefile.

(** Lines 420-582, the statements that follow [exit()]: the flow planes,
    the reaches, the classification of the subbasins (lines 545-553) and
    the mass linkage, with their calls of the [Subbasin] and [Watershed]
    methods. *)
Variable rest : Shapefile -> io unit.

(** Lines 399-582. *)
Definition build_watershed (catchmentfile : String.string) : io unit :=
  sf <~ lift (Reader catchmentfile) ;;
  _ <~ emit (Print (fields sf)) ;;
  _ <~ exit ;;
  rest sf.

End BuildWatershed.

(** ** Example inputs *)

(** A gage on flowline 103 of the chain with records from 1950 to 1960. *)
Definition old_gage : GageRecord :=
  mkGage 19500101 19601231 "07080106"%string "05412500"%string.

(** The chain with that gage, for the years 2000 to 2010 and the default
    [drainmax]; and the chain without a gage file. *)
Definition gage_inputs : Inputs :=
  mkInputs chain5 None None (Some [(old_gage, Some 103)])
           "07080106"%string (Some (2000, 2010)) None.

Definition no_gage_inputs : Inputs :=
  mkInputs chain5 None None None "07080106"%string (Some (2000, 2010)) None.

(** Two flow points and a raster point that coincides with the first. *)
Definition flowpoints2 : list Point3 :=
  [mkPoint3 1 1 0; mkPoint3 0 0 0].
Definition rasterpoint : Point3 := mkPoint3 1 1 5.

(** Two flowline shapes with nested bounding boxes. *)
Definition nested_shapes : list Shape :=
  [mkShape 0 0 4 4 [(0, 0); (4, 4)]%Q; mkShape 1 1 3 3 [(1, 1); (3, 3)]%Q].





(** ** Specification predicates *)

(** The comids of the loaded flowlines. *)
Definition comids (flowlines : Flowlines) : list Z :=
  map comid (values flowlines).

(** [o'] is [o] followed by pairwise distinct comids of the network that
    are not in [o]: the outlets only grow, by new flowlines. *)
Definition extends (flowlines : Flowlines) (o o' : list Z) : Prop :=
  exists ext,
    o' = o ++ ext /\ NoDup ext
    /\ forall x, In x ext -> ~ In x o /\ In x (comids flowlines).

(** Following [up] strictly decreases a rank: the network has no cycle of
    upstream references. *)
Definition up_ranked (flowlines : Flowlines) (rank : Z -> nat) : Prop :=
  forall k f g,
    dict_get k flowlines = Some f ->
    dict_get (up f) flowlines = Some g ->
    (rank (up f) < rank k)%nat.

Definition rank_bounded (flowlines : Flowlines) (rank : Z -> nat) (R : nat)
  : Prop :=
  forall k f, dict_get k flowlines = Some f -> (rank k <= R)%nat.

Section SubdivisionSpec.

Variable fuel : nat.
Variable flowlines : Flowlines.
Variable hydroseqs : dict Z.
Variable inlets : list Z.
Variable drainmax : Z.

(** [m] successive passes from [o] to [o'], each of which adds an outlet. *)
Inductive grows : nat -> list Z -> list Z -> Prop :=
| grows_O (o : list Z) : grows O o o
| grows_S (m : nat) (o o1 o' : list Z) :
    pass fuel flowlines hydroseqs inlets drainmax o = Ok o1 ->
    (length o < length o1)%nat ->
    grows m o1 o' ->
    grows (S m) o o'.




End SubdivisionSpec.

(** The two rank conditions as checks that compute. *)
Definition up_rankedb (flowlines : Flowlines) (rank : Z -> nat) : bool :=
  forallb (fun kv : Z * Flowline =>
             match dict_get (fst kv) flowlines with
             | Some f =>
                 if dict_mem (up f) flowlines
                 then (rank (up f) <? rank (fst kv))%nat
                 else true
             | None => true
             end) flowlines.

Definition rank_boundedb (flowlines : Flowlines) (rank : Z -> nat) (R : nat)
  : bool :=
  forallb (fun k => (rank k <=? R)%nat) (keys flowlines).

(** Following [down] strictly decreases a rank: the network has no cycle
    of downstream references. *)
Definition down_ranked (flowlines : Flowlines) (rank : Z -> nat) : Prop :=
  forall k f g,
    dict_get k flowlines = Some f ->
    dict_get (down f) flowlines = Some g ->
    (rank (down f) < rank k)%nat.

Definition down_rankedb (flowlines : Flowlines) (rank : Z -> nat) : bool :=
  forallb (fun kv : Z * Flowline =>
             match dict_get (fst kv) flowlines with
             | Some f =>
                 if dict_mem (down f) flowlines
                 then (rank (down f) <? rank (fst kv))%nat
                 else true
             | None => true
             end) flowlines.

Section SubbasinSpec.

Variable flowlines : Flowlines.
Variable hydroseqs : dict Z.
Variable outlets : list Z.

(** [drains_to c s]: the comid [c] drains to the outlet [s], the first
    outlet on the way down from [c] (which is [c] itself when [c] is an
    outlet). *)
Inductive drains_to : Z -> Z -> Prop :=
| drains_outlet (s : Z) :
    In s outlets -> drains_to s s
| drains_down (c h : Z) (f : Flowline) (c' s : Z) :
    ~ In c outlets ->
    dict_get c hydroseqs = Some h ->
    dict_get h flowlines = Some f ->
    dict_get c' hydroseqs = Some (down f) ->
    drains_to c' s ->
    drains_to c s.

(** The items that one round of the loops of lines 1131 and 1144 selects,
    when no lookup fails. *)
Definition selected (p : Flowline -> bool) (items : dict Z) : dict Z :=
  filter (fun ch : Z * Z =>
            match dict_get (snd ch) flowlines with
            | Some f => p f && negb (mem (fst ch) outlets)
            | None => false
            end) items.

(** The hydroseqs that the flood reaches in [k] rounds from [current]. *)
Fixpoint reached (current : list Z) (k : nat) (h : Z) : Prop :=
  match k with
  | O => In h current
  | S k' =>
      exists c f,
        In (c, h) hydroseqs /\ dict_get h flowlines = Some f
        /\ ~ In c outlets /\ reached current k' (down f)
  end.

(** The comids that the flood of lines 1140-1149 adds, in some round, when
    it starts from [current]. *)
Definition flooded (current : list Z) (c : Z) : Prop :=
  exists k h f,
    In (c, h) hydroseqs /\ dict_get h flowlines = Some f
    /\ ~ In c outlets /\ reached current k (down f).

(** Every flowline that shares the [down] of the watershed outlet is an
    outlet, as lines 983-992 leave it. *)
Definition second_outlets_marked (last_comid : Z) : Prop :=
  forall last c h f,
    flowline_of flowlines hydroseqs last_comid = Ok last ->
    dict_get c hydroseqs = Some h ->
    dict_get h flowlines = Some f ->
    down f = down last ->
    In c outlets.

(** Every flowline whose [down] is outside the network is an outlet. *)
Definition exits_are_outlets : Prop :=
  forall k f,
    dict_get k flowlines = Some f ->
    dict_mem (down f) flowlines = false ->
    In (comid f) outlets.

End SubbasinSpec.

(** No flowline is an inlet: every [up] is [0] or a key of the network. *)
Definition closed_upstream (flowlines : Flowlines) : Prop :=
  forall k f,
    dict_get k flowlines = Some f ->
    up f = 0 \/ dict_mem (up f) flowlines = true.

(** The [down] of a flowline that is the [up] of another one is a key of
    the network. *)
Definition downstream_known (flowlines : Flowlines) : Prop :=
  forall k f g,
    dict_get k flowlines = Some f ->
    dict_get (up f) flowlines = Some g ->
    dict_mem (down g) flowlines = true.

Definition closed_upstreamb (flowlines : Flowlines) : bool :=
  forallb (fun f => (up f =? 0) || dict_mem (up f) flowlines)
          (values flowlines).

Definition downstream_knownb (flowlines : Flowlines) : bool :=
  forallb (fun f => match dict_get (up f) flowlines with
                    | Some g => dict_mem (down g) flowlines
                    | None => true
                    end)
          (values flowlines).

(** ** [find_subbasin_comids], lines 187-229 *)

Section FindSubbasinComids.

Variable flowlines : Flowlines.
Variable hydroseqs : dict Z.

(** Lines 209-212, one round of the search:
    [for comid in hydroseqs:
       if flowlines[hydroseqs[comid]].down in last: ...],
    as the selected items [(comid, hydroseqs[comid])] in dictionary
    order. *)
Fixpoint search_round (last : list Z) (items : dict Z)
  : result (list (Z * Z)) :=
  match items with
  | [] => Ok []
  | (c, h) :: rest =>
      f <- getitem h flowlines ;;
      sel <- search_round last rest ;;
      Ok (if mem (down f) last then (c, h) :: sel else sel)
  end.

(** Lines 205-212: [while len(current) > 0]. *)
Fixpoint search_upstream (n : nat) (found : list Z) (current : list Z)
  : result (list Z) :=
  match n with
  | O => OutOfFuel
  | S n' =>
      match current with
      | [] => Ok found
      | _ =>
          let last := current in
          sel <- search_round last hydroseqs ;;
          search_upstream n' (found ++ map fst sel) (map snd sel)
      end
  end.

(** Lines 218-225: the test [flowlines[hydroseqs[comid]].down in hydroseqs]
    looks a hydroseq up among the comids, the keys of [hydroseqs]. *)
Fixpoint link_comids (found : list Z) (updown : dict Z) : result (dict Z) :=
  match found with
  | [] => Ok updown
  | c :: rest =>
      f <- flowline_of flowlines hydroseqs c ;;
      if dict_mem (down f) hydroseqs
      then
        d <- getitem (down f) hydroseqs ;;
        link_comids rest (dict_set c d updown)
      else link_comids rest (dict_set c 0 updown)
  end.

End FindSubbasinComids.

(** Lines 187-229; the message of line 214 is not modelled. *)
Definition find_subbasin_comids (fuel : nat) (flowlines : Flowlines)
           (outletcomid : Z) : result (dict Z) :=
  let hydroseqs := make_hydroseqs flowlines in
  h <- getitem outletcomid hydroseqs ;;
  found <- search_upstream flowlines hydroseqs fuel [outletcomid] [h] ;;
  updown <- link_comids flowlines hydroseqs found [] ;;
  Ok (dict_set outletcomid 0 updown).

(** ** [find_flowlines], lines 110-137 *)

Definition field_eqb (a b : Field) : bool :=
  let '(an, at_, al, ad) := a in
  let '(bn, bt, bl, bd) := b in
  String.eqb an bn && String.eqb at_ bt && (al =? bl) && (ad =? bd).

(** [l.index(x)] for a list of field descriptors *)
Fixpoint field_index (x : Field) (l : list Field) : result nat :=
  match l with
  | [] => Raise ValueError
  | y :: l' =>
      if field_eqb y x then Ok O else i <- field_index x l' ;; Ok (S i)
  end.

(** [l[i]] for an integer [i]: a negative index counts from the end. *)
Definition py_getitem {A : Type} (l : list A) (i : Z) : result A :=
  let n := Z.of_nat (length l) in
  let j := if i <? 0 then i + n else i in
  if (j <? 0) || (n <=? j) then Raise IndexError
  else match nth_error l (Z.to_nat j) with
       | Some a => Ok a
       | None => Raise IndexError
       end.

(** What [find_flowlines] reads of the [Reader] of the flowline file: the
    field descriptors, the shapes, and the method [record]. *)
Record FlowlineReader (Value : Type) : Type := mkFlowlineReader {
  r_fields : list Field;
  r_shapes : list Shape;
  r_record : nat -> result (list Value)
}.
Arguments r_fields {Value} _.
Arguments r_shapes {Value} _.
Arguments r_record {Value} _ _.

(** [['COMID', 'N', 9, 0]] *)
Definition COMID_field : Field := ("COMID"%string, "N"%string, 9, 0).

Section FindFlowlines.

Variable Value : Type.

(** Lines 133-135: the body of [for i in indices]. *)
Definition record_comid (flowlines : FlowlineReader Value) (comid_index : Z)
           (i : option nat) : result (option Value) :=
  match i with
  | Some i =>
      record <- r_record flowlines i ;;
      v <- py_getitem record comid_index ;;
      Ok (Some v)
  | None => Ok None
  end.

(** Lines 117-137, for the flowline file that the [Reader] has opened.
    The indices of all the points are computed before the field of the
    comids is looked up. *)
Definition find_flowlines (flowlines : FlowlineReader Value)
           (points : list Point) : result (list (option Value)) :=
  let lines := r_shapes flowlines in
  indices <- mapM (fun point => closest_index point lines) points ;;
  j <- field_index COMID_field (r_fields flowlines) ;;
  let comid_index := Z.of_nat j - 1 in
  mapM (record_comid flowlines comid_index) indices.

End FindFlowlines.

(** ** [get_boundaries], lines 605-621 *)

(** The list [shape.bbox]. *)
Definition BBox : Type := (Q * Q * Q * Q)%type.

Definition bbox (shape : Shape) : BBox :=
  (bbox0 shape, bbox1 shape, bbox2 shape, bbox3 shape).

(** [shape.bbox] after the assignments to its items. *)
Definition set_bbox (shape : Shape) (b : BBox) : Shape :=
  let '(b0, b1, b2, b3) := b in mkShape b0 b1 b2 b3 (points shape).

(** Lines 611-614, the four tests of one round. *)
Definition widen (boundaries b : BBox) : BBox :=
  let '(m0, m1, m2, m3) := boundaries in
  let '(b0, b1, b2, b3) := b in
  (if Qltb b0 m0 then b0 else m0,
   if Qltb b1 m1 then b1 else m1,
   if Qltb m2 b2 then b2 else m2,
   if Qltb m3 b3 then b3 else m3).

(** Lines 616-619. *)
Definition spaced (boundaries : BBox) (space : Q) : BBox :=
  let '(m0, m1, m2, m3) := boundaries in
  (m0 - (m2 - m0) * space, m1 - (m3 - m1) * space,
   m2 + (m2 - m0) * space, m3 + (m3 - m1) * space)%Q.

(** Lines 605-621.  [boundaries] is the list [shapes[0].bbox] itself, not a
    copy of it: the assignments of lines 611-614 write into the first
    shape, so the function returns the extent together with the shapes as
    it leaves them.  The loop runs over [shapes[0:]], the first shape
    included. *)
Definition get_boundaries (shapes : list Shape) (space : Q)
  : result (BBox * list Shape) :=
  match shapes with
  | [] => Raise IndexError
  | first :: rest =>
      let boundaries :=
        fold_left (fun m shape => widen m (bbox shape)) shapes (bbox first) in
      Ok (spaced boundaries space, set_bbox first boundaries :: rest)
  end.

(** ** [combine_flowlines], lines 1496-1510: the primary channel *)

(** Lines 1496-1499:
    [{f: flowlines[f].down for f in flowlines
      if flowlines[f].comid in all_comids}], and the same with [up]. *)
Definition restrict (attr : Flowline -> Z) (flowlines : Flowlines)
           (all_comids : list Z) : dict Z :=
  fold_left (fun d kv => if mem (comid (snd kv)) all_comids
                         then dict_set (fst kv) (attr (snd kv)) d
                         else d)
            flowlines [].

(** Line 1505: [while updown[current] in updown: current = updown[current]]. *)
Fixpoint follow_down (n : nat) (updown : dict Z) (current : Z) : result Z :=
  match n with
  | O => OutOfFuel
  | S n' =>
      d <- getitem current updown ;;
      if dict_mem d updown then follow_down n' updown d else Ok current
  end.

(** Lines 1508-1510:
    [while downup[current] in downup:
       current = downup[current]; primary.insert(0, current)]. *)
Fixpoint follow_up (n : nat) (downup : dict Z) (current : Z)
         (primary : list Z) : result (list Z) :=
  match n with
  | O => OutOfFuel
  | S n' =>
      u <- getitem current downup ;;
      if dict_mem u downup then follow_up n' downup u (u :: primary)
      else Ok primary
  end.

(** Lines 1496-1510: the hydroseqs of the primary channel, from its top to
    the end of the watershed. *)
Definition primary_channel (fuel : nat) (flowlines : Flowlines)
           (all_comids : list Z) : result (list Z) :=
  let updown := restrict down flowlines all_comids in
  let downup := restrict up flowlines all_comids in
  match keys updown with
  | [] => Raise IndexError
  | current :: _ =>
      current <- follow_down fuel updown current ;;
      follow_up fuel downup current [current]
  end.

(** ** Specification predicates, continued *)

(** [upstream_of s c]: the flowline of comid [c] flows, through one or
    more [down] references, into the flowline of comid [s]. *)
Inductive upstream_of (flowlines : Flowlines) (hydroseqs : dict Z) (s : Z)
  : Z -> Prop :=
| upstream_direct (c h : Z) (f : Flowline) :
    dict_get c hydroseqs = Some h ->
    dict_get h flowlines = Some f ->
    dict_get s hydroseqs = Some (down f) ->
    upstream_of flowlines hydroseqs s c
| upstream_step (c h : Z) (f : Flowline) (c' : Z) :
    dict_get c hydroseqs = Some h ->
    dict_get h flowlines = Some f ->
    dict_get c' hydroseqs = Some (down f) ->
    upstream_of flowlines hydroseqs s c' ->
    upstream_of flowlines hydroseqs s c.

(** The value that lines 221-225 store for the comid [c]. *)
Definition link_of (flowlines : Flowlines) (hydroseqs : dict Z) (c : Z)
  : option Z :=
  match dict_get c hydroseqs with
  | Some h =>
      match dict_get h flowlines with
      | Some f =>
          match dict_get (down f) hydroseqs with
          | Some d => Some d
          | None => Some 0
          end
      | None => None
      end
  | None => None
  end.

(** [g] is met on the way down from [f], [f] excluded. *)
Inductive below (flowlines : Flowlines) : Flowline -> Flowline -> Prop :=
| below_next (f g : Flowline) :
    dict_get (down f) flowlines = Some g -> below flowlines f g
| below_step (f next g : Flowline) :
    dict_get (down f) flowlines = Some next ->
    below flowlines next g ->
    below flowlines f g.

(** A list of flowlines that holds, with each of its members, the flowline
    downstream of it. *)
Definition closed_downstream (flowlines : Flowlines) (main : list Flowline)
  : Prop :=
  forall f g, In f main -> dict_get (down f) flowlines = Some g -> In g main.

(** Each member of the list is the [up] of the next one. *)
Fixpoint up_chain (flowlines : Flowlines) (main : list Flowline) : Prop :=
  match main with
  | f :: (g :: _) as rest =>
      dict_get (up f) flowlines = Some g /\ up_chain flowlines rest
  | _ => True
  end.

(** [e] holds the bounding box [b]. *)
Definition encloses (e b : BBox) : Prop :=
  let '(e0, e1, e2, e3) := e in
  let '(b0, b1, b2, b3) := b in
  (e0 <= b0 /\ e1 <= b1 /\ b2 <= e2 /\ b3 <= e3)%Q.

(** The hydroseq [h] is the key of a flowline of the file, one whose comid
    is among [all_comids]. *)
Definition member (flowlines : Flowlines) (all_comids : list Z) (h : Z)
  : Prop :=
  exists f, dict_get h flowlines = Some f /\ In (comid f) all_comids.

(** Each hydroseq of the list is the [up] of the flowline of the next
    one. *)
Fixpoint up_linked (flowlines : Flowlines) (primary : list Z) : Prop :=
  match primary with
  | u :: (d :: _) as rest =>
      (exists g, dict_get d flowlines = Some g /\ up g = u)
      /\ up_linked flowlines rest
  | _ => True
  end.

(** The bounding box of the shape holds the point, strictly. *)
Definition box_holds (x y : Q) (s : Shape) : Prop :=
  (bbox0 s < x /\ x < bbox2 s /\ bbox1 s < y /\ y < bbox3 s)%Q.

(** The bounding box of the shape, widened by its width on either side
    and by its height above and below, holds the point, strictly. *)
Definition widened_box_holds (x y : Q) (s : Shape) : Prop :=
  (bbox0 s - (bbox2 s - bbox0 s) < x
   /\ x < bbox2 s + (bbox2 s - bbox0 s)
   /\ bbox1 s - (bbox3 s - bbox1 s) < y
   /\ y < bbox3 s + (bbox3 s - bbox1 s))%Q.

(** No box, and no widened box, holds the point. *)
Definition unmatched (point : Point) (shapes : list Shape) : Prop :=
  forall s, In s shapes ->
            ~ box_holds (fst point) (snd point) s
            /\ ~ widened_box_holds (fst point) (snd point) s.

(** Several candidates are left for the point and one of them has a
    vertex: line 100 is reached. *)
Definition candidates_raise (point : Point) (shapes : list Shape) : Prop :=
  (1 < length (find_candidates (fst point) (snd point) shapes))%nat
  /\ exists m, In m (find_candidates (fst point) (snd point) shapes)
               /\ points (snd m) <> [].

(** The larger side of the bounding box of a shape: [max(bbox[2] -
    bbox[0], bbox[3] - bbox[1])]. *)
Definition span (s : Shape) : Q :=
  py_max2 (bbox2 s - bbox0 s)%Q (bbox3 s - bbox1 s)%Q.

(** ** Example inputs, continued *)

(** A chain of four flowlines that enters the network at flowline 1, whose
    [up], 9, is outside the network; comid [400 + i], hydroseq [i],
    outlet 4. *)
Definition chain4_inlet : Flowlines :=
  [(4, mkFlowline 404 4 0 3 100 100); (3, mkFlowline 403 3 4 2 80 80);
   (2, mkFlowline 402 2 3 1 60 60); (1, mkFlowline 401 1 2 9 50 50)].

(** A flowline file with the two nested shapes, whose records hold the
    comid [100 + i] and a reach code. *)
Definition nested_reader : FlowlineReader Z :=
  mkFlowlineReader Z
    [("DeletionFlag"%string, "C"%string, 1, 0); COMID_field;
     ("REACHCODE"%string, "C"%string, 14, 0)]
    nested_shapes
    (fun i => Ok [100 + Z.of_nat i; 7080106]).

(** The same file without the field of the comids. *)
Definition reader_without_comid : FlowlineReader Z :=
  mkFlowlineReader Z
    [("DeletionFlag"%string, "C"%string, 1, 0);
     ("REACHCODE"%string, "C"%string, 14, 0)]
    nested_shapes
    (fun i => Ok [7080106]).

(** Statements after [exit()] that classify the subbasin 103 as a
    headwater, as lines 545-553 do for a subbasin whose uppermost flowline
    has [up = 0]. *)
Definition classify_103 (sf : Shapefile) : io unit :=
  emit (WatershedAddHeadwater 103).

(* ===================================================================== *)
(** * Part II. Lemmas and theorems                                        *)
(* ===================================================================== *)

(** ** The run time *)

Lemma mem_In (x : Z) (l : list Z) : mem x l = true <-> In x l.
Proof.
  unfold mem. rewrite existsb_exists. split.
  - intros [y [Hy He]]. apply Z.eqb_eq in He. now subst.
  - intros H. exists x. split; [assumption | apply Z.eqb_refl].
Qed.

Lemma mem_not_In (x : Z) (l : list Z) : mem x l = false <-> ~ In x l.
Proof.
  rewrite <- mem_In. destruct (mem x l); split; congruence.
Qed.

Lemma dict_mem_get {V : Type} (k : Z) (d : dict V) :
  dict_mem k d = true <-> exists v, dict_get k d = Some v.
Proof.
  unfold dict_mem. destruct (dict_get k d) as [v|]; split.
  - intros _. now exists v.
  - reflexivity.
  - discriminate.
  - intros [v H]. discriminate.
Qed.

Lemma dict_mem_false {V : Type} (k : Z) (d : dict V) :
  dict_mem k d = false <-> dict_get k d = None.
Proof.
  unfold dict_mem. destruct (dict_get k d); split; congruence.
Qed.

Lemma dict_get_In {V : Type} (k : Z) (v : V) (d : dict V) :
  dict_get k d = Some v -> In (k, v) d.
Proof.
  induction d as [|[k' v'] d IH]; simpl; [discriminate|].
  destruct (Z.eqb_spec k' k) as [->|Hne].
  - intros H. injection H as ->. now left.
  - intros H. right. now apply IH.
Qed.

(** ** [build_watershed] *)

Section BuildWatershedFacts.

Variable Reader : String.string -> result Shapefile.

Lemma build_watershed_cases (rest : Shapefile -> io unit)
      (catchmentfile : String.string) :
  (exists sf, Reader catchmentfile = Ok sf
              /\ build_watershed Reader rest catchmentfile
                 = ([Print (fields sf)], Exited))
  \/ (exists e, Reader catchmentfile = Raise e
                /\ build_watershed Reader rest catchmentfile
                   = ([], Raised e))
  \/ (Reader catchmentfile = OutOfFuel
      /\ build_watershed Reader rest catchmentfile = ([], Diverged)).
Proof.
  unfold build_watershed.
  destruct (Reader catchmentfile) as [sf|e|]; simpl.
  - left. now exists sf.
  - right. left. now exists e.
  - right. now right.
Qed.

(** C10, as the code has it.  Whatever the statements after the [exit()] of line 419
    do, a call of [build_watershed] runs none of them: its trace and
    outcome do not depend on them, the trace holds no event but the
    printing of the field list (so no subbasin is made or classified and
    no mass linkage is built), and the call never returns normally.  When
    the [Reader] opens the catchment shapefile the call prints the field
    list and leaves through [exit()]; when the [Reader] raises, the call
    ends with that exception and prints nothing. *)
Theorem build_watershed_stops_at_exit :
  forall (rest : Shapefile -> io unit) (catchmentfile : String.string),
    (forall rest', build_watershed Reader rest catchmentfile
                   = build_watershed Reader rest' catchmentfile)
    /\ (forall u, snd (build_watershed Reader rest catchmentfile)
                  <> Returned u)
    /\ (forall e, In e (fst (build_watershed Reader rest catchmentfile))
                  -> exists fs, e = Print fs)
    /\ (forall sf, Reader catchmentfile = Ok sf ->
                   build_watershed Reader rest catchmentfile
                   = ([Print (fields sf)], Exited))
    /\ (forall e, Reader catchmentfile = Raise e ->
                  build_watershed Reader rest catchmentfile
                  = ([], Raised e)).
Proof.
  intros rest catchmentfile. unfold build_watershed.
  destruct (Reader catchmentfile) as [sf|e|]; simpl.
  - repeat split; try discriminate.
    + intros e [<-|[]]. now exists (fields sf).
    + intros sf' H. now injection H as <-.
  - repeat split; try discriminate.
    + intros e' [].
    + intros e' H. now injection H as <-.
  - repeat split; try discriminate. intros e' [].
Qed.

(** C9.  No call of [build_watershed] classifies a subbasin: whatever the
    files hold and whatever the statements after line 419 do, the trace of
    the call holds no [add_inlet] of a subbasin, no [add_inlet] and no
    [add_headwater] of the watershed.  The classification of lines
    545-553 follows the [exit()] of line 419. *)
Theorem build_watershed_classifies_nothing :
  forall (rest : Shapefile -> io unit) (catchmentfile : String.string)
         (subbasin i : Z),
    let trace := fst (build_watershed Reader rest catchmentfile) in
    ~ In (SubbasinAddInlet subbasin i) trace
    /\ ~ In (WatershedAddInlet subbasin) trace
    /\ ~ In (WatershedAddHeadwater subbasin) trace.
Proof.
  intros rest catchmentfile subbasin i trace. subst trace.
  destruct (build_watershed_cases rest catchmentfile)
    as [[sf [_ ->]]|[[e [_ ->]]|[_ ->]]]; simpl;
    repeat split; intros H; repeat destruct H as [H|H];
      try discriminate H; exact H.
Qed.

End BuildWatershedFacts.

(** The theorem at a reader that opens every file. *)
Lemma build_watershed_stops_at_exit_witness :
  build_watershed (fun _ => Ok (mkShapefile [])) classify_103
                  "catchments"%string
  = ([Print []], Exited).
Proof.
  apply (proj1 (proj2 (proj2 (proj2
           (build_watershed_stops_at_exit (fun _ => Ok (mkShapefile []))
              classify_103 "catchments"%string)))) (mkShapefile [])).
  reflexivity.
Defined.

(** C10, as the claim has it: not every call leaves through [exit()]
    after printing.  With a [Reader] that cannot open the catchment file
    the call ends with the exception of the [Reader]: nothing is printed
    and [exit()] is not reached. *)
Lemma build_watershed_reader_raises_counterexample :
  build_watershed (fun _ => Raise ShapefileException) classify_103
                  "missing"%string
  = ([], Raised ShapefileException)
  /\ snd (build_watershed (fun _ => Raise ShapefileException) classify_103
                          "missing"%string) <> Exited
  /\ ~ In (Print [])
          (fst (build_watershed (fun _ => Raise ShapefileException)
                                classify_103 "missing"%string)).
Proof.
  split; [reflexivity|]. split; [discriminate | intros []].
Qed.

(** C9 at a catchment file that opens, with a code after [exit()] that
    would classify: the call prints the fields and leaves, and the
    subbasin 103 is not classified. *)
Lemma build_watershed_classifies_nothing_witness :
  build_watershed (fun _ => Ok (mkShapefile [])) classify_103
                  "catchments"%string
  = ([Print []], Exited)
  /\ classify_103 (mkShapefile [])
     = ([WatershedAddHeadwater 103], Returned tt)
  /\ ~ In (WatershedAddHeadwater 103)
          (fst (build_watershed (fun _ => Ok (mkShapefile [])) classify_103
                                "catchments"%string)).
Proof.
  split; [reflexivity|]. split; [reflexivity|].
  exact (proj2 (proj2 (build_watershed_classifies_nothing
                         (fun _ => Ok (mkShapefile [])) classify_103
                         "catchments"%string 103 0))).
Defined.

(** ** Gage outlets *)

Section GageLoop.

Variable flowlines : Flowlines.
Variable hydroseqs : dict Z.
Variable years : option (Z * Z).

Lemma check_gage_raises (outlets gage_outlets : list Z)
      (rc : GageRecord * option Z) :
  check_gage flowlines hydroseqs years outlets gage_outlets rc
  = Raise KeyError
  \/ check_gage flowlines hydroseqs years outlets gage_outlets rc
     = Raise NameError
  \/ check_gage flowlines hydroseqs years outlets gage_outlets rc
     = Raise TypeError.
Proof.
  destruct rc as [record [c|]]; unfold check_gage, watershed_criteria;
    [|now left].
  unfold flowline_of, getitem.
  destruct (dict_get c hydroseqs) as [h|]; simpl; [|now left].
  destruct (dict_get h flowlines) as [f|]; simpl; [|now left].
  destruct (dict_mem (up f) flowlines); simpl; [right; now left|].
  right. now right.
Qed.

Lemma find_gage_outlets_returns (outlets gage_outlets result : list Z)
      (gages : list (GageRecord * option Z)) :
  find_gage_outlets flowlines hydroseqs years outlets gage_outlets gages
  = Ok result ->
  gages = [] /\ result = gage_outlets.
Proof.
  destruct gages as [|rc rest]; simpl.
  - intros H. injection H as <-. split; reflexivity.
  - destruct (check_gage_raises outlets gage_outlets rc) as [E|[E|E]];
      rewrite E; discriminate.
Qed.

End GageLoop.

(** C5.  No gage is ever made an outlet, so a gage is added only if it
    meets the criteria.  For a delineator with a gage file
    [make_subbasin_outlets] raises [NameError] at the call of
    [find_flowlines] (line 907, or line 885 when it has a dam file too),
    before the gage loop: it returns only without a gage file.  The body
    of the loop, were it reached, raises for every record, a [KeyError]
    for a gage without a flowline of the network, the [NameError] of
    [HUC8] at line 949 or the [TypeError] of [all] at line 953, so the
    loop returns only for an empty list of gages, and then it returns no
    outlet.  On the chain the gage of flowline 103 stops the call, and
    without the gage file the outlets are 105 alone. *)
Theorem gage_outlets_never_added :
  forall (fuel : nat) (a : Inputs),
    (forall g, gages a = Some g ->
               make_subbasin_outlets fuel a = Raise NameError)
    /\ (forall d, make_subbasin_outlets fuel a = Ok d -> gages a = None)
    /\ (forall (fl : Flowlines) (hs : dict Z) (yrs : option (Z * Z))
               (o gage_outlets : list Z) (rc : GageRecord * option Z),
          check_gage fl hs yrs o gage_outlets rc = Raise KeyError
          \/ check_gage fl hs yrs o gage_outlets rc = Raise NameError
          \/ check_gage fl hs yrs o gage_outlets rc = Raise TypeError)
    /\ (forall (fl : Flowlines) (hs : dict Z) (yrs : option (Z * Z))
               (o : list Z) (g : list (GageRecord * option Z))
               (gage_outlets : list Z),
          find_gage_outlets fl hs yrs o [] g = Ok gage_outlets ->
          g = [] /\ gage_outlets = [])
    /\ make_subbasin_outlets 20 gage_inputs = Raise NameError
    /\ make_subbasin_outlets 20 no_gage_inputs
       = Ok (mkDelineation [105] [(105, [105; 104; 103; 102; 101])]).
Proof.
  intros fuel a.
  assert (H1 : forall g, gages a = Some g ->
                         make_subbasin_outlets fuel a = Raise NameError).
  { intros g Hg. unfold make_subbasin_outlets. rewrite Hg.
    destruct (dams a); reflexivity. }
  split; [exact H1|]. split.
  - intros d Hd. destruct (gages a) as [g|] eqn:Hg; [|reflexivity].
    rewrite (H1 g eq_refl) in Hd. discriminate.
  - split; [intros; apply check_gage_raises|].
    split; [intros fl hs yrs o g gs H;
            exact (find_gage_outlets_returns fl hs yrs o [] gs g H)|].
    split; vm_compute; reflexivity.
Qed.

(** ** Overland flow *)

Lemma Qltb_lt (a b : Q) : Qltb a b = true <-> (a < b)%Q.
Proof.
  unfold Qltb. rewrite negb_true_iff. split.
  - intros H. apply Qnot_le_lt. intros Hle.
    apply Qle_bool_iff in Hle. congruence.
  - intros H. destruct (Qle_bool b a) eqn:E; [|reflexivity].
    apply Qle_bool_iff in E. exfalso. exact (Qlt_not_le _ _ H E).
Qed.

Lemma Qltb_ge (a b : Q) : Qltb a b = false <-> (b <= a)%Q.
Proof.
  unfold Qltb. rewrite negb_false_iff. apply Qle_bool_iff.
Qed.

Section OverlandFacts.

Variable cos : Q -> Q.
Variable sqrt : Q -> Q.
Variable pi : Q.

(** The scalar function clamps: below the tolerance it returns the
    tolerance and the minimal slope. *)
Lemma get_overland_clamps :
  forall (a b : Point3) (tolerance min_slope : Q),
    (get_distance cos sqrt pi (xy a) (xy b) < tolerance)%Q ->
    get_overland cos sqrt pi a b tolerance min_slope
    = (tolerance, min_slope).
Proof.
  intros a b tolerance min_slope H. unfold get_overland.
  replace (Qltb tolerance (get_distance cos sqrt pi (xy a) (xy b)))
    with false; [reflexivity|].
  symmetry. apply Qltb_ge. now apply Qlt_le_weak.
Qed.

(** The loop of lines 1765-1766 leaves the arrays as they are: the vector
    function returns half of every distance and every raw slope. *)
Lemma get_overland_vector_returns_raw :
  forall (catchpoints closest : list Point3) (tol min_slope : Q)
         (length slope : list Q),
    get_overland_vector cos sqrt pi catchpoints closest tol min_slope
    = Ok (length, slope) ->
    length = map (fun l => (l / 2)%Q)
                 (get_distance_vector cos sqrt pi catchpoints closest)
    /\ slope_vector (combine catchpoints closest)
                    (get_distance_vector cos sqrt pi catchpoints closest)
       = Ok slope.
Proof.
  intros catchpoints closest tol min_slope length slope.
  unfold get_overland_vector.
  destruct (slope_vector (combine catchpoints closest)
              (get_distance_vector cos sqrt pi catchpoints closest))
    as [s|e|]; simpl; try discriminate.
  intros H. injection H as <- <-. split; reflexivity.
Qed.


End OverlandFacts.


(** ** The closest flow point *)

(** C7.  The pairing does not minimize the squared distance: for a raster
    point at (1, 1) and the flow points (1, 1) and (0, 0), line 1893 takes
    the smallest dot product and pairs the raster point with (0, 0), at
    squared distance 2, although the flow point (1, 1) is at squared
    distance 0. *)
Theorem closest_flowpoint_not_nearest :
  closest_flowpoint flowpoints2 rasterpoint = Ok (mkPoint3 0 0 0)
  /\ In (mkPoint3 1 1 0) flowpoints2
  /\ (distance2 (xy rasterpoint) (xy (mkPoint3 1 1 0)) == 0)%Q
  /\ (distance2 (xy rasterpoint) (xy (mkPoint3 0 0 0)) == 2)%Q.
Proof.
  split; [reflexivity|]. split; [now left|]. split; reflexivity.
Qed.

(** ** Minima of lists of rationals *)

Lemma py_min2_cases (a b : Q) : py_min2 a b = a \/ py_min2 a b = b.
Proof. unfold py_min2. destruct (Qltb b a); [now right | now left]. Qed.

Lemma py_min2_le_l (a b : Q) : (py_min2 a b <= a)%Q.
Proof.
  unfold py_min2. destruct (Qltb b a) eqn:E.
  - apply Qltb_lt in E. now apply Qlt_le_weak.
  - apply Qle_refl.
Qed.

Lemma py_min2_le_r (a b : Q) : (py_min2 a b <= b)%Q.
Proof.
  unfold py_min2. destruct (Qltb b a) eqn:E.
  - apply Qle_refl.
  - now apply Qltb_ge in E.
Qed.

Lemma list_min_In (l : list Q) (d : Q) : In (list_min d l) (d :: l).
Proof.
  unfold list_min. revert d. induction l as [|x l IH]; intros d; simpl.
  - now left.
  - destruct (IH (py_min2 d x)) as [H|H].
    + destruct (py_min2_cases d x) as [E|E]; rewrite E in *.
      * now left.
      * right. now left.
    + right. now right.
Qed.

Lemma list_min_le_head (l : list Q) (d : Q) : (list_min d l <= d)%Q.
Proof.
  unfold list_min. revert d. induction l as [|x l IH]; intros d; simpl.
  - apply Qle_refl.
  - eapply Qle_trans; [apply IH | apply py_min2_le_l].
Qed.

Lemma list_min_le (l : list Q) (d x : Q) :
  In x (d :: l) -> (list_min d l <= x)%Q.
Proof.
  revert d. induction l as [|y l IH]; intros d [<-|H].
  - apply list_min_le_head.
  - destruct H.
  - apply list_min_le_head.
  - change (list_min d (y :: l)) with (list_min (py_min2 d y) l).
    destruct H as [<-|H].
    + eapply Qle_trans; [apply list_min_le_head | apply py_min2_le_r].
    + apply IH. now right.
Qed.

Lemma index_of_first (v : Q) (l : list Q) :
  (exists x, In x l /\ (x == v)%Q) ->
  exists j x, index_of v l = Some j /\ nth_error l j = Some x /\ (x == v)%Q
              /\ forall j' x', (j' < j)%nat -> nth_error l j' = Some x' ->
                               ~ (x' == v)%Q.
Proof.
  induction l as [|y l IH]; intros [x [Hin Hx]]; [destruct Hin|].
  simpl. destruct (Qeq_bool y v) eqn:E.
  - exists O, y. repeat split; try reflexivity.
    + now apply Qeq_bool_eq.
    + intros j' x' Hlt. lia.
  - assert (Hy : ~ (y == v)%Q).
    { intros H. apply Qeq_eq_bool in H. congruence. }
    destruct Hin as [->|Hin]; [contradiction|].
    destruct IH as [j [x0 [Hj [Hn [Hx0 Hfirst]]]]]; [now exists x|].
    exists (S j), x0. rewrite Hj. repeat split; try assumption.
    intros [|j'] x' Hlt Hn'; simpl in Hn'.
    + injection Hn' as <-. assumption.
    + apply (Hfirst j'); [lia | assumption].
Qed.

Lemma index_of_min_spec (l : list Q) :
  l <> [] ->
  exists j v, index_of_min l = Some j /\ nth_error l j = Some v
              /\ (forall x, In x l -> (v <= x)%Q)
              /\ (forall j' x, (j' < j)%nat -> nth_error l j' = Some x ->
                               (v < x)%Q).
Proof.
  destruct l as [|d l]; [congruence|]. intros _. unfold index_of_min.
  destruct (index_of_first (list_min d l) (d :: l))
    as [j [v [Hj [Hn [Hv Hfirst]]]]].
  { exists (list_min d l). split; [apply list_min_In | apply Qeq_refl]. }
  exists j, v. repeat split; try assumption.
  - intros x Hx. rewrite Hv. now apply list_min_le.
  - intros j' x Hlt Hn'.
    pose proof (list_min_le l d x (nth_error_In _ _ Hn')) as H.
    apply Qle_lt_or_eq in H.
    rewrite Hv. destruct H as [H|H]; [assumption|].
    exfalso. apply (Hfirst j' x Hlt Hn'). now symmetry.
Qed.

(** ** [closest_index] *)

Lemma find_matches_spec (test : Shape -> bool) (shapes : list Shape) :
  forall (start i : nat) (s : Shape),
    In (i, s) (find_matches test start shapes)
    <-> (start <= i)%nat /\ nth_error shapes (i - start) = Some s
        /\ test s = true.
Proof.
  induction shapes as [|shape rest IH]; intros start i s; simpl.
  - split; [intros [] | intros [_ [H _]]].
    destruct (i - start)%nat; discriminate.
  - assert (Htail : In (i, s) (find_matches test (S start) rest)
                    <-> (start < i)%nat
                        /\ nth_error (shape :: rest) (i - start) = Some s
                        /\ test s = true).
    { rewrite IH. split.
      - intros [Hle [Hn Ht]]. repeat split; try assumption.
        replace (i - start)%nat with (S (i - S start)) by lia. exact Hn.
      - intros [Hlt [Hn Ht]]. repeat split; try assumption.
        replace (i - start)%nat with (S (i - S start)) in Hn by lia.
        exact Hn. }
    assert (Hhead : forall b, test shape = b ->
              ((start, shape) = (i, s) /\ b = true
               <-> i = start /\ nth_error (shape :: rest) (i - start) = Some s
                   /\ test s = true)).
    { intros b Hb. split.
      - intros [E Ht]. injection E as <- <-.
        rewrite Nat.sub_diag. repeat split. congruence.
      - intros [-> [Hn Ht]]. rewrite Nat.sub_diag in Hn.
        injection Hn as <-. split; congruence. }
    destruct (test shape) eqn:Et.
    + simpl. rewrite Htail. specialize (Hhead true eq_refl). split.
      * intros [E|[Hlt H]].
        -- destruct (proj1 Hhead (conj E eq_refl)) as [-> H].
           split; [lia | exact H].
        -- split; [lia | exact H].
      * intros [Hle H]. destruct (Nat.eq_dec i start) as [E|Hne].
        -- left. apply Hhead. split; assumption.
        -- right. split; [lia | exact H].
    + rewrite Htail. split.
      * intros [Hlt H]. split; [lia | exact H].
      * intros [Hle H]. destruct (Nat.eq_dec i start) as [E|Hne].
        -- destruct (proj2 (Hhead false eq_refl) (conj E H)). discriminate.
        -- split; [lia | exact H].
Qed.

Lemma find_matches_ge (test : Shape -> bool) (shapes : list Shape) :
  forall (start : nat) (m : nat * Shape),
    In m (find_matches test start shapes) -> (start <= fst m)%nat.
Proof.
  intros start [i s] H. apply find_matches_spec in H. simpl. lia.
Qed.

Lemma find_matches_mono (test : Shape -> bool) (shapes : list Shape) :
  forall (start j j' : nat) (m m' : nat * Shape),
    (j <= j')%nat ->
    nth_error (find_matches test start shapes) j = Some m ->
    nth_error (find_matches test start shapes) j' = Some m' ->
    (fst m <= fst m')%nat.
Proof.
  induction shapes as [|shape rest IH]; intros start j j' m m' Hle Hj Hj';
    simpl in *.
  - destruct j; discriminate.
  - destruct (test shape).
    + destruct j as [|j], j' as [|j']; simpl in *.
      * injection Hj as <-. injection Hj' as <-. lia.
      * injection Hj as <-. apply nth_error_In in Hj'.
        apply find_matches_ge in Hj'. simpl. lia.
      * lia.
      * apply (IH (S start) j j'); [lia | assumption | assumption].
    + apply (IH (S start) j j'); assumption.
Qed.

Lemma find_candidates_mono (x y : Q) (shapes : list Shape) :
  forall (j j' : nat) (m m' : nat * Shape),
    (j <= j')%nat ->
    nth_error (find_candidates x y shapes) j = Some m ->
    nth_error (find_candidates x y shapes) j' = Some m' ->
    (fst m <= fst m')%nat.
Proof.
  unfold find_candidates.
  destruct (find_matches (bbox_contains x y) 0 shapes) eqn:E.
  - apply find_matches_mono.
  - rewrite <- E. apply find_matches_mono.
Qed.

Lemma find_candidates_spec (x y : Q) (shapes : list Shape) :
  forall (i : nat) (s : Shape),
    In (i, s) (find_candidates x y shapes)
    <-> nth_error shapes i = Some s
        /\ (if existsb (bbox_contains x y) shapes
            then bbox_contains x y s
            else expanded_bbox_contains x y s) = true.
Proof.
  intros i s. unfold find_candidates.
  destruct (existsb (bbox_contains x y) shapes) eqn:Ex.
  - apply existsb_exists in Ex as [s0 [Hin Hs0]].
    apply In_nth_error in Hin as [i0 Hi0].
    assert (H0 : In (i0, s0) (find_matches (bbox_contains x y) 0 shapes)).
    { apply find_matches_spec. rewrite Nat.sub_0_r.
      repeat split; [lia | assumption | assumption]. }
    destruct (find_matches (bbox_contains x y) 0 shapes) eqn:E;
      [destruct H0|].
    rewrite <- E. rewrite find_matches_spec, Nat.sub_0_r.
    split; [intros [_ H]; exact H | intros H; split; [lia | exact H]].
  - destruct (find_matches (bbox_contains x y) 0 shapes) as [|[i0 s0] l] eqn:E.
    + rewrite find_matches_spec, Nat.sub_0_r.
      split; [intros [_ H]; exact H | intros H; split; [lia | exact H]].
    + exfalso.
      assert (H0 : In (i0, s0) (find_matches (bbox_contains x y) 0 shapes))
        by (rewrite E; now left).
      apply find_matches_spec in H0 as [_ [Hn Ht]].
      apply nth_error_In in Hn.
      assert (Ht' : existsb (bbox_contains x y) shapes = true)
        by (apply existsb_exists; now exists s0).
      congruence.
Qed.

Lemma find_candidates_nil (x y : Q) (shapes : list Shape) :
  find_candidates x y shapes = []
  <-> forall s, In s shapes ->
                bbox_contains x y s = false
                /\ expanded_bbox_contains x y s = false.
Proof.
  split.
  - intros E s Hin. apply In_nth_error in Hin as [i Hi].
    pose proof (find_candidates_spec x y shapes i s) as Hs.
    rewrite E in Hs.
    destruct (existsb (bbox_contains x y) shapes) eqn:Ex.
    + exfalso. apply existsb_exists in Ex as [s0 [Hin0 Hs0]].
      apply In_nth_error in Hin0 as [i0 Hi0].
      pose proof (find_candidates_spec x y shapes i0 s0) as H0.
      rewrite E in H0.
      assert (Ex : existsb (bbox_contains x y) shapes = true)
        by (apply existsb_exists; exists s0; split;
            [eapply nth_error_In; exact Hi0 | exact Hs0]).
      rewrite Ex in H0. apply H0. split; assumption.
    + split.
      * destruct (bbox_contains x y s) eqn:Eb; [|reflexivity].
        assert (Ex' : existsb (bbox_contains x y) shapes = true)
          by (apply existsb_exists; exists s; split;
              [eapply nth_error_In; exact Hi | exact Eb]).
        congruence.
      * destruct (expanded_bbox_contains x y s) eqn:Ee; [|reflexivity].
        exfalso. apply Hs. split; [assumption | reflexivity].
  - intros H. destruct (find_candidates x y shapes) as [|[i s] l] eqn:E;
      [reflexivity|]. exfalso.
    assert (Hin : In (i, s) (find_candidates x y shapes))
      by (rewrite E; now left).
    apply find_candidates_spec in Hin as [Hn Ht].
    destruct (H s (nth_error_In _ _ Hn)) as [Hb He].
    rewrite Hb, He in Ht. destruct (existsb _ _); discriminate.
Qed.

Lemma bbox_contains_holds (x y : Q) (s : Shape) :
  bbox_contains x y s = true <-> box_holds x y s.
Proof.
  unfold bbox_contains, inside, box_holds.
  rewrite !andb_true_iff, !Qltb_lt. tauto.
Qed.

Lemma expanded_bbox_contains_holds (x y : Q) (s : Shape) :
  expanded_bbox_contains x y s = true <-> widened_box_holds x y s.
Proof.
  unfold expanded_bbox_contains, inside, widened_box_holds.
  rewrite !andb_true_iff, !Qltb_lt. tauto.
Qed.

Lemma existsb_bbox_contains (x y : Q) (shapes : list Shape) :
  existsb (bbox_contains x y) shapes = true
  <-> exists s, In s shapes /\ box_holds x y s.
Proof.
  rewrite existsb_exists. split; intros [s [Hin H]]; exists s;
    (split; [exact Hin | now apply bbox_contains_holds]).
Qed.

Lemma find_candidates_holds (x y : Q) (shapes : list Shape) (i : nat)
      (s : Shape) :
  In (i, s) (find_candidates x y shapes)
  <-> nth_error shapes i = Some s
      /\ (((exists s', In s' shapes /\ box_holds x y s')
           /\ box_holds x y s)
          \/ (~ (exists s', In s' shapes /\ box_holds x y s')
              /\ widened_box_holds x y s)).
Proof.
  rewrite find_candidates_spec.
  rewrite <- existsb_bbox_contains, <- bbox_contains_holds,
          <- expanded_bbox_contains_holds.
  destruct (existsb (bbox_contains x y) shapes); split.
  - intros [Hn Hb]. split; [exact Hn | left; split; [reflexivity|exact Hb]].
  - intros [Hn [[_ Hb]|[Hf _]]]; [now split | congruence].
  - intros [Hn Hb]. split; [exact Hn|]. right. split; [discriminate|].
    exact Hb.
  - intros [Hn [[Hf _]|[_ Hb]]]; [discriminate | now split].
Qed.

Lemma find_candidates_unmatched (point : Point) (shapes : list Shape) :
  find_candidates (fst point) (snd point) shapes = []
  <-> unmatched point shapes.
Proof.
  rewrite find_candidates_nil. unfold unmatched.
  split; intros H s Hs; destruct (H s Hs) as [H1 H2].
  - split; intros Hh.
    + apply bbox_contains_holds in Hh. congruence.
    + apply expanded_bbox_contains_holds in Hh. congruence.
  - split.
    + destruct (bbox_contains (fst point) (snd point) s) eqn:E;
        [|reflexivity].
      exfalso. apply H1. now apply bbox_contains_holds.
    + destruct (expanded_bbox_contains (fst point) (snd point) s) eqn:E;
        [|reflexivity].
      exfalso. apply H2. now apply expanded_bbox_contains_holds.
Qed.

Lemma match_distances_vertex (matches : list (nat * Shape)) :
  (exists m, In m matches /\ points (snd m) <> []) ->
  mapM (fun m => match_distance (snd m)) matches = Raise NameError.
Proof.
  induction matches as [|m0 rest IH]; intros [m [Hin Hp]];
    [destruct Hin|].
  simpl. unfold match_distance at 1.
  destruct (points (snd m0)) as [|p ps] eqn:E0; [|reflexivity].
  destruct Hin as [->|Hin]; [congruence|].
  simpl. rewrite IH; [reflexivity|]. now exists m.
Qed.

Lemma match_distances_no_vertex (matches : list (nat * Shape)) :
  (forall m, In m matches -> points (snd m) = []) ->
  mapM (fun m => match_distance (snd m)) matches
  = Ok (map (fun m => span (snd m)) matches).
Proof.
  induction matches as [|m0 rest IH]; intros H; [reflexivity|].
  simpl. unfold match_distance at 1.
  rewrite (H m0 (or_introl eq_refl)). simpl.
  rewrite IH; [reflexivity|]. intros m Hm. apply H. now right.
Qed.

Lemma span_spec (s : Shape) :
  ((bbox2 s - bbox0 s <= span s)%Q /\ (bbox3 s - bbox1 s <= span s)%Q)
  /\ (span s = (bbox2 s - bbox0 s)%Q \/ span s = (bbox3 s - bbox1 s)%Q).
Proof.
  unfold span, py_max2.
  destruct (Qltb (bbox2 s - bbox0 s) (bbox3 s - bbox1 s)) eqn:E.
  - apply Qltb_lt in E. split; [|now right].
    split; [now apply Qlt_le_weak | apply Qle_refl].
  - apply Qltb_ge in E. split; [|now left].
    split; [apply Qle_refl | exact E].
Qed.

(** C8.  What [closest_index] does with the candidates, the shapes whose
    bounding box holds the point strictly or, when no box does, whose
    box widened by its own width and height on each side does.  Without
    a candidate it returns [None], and with one candidate its index.
    With several candidates of which one has a vertex it does not choose:
    the call [get_distance(p, [x, y])] of line 100 raises [NameError].
    Only when no candidate has a vertex does it return the candidate of
    least span, the larger side of its box, the first among equals. *)
Theorem closest_index_several_raise :
  forall (point : Point) (shapes : list Shape),
    let x := fst point in
    let y := snd point in
    let matches := find_candidates x y shapes in
    (forall i s,
        In (i, s) matches
        <-> nth_error shapes i = Some s
            /\ (((exists s', In s' shapes /\ box_holds x y s')
                 /\ box_holds x y s)
                \/ (~ (exists s', In s' shapes /\ box_holds x y s')
                    /\ widened_box_holds x y s)))
    /\ (matches = [] <-> unmatched point shapes)
    /\ (matches = [] -> closest_index point shapes = Ok None)
    /\ (forall m, matches = [m] ->
                  closest_index point shapes = Ok (Some (fst m)))
    /\ ((1 < length matches)%nat ->
        (exists m, In m matches /\ points (snd m) <> []) ->
        closest_index point shapes = Raise NameError)
    /\ ((1 < length matches)%nat ->
        (forall m, In m matches -> points (snd m) = []) ->
        exists m,
          In m matches
          /\ closest_index point shapes = Ok (Some (fst m))
          /\ (forall m', In m' matches ->
                         (span (snd m) <= span (snd m'))%Q)
          /\ (forall m', In m' matches ->
                         (span (snd m') == span (snd m))%Q ->
                         (fst m <= fst m')%nat))
    /\ (forall s,
          ((bbox2 s - bbox0 s <= span s)%Q
           /\ (bbox3 s - bbox1 s <= span s)%Q)
          /\ (span s = (bbox2 s - bbox0 s)%Q
              \/ span s = (bbox3 s - bbox1 s)%Q)).
Proof.
  intros point shapes x y matches.
  split; [intros i s; apply find_candidates_holds|].
  split; [apply find_candidates_unmatched|].
  unfold closest_index. fold x y matches.
  split; [intros ->; reflexivity|].
  split; [intros m ->; reflexivity|].
  split; [|split; [|exact span_spec]].
  - intros Hlen Hv. unfold resolve_matches.
    apply Nat.ltb_lt in Hlen. rewrite Hlen.
    now rewrite (match_distances_vertex matches Hv).
  - intros Hlen Hnv. unfold resolve_matches.
    pose proof Hlen as Hlt. apply Nat.ltb_lt in Hlen. rewrite Hlen.
    rewrite (match_distances_no_vertex matches Hnv). cbn [bind].
    destruct (index_of_min_spec (map (fun m => span (snd m)) matches))
      as [j [v [Hj [Hn [Hle Hfirst]]]]].
    { destruct matches; [simpl in Hlt; lia | discriminate]. }
    rewrite nth_error_map in Hn.
    destruct (nth_error matches j) as [m|] eqn:Hm; [|discriminate].
    injection Hn as Hv. rewrite Hj. exists m.
    split; [eapply nth_error_In; exact Hm|].
    split; [now rewrite Hm|]. split.
    + intros m' Hin. rewrite Hv. apply Hle.
      apply (in_map (fun m => span (snd m))). exact Hin.
    + intros m' Hin Heq. apply In_nth_error in Hin as [j' Hj'].
      destruct (Nat.lt_ge_cases j' j) as [Hlt'|Hge].
      * exfalso.
        assert (Hs : (v < span (snd m'))%Q).
        { apply (Hfirst j'); [exact Hlt'|].
          rewrite nth_error_map, Hj'. reflexivity. }
        rewrite <- Hv, Heq in Hs. exact (Qlt_irrefl _ Hs).
      * exact (find_candidates_mono x y shapes j j' m m' Hge Hm Hj').
Qed.

(** The point (2, 2) and the two nested boxes, each of a flowline with two
    vertices: both boxes hold the point and the call raises. *)
Lemma closest_index_several_raise_witness :
  closest_index (2, 2)%Q nested_shapes = Raise NameError.
Proof.
  apply (proj1 (proj2 (proj2 (proj2 (proj2
           (closest_index_several_raise (2, 2)%Q nested_shapes)))))).
  - simpl. lia.
  - exists (0%nat, mkShape 0 0 4 4 [(0, 0); (4, 4)]%Q).
    split; [now left | discriminate].
Defined.

(** ** Dictionaries *)

Lemma dict_get_None {V : Type} (k : Z) (d : dict V) :
  dict_get k d = None <-> ~ In k (keys d).
Proof.
  induction d as [|[k' v'] d IH]; simpl.
  - split; [intros _ [] | reflexivity].
  - destruct (Z.eqb_spec k' k) as [->|Hne].
    + split; [discriminate | intros H; exfalso; apply H; now left].
    + rewrite IH. split; [intros H [E|Hin]; [congruence | auto] | tauto].
Qed.

Lemma In_dict_get {V : Type} (k : Z) (v : V) (d : dict V) :
  NoDup (keys d) -> In (k, v) d -> dict_get k d = Some v.
Proof.
  induction d as [|[k' v'] d IH]; simpl; [intros _ []|].
  intros Hnd [E|Hin].
  - injection E as -> ->. now rewrite Z.eqb_refl.
  - inversion Hnd as [|? ? Hnotin Hnd']; subst.
    destruct (Z.eqb_spec k' k) as [->|Hne].
    + exfalso. apply Hnotin. change k with (fst (k, v)). now apply in_map.
    + now apply IH.
Qed.

Lemma dict_get_set_eq {V : Type} (k : Z) (v : V) (d : dict V) :
  dict_get k (dict_set k v d) = Some v.
Proof.
  induction d as [|[k' v'] d IH]; simpl.
  - now rewrite Z.eqb_refl.
  - destruct (Z.eqb_spec k' k) as [->|Hne]; simpl.
    + now rewrite Z.eqb_refl.
    + destruct (Z.eqb_spec k' k); [contradiction | exact IH].
Qed.

Lemma dict_get_set_neq {V : Type} (k k0 : Z) (v : V) (d : dict V) :
  k0 <> k -> dict_get k0 (dict_set k v d) = dict_get k0 d.
Proof.
  intros Hne. induction d as [|[k' v'] d IH]; simpl.
  - destruct (Z.eqb_spec k k0); [congruence | reflexivity].
  - destruct (Z.eqb_spec k' k) as [->|Hne']; simpl.
    + destruct (Z.eqb_spec k k0); [congruence | reflexivity].
    + destruct (Z.eqb_spec k' k0); [reflexivity | exact IH].
Qed.

Lemma keys_dict_set {V : Type} (k : Z) (v : V) (d : dict V) :
  keys (dict_set k v d)
  = if dict_mem k d then keys d else keys d ++ [k].
Proof.
  unfold dict_mem. induction d as [|[k' v'] d IH]; simpl; [reflexivity|].
  destruct (Z.eqb_spec k' k) as [->|Hne]; simpl; [reflexivity|].
  rewrite IH. destruct (dict_get k d); reflexivity.
Qed.

Lemma NoDup_keys_dict_set {V : Type} (k : Z) (v : V) (d : dict V) :
  NoDup (keys d) -> NoDup (keys (dict_set k v d)).
Proof.
  intros H. rewrite keys_dict_set. destruct (dict_mem k d) eqn:E; [exact H|].
  apply dict_mem_false, dict_get_None in E.
  apply NoDup_app; [exact H | constructor; [intros [] | constructor] |].
  intros x Hx [<-|[]]. contradiction.
Qed.

(** ** [make_hydroseqs] *)

Lemma make_hydroseqs_acc (flowlines : Flowlines) :
  forall (acc : dict Z),
    NoDup (keys acc) ->
    let hs := fold_left (fun h kv => dict_set (comid (snd kv)) (fst kv) h)
                        flowlines acc in
    NoDup (keys hs)
    /\ (forall c k, dict_get c hs = Some k ->
          (exists f, In (k, f) flowlines /\ comid f = c)
          \/ dict_get c acc = Some k)
    /\ (forall k f, In (k, f) flowlines -> dict_mem (comid f) hs = true)
    /\ (forall c, dict_mem c acc = true -> dict_mem c hs = true).
Proof.
  induction flowlines as [|[k0 f0] fl IH]; intros acc Hnd; simpl.
  - repeat split; [exact Hnd | intros c k H; now right | intros k f [] | auto].
  - destruct (IH (dict_set (comid f0) k0 acc) (NoDup_keys_dict_set _ _ _ Hnd))
      as [H1 [H2 [H3 H4]]].
    repeat split.
    + exact H1.
    + intros c k H. destruct (H2 c k H) as [[f [Hin Hc]]|Hacc].
      * left. exists f. split; [now right | exact Hc].
      * destruct (Z.eq_dec c (comid f0)) as [->|Hne].
        -- rewrite dict_get_set_eq in Hacc. injection Hacc as <-.
           left. exists f0. split; [now left | reflexivity].
        -- rewrite dict_get_set_neq in Hacc by exact Hne. now right.
    + intros k f [E|Hin].
      * injection E as <- <-. apply H4. apply dict_mem_get.
        exists k0. apply dict_get_set_eq.
      * now apply (H3 k).
    + intros c Hc. apply H4. apply dict_mem_get.
      destruct (Z.eq_dec c (comid f0)) as [->|Hne].
      * exists k0. apply dict_get_set_eq.
      * rewrite dict_get_set_neq by exact Hne. now apply dict_mem_get.
Qed.

Lemma make_hydroseqs_NoDup (flowlines : Flowlines) :
  NoDup (keys (make_hydroseqs flowlines)).
Proof.
  apply (make_hydroseqs_acc flowlines []). constructor.
Qed.

Lemma make_hydroseqs_sound (flowlines : Flowlines) (c k : Z) :
  NoDup (keys flowlines) ->
  dict_get c (make_hydroseqs flowlines) = Some k ->
  exists f, dict_get k flowlines = Some f /\ comid f = c.
Proof.
  intros Hnd H.
  destruct (make_hydroseqs_acc flowlines [] (NoDup_nil _)) as [_ [H2 _]].
  destruct (H2 c k H) as [[f [Hin Hc]]|Hacc]; [|discriminate].
  exists f. split; [now apply In_dict_get | exact Hc].
Qed.

Lemma make_hydroseqs_In (flowlines : Flowlines) (k : Z) (f : Flowline) :
  In (k, f) flowlines ->
  dict_mem (comid f) (make_hydroseqs flowlines) = true.
Proof.
  destruct (make_hydroseqs_acc flowlines [] (NoDup_nil _)) as [_ [_ [H3 _]]].
  apply H3.
Qed.

Lemma make_hydroseqs_complete (flowlines : Flowlines) (k : Z) (f : Flowline) :
  dict_get k flowlines = Some f ->
  dict_mem (comid f) (make_hydroseqs flowlines) = true.
Proof.
  intros H. apply (make_hydroseqs_In flowlines k). now apply dict_get_In.
Qed.

Lemma NoDup_comids_key (flowlines : Flowlines) (k k' : Z) (f f' : Flowline) :
  NoDup (comids flowlines) ->
  In (k, f) flowlines -> In (k', f') flowlines -> comid f = comid f' ->
  k = k'.
Proof.
  unfold comids, values.
  induction flowlines as [|[k0 f0] fl IH]; simpl; [intros _ []|].
  intros Hnd H1 H2 Hc. inversion Hnd as [|? ? Hnotin Hnd']; subst.
  assert (Hin : forall k1 f1, In (k1, f1) fl ->
                              In (comid f1) (map comid (map snd fl))).
  { intros k1 f1 H. apply in_map. change f1 with (snd (k1, f1)).
    now apply in_map. }
  destruct H1 as [E1|H1], H2 as [E2|H2].
  - congruence.
  - injection E1 as <- <-. exfalso. apply Hnotin. rewrite Hc.
    now apply (Hin k').
  - injection E2 as <- <-. exfalso. apply Hnotin. rewrite <- Hc.
    now apply (Hin k).
  - now apply IH.
Qed.

Lemma make_hydroseqs_key (flowlines : Flowlines) (k : Z) (f : Flowline) :
  NoDup (keys flowlines) -> NoDup (comids flowlines) ->
  dict_get k flowlines = Some f ->
  dict_get (comid f) (make_hydroseqs flowlines) = Some k.
Proof.
  intros Hk Hc H.
  pose proof (make_hydroseqs_complete _ _ _ H) as Hm.
  apply dict_mem_get in Hm as [k' Hk'].
  destruct (make_hydroseqs_sound _ _ _ Hk Hk') as [f' [Hf' Hcf]].
  rewrite Hk'. f_equal.
  apply (NoDup_comids_key flowlines k' k f' f Hc); try assumption;
    now apply dict_get_In.
Qed.


(** ** The outlets only grow *)

Lemma dict_get_comids (flowlines : Flowlines) (k : Z) (f : Flowline) :
  dict_get k flowlines = Some f -> In (comid f) (comids flowlines).
Proof.
  intros H. apply dict_get_In in H. unfold comids, values.
  apply in_map. change f with (snd (k, f)). now apply in_map.
Qed.

Lemma extends_refl (flowlines : Flowlines) (o : list Z) :
  extends flowlines o o.
Proof.
  exists []. rewrite app_nil_r.
  repeat split; [constructor | destruct H | destruct H].
Qed.

Lemma extends_trans (flowlines : Flowlines) (o1 o2 o3 : list Z) :
  extends flowlines o1 o2 -> extends flowlines o2 o3 ->
  extends flowlines o1 o3.
Proof.
  intros [e1 [-> [N1 H1]]] [e2 [-> [N2 H2]]].
  exists (e1 ++ e2). rewrite app_assoc. split; [reflexivity|]. split.
  - apply NoDup_app; try assumption.
    intros x Hx1 Hx2. apply (H2 x Hx2). apply in_or_app. now right.
  - intros x Hx. apply in_app_or in Hx as [Hx|Hx].
    + now apply H1.
    + destruct (H2 x Hx) as [Hn Hc]. split; [|exact Hc].
      intros Hin. apply Hn. apply in_or_app. now left.
Qed.

Lemma extends_append_new (flowlines : Flowlines) (o : list Z) (x : Z) :
  In x (comids flowlines) -> extends flowlines o (append_new o x).
Proof.
  intros Hx. unfold append_new. destruct (mem x o) eqn:E.
  - apply extends_refl.
  - apply mem_not_In in E. exists [x]. split; [reflexivity|]. split.
    + constructor; [intros [] | constructor].
    + intros y [<-|[]]. now split.
Qed.

Lemma extends_length (flowlines : Flowlines) (o o' : list Z) :
  extends flowlines o o' ->
  (length o <= length o' <= length o + length flowlines)%nat.
Proof.
  intros [ext [-> [Hnd Hin]]]. rewrite length_app.
  assert (length ext <= length (comids flowlines))%nat.
  { apply NoDup_incl_length; [exact Hnd|]. intros x Hx. now apply Hin. }
  unfold comids, values in H. rewrite !length_map in H. lia.
Qed.

Lemma extends_same_length (flowlines : Flowlines) (o o' : list Z) :
  extends flowlines o o' -> length o' = length o -> o' = o.
Proof.
  intros [ext [-> _]] H. rewrite length_app in H.
  destruct ext; [now rewrite app_nil_r | simpl in H; lia].
Qed.

Lemma extends_NoDup (flowlines : Flowlines) (o o' : list Z) :
  extends flowlines o o' -> NoDup o -> incl o (comids flowlines) ->
  NoDup o' /\ incl o' (comids flowlines)
  /\ (length o' <= length flowlines)%nat.
Proof.
  intros [ext [-> [Hnd Hin]]] Hno Hincl.
  assert (Hnd' : NoDup (o ++ ext)).
  { apply NoDup_app; try assumption. intros x Hx1 Hx2. now apply (Hin x Hx2). }
  assert (Hincl' : incl (o ++ ext) (comids flowlines)).
  { intros x Hx. apply in_app_or in Hx as [Hx|Hx];
      [now apply Hincl | now apply Hin]. }
  repeat split; try assumption.
  pose proof (NoDup_incl_length Hnd' Hincl') as H.
  unfold comids, values in H. rewrite !length_map in H. exact H.
Qed.

Section SubdivisionFacts.

Variable fuel : nat.
Variable flowlines : Flowlines.
Variable hydroseqs : dict Z.
Variable inlets : list Z.
Variable drainmax : Z.

Lemma add_tributaries_extends (tributaries : list Flowline) (o : list Z) :
  incl tributaries (values flowlines) ->
  extends flowlines o (add_tributaries tributaries o).
Proof.
  unfold add_tributaries. revert o.
  induction tributaries as [|t ts IH]; intros o Hincl; simpl.
  - apply extends_refl.
  - eapply extends_trans.
    + apply extends_append_new. unfold comids. apply in_map.
      apply Hincl. now left.
    + apply IH. intros x Hx. apply Hincl. now right.
Qed.

Lemma walk_extends (n : nat) (boundaries : list Z) (drain_area : Z) :
  forall (flowline : Flowline) (o o' : list Z),
    walk flowlines drainmax n boundaries drain_area flowline o = Ok o' ->
    extends flowlines o o'.
Proof.
  induction n as [|n IH]; intros flowline o o'; simpl; [discriminate|].
  destruct (mem (up flowline) boundaries).
  - intros H. injection H as <-. apply extends_refl.
  - unfold getitem.
    destruct (dict_get (up flowline) flowlines) as [major|]; simpl;
      [|discriminate].
    destruct (existsb _ _ || _).
    + intros H. injection H as <-. apply add_tributaries_extends.
      unfold tributaries_of. intros x Hx. apply filter_In in Hx. tauto.
    + destruct (drain_area - divarea flowline >? drainmax).
      * destruct (dict_get (down flowline) flowlines) as [d|] eqn:Ed; simpl;
          [|discriminate].
        intros H. injection H as <-. apply extends_append_new.
        eapply dict_get_comids; exact Ed.
      * apply IH.
Qed.

Lemma check_outlet_extends (outlet : Z) (o o' : list Z) :
  check_outlet fuel flowlines hydroseqs inlets drainmax outlet o = Ok o' ->
  extends flowlines o o'.
Proof.
  unfold check_outlet.
  destruct (flowline_of flowlines hydroseqs outlet) as [f|e|]; simpl;
    try discriminate.
  destruct (mapM _ _) as [bs|e|]; simpl; try discriminate.
  apply walk_extends.
Qed.

Lemma check_outlets_extends (n : nat) :
  forall (i : nat) (o o' : list Z),
    check_outlets fuel flowlines hydroseqs inlets drainmax n i o = Ok o' ->
    extends flowlines o o'.
Proof.
  induction n as [|n IH]; intros i o o'; simpl; [discriminate|].
  destruct (nth_error o i) as [outlet|].
  - destruct (check_outlet fuel flowlines hydroseqs inlets drainmax outlet o)
      as [o1|e|] eqn:E; simpl; try discriminate.
    intros H. eapply extends_trans.
    + eapply check_outlet_extends; exact E.
    + eapply IH; exact H.
  - intros H. injection H as <-. apply extends_refl.
Qed.

Lemma pass_extends (o o' : list Z) :
  pass fuel flowlines hydroseqs inlets drainmax o = Ok o' ->
  extends flowlines o o'.
Proof. apply check_outlets_extends. Qed.

Lemma pass_grows_or_same (o o' : list Z) :
  pass fuel flowlines hydroseqs inlets drainmax o = Ok o' ->
  (length o < length o')%nat \/ o' = o.
Proof.
  intros H. apply pass_extends in H.
  pose proof (extends_length _ _ _ H) as Hl.
  destruct (Nat.eq_dec (length o') (length o)) as [E|E].
  - right. eapply extends_same_length; eassumption.
  - left. lia.
Qed.

(** The loop returns a list on which a further pass changes nothing, after
    passes that each added an outlet. *)
Lemma subdivide_loop_grows (k : nat) :
  forall (n : Z) (o o' : list Z),
    subdivide_loop fuel flowlines hydroseqs inlets drainmax k n o = Ok o' ->
    (Z.of_nat (length o) = n /\ o' = o)
    \/ exists m, grows fuel flowlines hydroseqs inlets drainmax m o o'
                 /\ pass fuel flowlines hydroseqs inlets drainmax o' = Ok o'.
Proof.
  induction k as [|k IH]; intros n o o'; simpl; [discriminate|].
  destruct (Z.eqb_spec (Z.of_nat (length o)) n) as [E|E].
  - intros H. injection H as <-. now left.
  - destruct (pass fuel flowlines hydroseqs inlets drainmax o) as [o1|e|]
      eqn:Ep;
      simpl; try discriminate.
    intros H. right. destruct (IH _ _ _ H) as [[Hlen ->]|[m [Hg Hp]]].
    + apply Nat2Z.inj in Hlen.
      assert (o1 = o).
      { eapply extends_same_length;
          [eapply pass_extends; exact Ep | exact Hlen]. }
      subst o1. exists O. split; [constructor | exact Ep].
    + destruct (pass_grows_or_same _ _ Ep) as [Hlt| ->].
      * exists (S m). split; [|exact Hp]. econstructor; eassumption.
      * exists m. split; assumption.
Qed.

Lemma grows_extends (m : nat) (o o' : list Z) :
  grows fuel flowlines hydroseqs inlets drainmax m o o' ->
  extends flowlines o o'.
Proof.
  induction 1 as [o|m o o1 o' Hp Hlt Hg IH].
  - apply extends_refl.
  - eapply extends_trans; [eapply pass_extends; exact Hp | exact IH].
Qed.

Lemma subdivide_fixed_point (o o' : list Z) :
  subdivide fuel flowlines hydroseqs inlets drainmax o = Ok o' ->
  exists m, grows fuel flowlines hydroseqs inlets drainmax m o o'
            /\ pass fuel flowlines hydroseqs inlets drainmax o' = Ok o'.
Proof.
  unfold subdivide. intros H.
  destruct (subdivide_loop_grows _ _ _ _ H) as [[Hlen _]|Hm]; [lia | exact Hm].
Qed.


Lemma grows_length (m : nat) (o o' : list Z) :
  grows fuel flowlines hydroseqs inlets drainmax m o o' ->
  (length o + m <= length o')%nat.
Proof.
  induction 1 as [o|m o o1 o' Hp Hlt Hg IH]; lia.
Qed.

(** C3.  Running the subdivision loop again, on the same network with the
    same [drainmax], from the outlets that a first run returned, returns
    these same outlets: the second run adds none. *)
Theorem subdivide_idempotent :
  forall (o o' : list Z),
    subdivide fuel flowlines hydroseqs inlets drainmax o = Ok o' ->
    subdivide fuel flowlines hydroseqs inlets drainmax o' = Ok o'.
Proof.
  intros o o' H.
  destruct (subdivide_fixed_point _ _ H) as [m [_ Hp]].
  unfold subdivide in *.
  destruct fuel as [|[|k]] eqn:Ef.
  - discriminate H.
  - simpl in H.
    destruct (Z.eqb_spec (Z.of_nat (length o)) (-1)) as [E|_]; [lia|].
    destruct (pass 1 flowlines hydroseqs inlets drainmax o);
      discriminate H.
  - change (subdivide_loop (S (S k)) flowlines hydroseqs inlets drainmax
              (S (S k)) (-1) o')
      with (if Z.of_nat (length o') =? -1 then Ok o'
            else bind (pass (S (S k)) flowlines hydroseqs inlets drainmax o')
                      (fun o1 =>
                         if Z.of_nat (length o1) =? Z.of_nat (length o')
                         then Ok o1
                         else bind (pass (S (S k)) flowlines hydroseqs inlets
                                         drainmax o1)
                                   (subdivide_loop (S (S k)) flowlines
                                      hydroseqs inlets drainmax k
                                      (Z.of_nat (length o1))))).
    destruct (Z.eqb_spec (Z.of_nat (length o')) (-1)) as [E|_]; [lia|].
    rewrite Hp. simpl. now rewrite Z.eqb_refl.
Qed.

(** ** Termination of the subdivision *)

Variable rank : Z -> nat.
Variable R : nat.
Hypothesis Hranked : up_ranked flowlines rank.
Hypothesis Hbounded : rank_bounded flowlines rank R.

Lemma getitem_returns {V : Type} (k : Z) (d : dict V) :
  getitem k d <> OutOfFuel.
Proof. unfold getitem. destruct (dict_get k d); discriminate. Qed.

Lemma mapM_getitem_returns (d : dict Z) (l : list Z) :
  mapM (fun b => getitem b d) l <> OutOfFuel.
Proof.
  induction l as [|x l IH]; simpl; [discriminate|].
  unfold getitem at 1. destruct (dict_get x d); simpl; [|discriminate].
  destruct (mapM (fun b => getitem b d) l); simpl; congruence.
Qed.

Lemma walk_terminates (boundaries : list Z) (drain_area : Z) (n : nat) :
  forall (flowline : Flowline) (o : list Z),
    (1 <= n)%nat ->
    (forall g, dict_get (up flowline) flowlines = Some g ->
               (rank (up flowline) + 2 <= n)%nat) ->
    walk flowlines drainmax n boundaries drain_area flowline o <> OutOfFuel.
Proof.
  induction n as [|n IH]; intros flowline o Hn Hup; [lia|]. simpl.
  destruct (mem (up flowline) boundaries); [discriminate|].
  unfold getitem.
  destruct (dict_get (up flowline) flowlines) as [major|] eqn:Emajor;
    simpl; [|discriminate].
  destruct (existsb _ _ || _); [discriminate|].
  destruct (drain_area - divarea flowline >? drainmax).
  - destruct (dict_get (down flowline) flowlines); discriminate.
  - specialize (Hup major eq_refl). apply IH; [lia|].
    intros g Hg.
    pose proof (Hranked (up flowline) major g Emajor Hg). lia.
Qed.

Lemma check_outlet_terminates (outlet : Z) (o : list Z) :
  (R + 2 <= fuel)%nat ->
  check_outlet fuel flowlines hydroseqs inlets drainmax outlet o
  <> OutOfFuel.
Proof.
  intros Hfuel. unfold check_outlet, flowline_of.
  destruct (getitem outlet hydroseqs) as [h|e|] eqn:Eh; simpl;
    [|discriminate|exfalso; exact (getitem_returns _ _ Eh)].
  destruct (getitem h flowlines) as [f|e|] eqn:Ef; simpl;
    [|discriminate|exfalso; exact (getitem_returns _ _ Ef)].
  destruct (mapM _ _) as [bs|e|] eqn:Eb; simpl;
    [|discriminate|exfalso; exact (mapM_getitem_returns _ _ Eb)].
  apply walk_terminates; [lia|].
  intros g Hg. pose proof (Hbounded _ _ Hg). lia.
Qed.

Lemma check_outlets_terminates (o0 : list Z) (n : nat) :
  forall (i : nat) (o : list Z),
    (R + 2 <= fuel)%nat ->
    extends flowlines o0 o ->
    (i <= length o)%nat ->
    (length o0 + length flowlines + 1 <= n + i)%nat ->
    check_outlets fuel flowlines hydroseqs inlets drainmax n i o
    <> OutOfFuel.
Proof.
  induction n as [|n IH]; intros i o Hfuel Hext Hi Hn.
  - pose proof (extends_length _ _ _ Hext). lia.
  - simpl. destruct (nth_error o i) as [outlet|] eqn:Eo; [|discriminate].
    destruct (check_outlet fuel flowlines hydroseqs inlets drainmax outlet o)
      as [o1|e|] eqn:E1; simpl.
    + assert (Hlt : (i < length o)%nat)
        by (apply nth_error_Some; congruence).
      pose proof (check_outlet_extends _ _ _ E1) as Hext1.
      pose proof (extends_length _ _ _ Hext1).
      apply IH; try assumption; try lia.
      eapply extends_trans; eassumption.
    + discriminate.
    + exfalso. exact (check_outlet_terminates _ _ Hfuel E1).
Qed.

Lemma subdivide_loop_terminates (o0 : list Z) (k : nat) :
  forall (n : Z) (o : list Z),
    (R + 2 <= fuel)%nat ->
    (length o0 + length flowlines + 1 <= fuel)%nat ->
    extends flowlines o0 o ->
    ((if (Z.of_nat (length o) =? n)%Z then 1
      else length o0 + length flowlines - length o + 2) <= k)%nat ->
    subdivide_loop fuel flowlines hydroseqs inlets drainmax k n o
    <> OutOfFuel.
Proof.
  induction k as [|k IH]; intros n o Hf1 Hf2 Hext Hk.
  - destruct (Z.of_nat (length o) =? n); lia.
  - simpl. destruct (Z.eqb_spec (Z.of_nat (length o)) n) as [E|E];
      [discriminate|].
    destruct (pass fuel flowlines hydroseqs inlets drainmax o)
      as [o1|e|] eqn:Ep; simpl.
    + pose proof (pass_extends _ _ Ep) as Hext1.
      assert (Hext01 : extends flowlines o0 o1)
        by (eapply extends_trans; eassumption).
      pose proof (extends_length _ _ _ Hext01).
      pose proof (extends_length _ _ _ Hext1).
      apply IH; try assumption.
      destruct (Z.eqb_spec (Z.of_nat (length o1)) (Z.of_nat (length o)));
        lia.
    + discriminate.
    + exfalso. revert Ep. unfold pass.
      apply (check_outlets_terminates o0); try assumption; lia.
Qed.


End SubdivisionFacts.

Lemma up_rankedb_sound (flowlines : Flowlines) (rank : Z -> nat) :
  up_rankedb flowlines rank = true -> up_ranked flowlines rank.
Proof.
  unfold up_rankedb, up_ranked. intros H k f g Hk Hg.
  rewrite forallb_forall in H.
  specialize (H (k, f) (dict_get_In _ _ _ Hk)). simpl in H.
  rewrite Hk in H. unfold dict_mem in H. rewrite Hg in H.
  now apply Nat.ltb_lt.
Qed.

Lemma rank_boundedb_sound (flowlines : Flowlines) (rank : Z -> nat)
      (R : nat) :
  rank_boundedb flowlines rank R = true -> rank_bounded flowlines rank R.
Proof.
  unfold rank_boundedb, rank_bounded. intros H k f Hk.
  rewrite forallb_forall in H. apply Nat.leb_le. apply H.
  apply dict_get_In in Hk. unfold keys. change k with (fst (k, f)).
  now apply in_map.
Qed.

Lemma NoDup_check (l : list Z) : nodup Z.eq_dec l = l -> NoDup l.
Proof. intros <-. apply NoDup_nodup. Qed.

(** The first run on the chain returns the outlets 105 and 103, and so does
    a second run from these. *)
Lemma subdivide_idempotent_witness :
  subdivide 20 chain5 (make_hydroseqs chain5) [] 25 [105; 103]
  = Ok [105; 103].
Proof.
  apply (subdivide_idempotent 20 chain5 (make_hydroseqs chain5) [] 25 [105]).
  reflexivity.
Defined.


(** ** The subdivision returns *)

Section SubdivisionReturns.

Variable fuel : nat.
Variable flowlines : Flowlines.
Variable hydroseqs : dict Z.
Variable inlets : list Z.
Variable drainmax : Z.

Hypothesis Hsound :
  forall c k, dict_get c hydroseqs = Some k ->
              exists f, dict_get k flowlines = Some f /\ comid f = c.
Hypothesis Hcomplete :
  forall k f, In (k, f) flowlines -> dict_mem (comid f) hydroseqs = true.
Hypothesis Hclosed : closed_upstream flowlines.
Hypothesis Hdown : downstream_known flowlines.
Hypothesis Hdrainmax : 0 <= drainmax.
Hypothesis Hinlets : forall s, In s inlets -> dict_mem s hydroseqs = true.

Lemma walk_never_raises (boundaries : list Z) (drain_area : Z) (n : nat) :
  forall (k : Z) (flowline : Flowline) (o : list Z) (e : exn),
    In 0 boundaries ->
    dict_get k flowlines = Some flowline ->
    drain_area - divarea flowline <= drainmax
    \/ dict_mem (down flowline) flowlines = true ->
    walk flowlines drainmax n boundaries drain_area flowline o <> Raise e.
Proof.
  induction n as [|n IH]; intros k flowline o e H0 Hk Hinv; simpl;
    [discriminate|].
  destruct (mem (up flowline) boundaries) eqn:Eb; [discriminate|].
  assert (Hup : dict_mem (up flowline) flowlines = true).
  { destruct (Hclosed k flowline Hk) as [E|E]; [|exact E].
    apply mem_not_In in Eb. rewrite E in Eb. contradiction. }
  apply dict_mem_get in Hup as [major Hmajor].
  unfold getitem. rewrite Hmajor. simpl.
  destruct (existsb _ _ || _); [discriminate|].
  destruct (drain_area - divarea flowline >? drainmax) eqn:Ed.
  - destruct Hinv as [Hle|Hm].
    + rewrite Z.gtb_ltb in Ed. apply Z.ltb_lt in Ed. lia.
    + apply dict_mem_get in Hm as [d Hd]. rewrite Hd. discriminate.
  - apply (IH (up flowline)); [exact H0 | exact Hmajor|].
    right. exact (Hdown k flowline major Hk Hmajor).
Qed.

Lemma mapM_getitem_known (l : list Z) :
  (forall s, In s l -> dict_mem s hydroseqs = true) ->
  exists bs, mapM (fun b => getitem b hydroseqs) l = Ok bs.
Proof.
  induction l as [|x l IH]; intros H; simpl; [now exists []|].
  destruct (proj1 (dict_mem_get _ _) (H x (or_introl eq_refl))) as [h Hh].
  unfold getitem at 1. rewrite Hh. simpl.
  destruct IH as [bs Hbs]; [intros s Hs; apply H; now right|].
  rewrite Hbs. simpl. now exists (h :: bs).
Qed.

Lemma check_outlet_never_raises (outlet : Z) (o : list Z) (e : exn) :
  (forall s, In s o -> dict_mem s hydroseqs = true) ->
  In outlet o ->
  check_outlet fuel flowlines hydroseqs inlets drainmax outlet o <> Raise e.
Proof.
  intros Hknown Hin. unfold check_outlet, flowline_of.
  destruct (proj1 (dict_mem_get _ _) (Hknown outlet Hin)) as [h Hh].
  destruct (Hsound _ _ Hh) as [f [Hf _]].
  unfold getitem at 1. rewrite Hh. simpl.
  unfold getitem at 1. rewrite Hf. simpl.
  destruct (mapM_getitem_known (inlets ++ o)) as [bs Hbs].
  { intros s Hs. apply in_app_or in Hs as [Hs|Hs]; auto. }
  rewrite Hbs. simpl.
  apply (walk_never_raises _ _ _ h); [now left | exact Hf | left; lia].
Qed.

Lemma extends_known (o o' : list Z) :
  extends flowlines o o' ->
  (forall s, In s o -> dict_mem s hydroseqs = true) ->
  forall s, In s o' -> dict_mem s hydroseqs = true.
Proof.
  intros [ext [-> [_ Hext]]] Hknown s Hs.
  apply in_app_or in Hs as [Hs|Hs]; [now apply Hknown|].
  destruct (Hext s Hs) as [_ Hc]. unfold comids, values in Hc.
  apply in_map_iff in Hc as [f [<- Hf]].
  apply in_map_iff in Hf as [[k f'] [E Hin]]. simpl in E. subst f'.
  exact (Hcomplete k f Hin).
Qed.

Lemma check_outlets_never_raises (n : nat) :
  forall (i : nat) (o : list Z) (e : exn),
    (forall s, In s o -> dict_mem s hydroseqs = true) ->
    check_outlets fuel flowlines hydroseqs inlets drainmax n i o <> Raise e.
Proof.
  induction n as [|n IH]; intros i o e Hknown; simpl; [discriminate|].
  destruct (nth_error o i) as [outlet|] eqn:Ei; [|discriminate].
  destruct (check_outlet fuel flowlines hydroseqs inlets drainmax outlet o)
    as [o1|e1|] eqn:E1; simpl.
  - apply IH. apply (extends_known o); [|exact Hknown].
    eapply check_outlet_extends; exact E1.
  - exfalso. apply (check_outlet_never_raises outlet o e1 Hknown);
      [eapply nth_error_In; exact Ei | exact E1].
  - discriminate.
Qed.

Lemma subdivide_loop_never_raises (k : nat) :
  forall (n : Z) (o : list Z) (e : exn),
    (forall s, In s o -> dict_mem s hydroseqs = true) ->
    subdivide_loop fuel flowlines hydroseqs inlets drainmax k n o <> Raise e.
Proof.
  induction k as [|k IH]; intros n o e Hknown; simpl; [discriminate|].
  destruct (Z.of_nat (length o) =? n); [discriminate|].
  destruct (pass fuel flowlines hydroseqs inlets drainmax o) as [o1|e1|]
    eqn:Ep; simpl.
  - apply IH. apply (extends_known o); [|exact Hknown].
    eapply pass_extends; exact Ep.
  - exfalso. exact (check_outlets_never_raises _ _ _ _ Hknown Ep).
  - discriminate.
Qed.

End SubdivisionReturns.

(** C4.  In a network without a cycle of upstream references the
    subdivision loop terminates for every initial list of outlets, within a
    budget of [R + length o + length flowlines + 2] iterations per loop: it
    returns or raises.  The list it returns extends the initial one (no
    outlet is removed); it is reached by at most [length flowlines] passes
    that each add an outlet, followed by the first pass that adds none, on
    which the loop exits.  Every pass either makes the list strictly longer
    or leaves it unchanged, and a list that started without repetition
    among the comids of the network never holds more outlets than the
    network has flowlines.  The loop returns, rather than raises, when the
    network has no inlet, the [down] of every flowline that is the [up] of
    another is in the network, [drainmax] is not negative and the initial
    outlets are comids of the network. *)
Theorem subdivide_terminates :
  forall (fuel : nat) (flowlines : Flowlines) (hydroseqs : dict Z)
         (inlets : list Z) (drainmax : Z) (rank : Z -> nat) (R : nat)
         (o : list Z),
    up_ranked flowlines rank ->
    rank_bounded flowlines rank R ->
    (R + length o + length flowlines + 2 <= fuel)%nat ->
    subdivide fuel flowlines hydroseqs inlets drainmax o <> OutOfFuel
    /\ (forall o',
          subdivide fuel flowlines hydroseqs inlets drainmax o = Ok o' ->
          extends flowlines o o'
          /\ exists m,
               grows fuel flowlines hydroseqs inlets drainmax m o o'
               /\ (m <= length flowlines)%nat
               /\ pass fuel flowlines hydroseqs inlets drainmax o' = Ok o')
    /\ (forall o1 o2,
          pass fuel flowlines hydroseqs inlets drainmax o1 = Ok o2 ->
          extends flowlines o1 o2
          /\ ((length o1 < length o2)%nat \/ o2 = o1))
    /\ (NoDup o -> incl o (comids flowlines) ->
        forall o', extends flowlines o o' ->
                   NoDup o' /\ (length o' <= length flowlines)%nat)
    /\ (NoDup (keys flowlines) ->
        hydroseqs = make_hydroseqs flowlines ->
        closed_upstream flowlines ->
        downstream_known flowlines ->
        0 <= drainmax ->
        (forall s, In s (inlets ++ o) -> dict_mem s hydroseqs = true) ->
        exists o', subdivide fuel flowlines hydroseqs inlets drainmax o
                   = Ok o').
Proof.
  intros fuel flowlines hydroseqs inlets drainmax rank R o
         Hranked Hbounded Hfuel.
  assert (Hterm : subdivide fuel flowlines hydroseqs inlets drainmax o
                  <> OutOfFuel).
  { unfold subdivide.
    apply (subdivide_loop_terminates fuel flowlines hydroseqs inlets drainmax
             rank R Hranked Hbounded o);
      try lia; [apply extends_refl|].
    destruct (Z.eqb_spec (Z.of_nat (length o)) (-1)); lia. }
  split; [exact Hterm|]. split; [|split; [|split]].
  - intros o' H. destruct (subdivide_fixed_point _ _ _ _ _ _ _ H)
      as [m [Hg Hp]].
    pose proof (grows_extends _ _ _ _ _ _ _ _ Hg) as Hext.
    split; [exact Hext|]. exists m. repeat split; try assumption.
    pose proof (grows_length _ _ _ _ _ _ _ _ Hg).
    pose proof (extends_length _ _ _ Hext). lia.
  - intros o1 o2 Hp.
    split; [eapply pass_extends | eapply pass_grows_or_same]; exact Hp.
  - intros Hnd Hincl o' Hext.
    destruct (extends_NoDup _ _ _ Hext Hnd Hincl) as [H1 [_ H3]].
    now split.
  - intros Hkeys -> Hclosed Hdown Hdrainmax Hknown.
    destruct (subdivide fuel flowlines (make_hydroseqs flowlines) inlets
                        drainmax o) as [o'|e|] eqn:E.
    + now exists o'.
    + exfalso. revert E. unfold subdivide.
      apply (subdivide_loop_never_raises fuel flowlines
               (make_hydroseqs flowlines) inlets drainmax).
      * intros c k. now apply make_hydroseqs_sound.
      * apply make_hydroseqs_In.
      * exact Hclosed.
      * exact Hdown.
      * exact Hdrainmax.
      * intros s Hs. apply Hknown. apply in_or_app. now left.
      * intros s Hs. apply Hknown. apply in_or_app. now right.
    + contradiction.
Qed.

Lemma closed_upstreamb_sound (flowlines : Flowlines) :
  closed_upstreamb flowlines = true -> closed_upstream flowlines.
Proof.
  unfold closed_upstreamb, closed_upstream. intros H k f Hk.
  rewrite forallb_forall in H. specialize (H f).
  apply orb_true_iff in H as [H|H].
  - left. now apply Z.eqb_eq.
  - now right.
  - unfold values. change f with (snd (k, f)). apply in_map.
    now apply dict_get_In.
Qed.

Lemma downstream_knownb_sound (flowlines : Flowlines) :
  downstream_knownb flowlines = true -> downstream_known flowlines.
Proof.
  unfold downstream_knownb, downstream_known. intros H k f g Hk Hg.
  rewrite forallb_forall in H. specialize (H f). rewrite Hg in H.
  apply H. unfold values. change f with (snd (k, f)). apply in_map.
  now apply dict_get_In.
Qed.

(** The chain, ranked by its hydroseqs, within a budget of 13: the loop
    does not run out of budget, and it returns. *)
Lemma subdivide_terminates_witness :
  subdivide 13 chain5 (make_hydroseqs chain5) [] 25 [105] <> OutOfFuel
  /\ exists o',
       subdivide 13 chain5 (make_hydroseqs chain5) [] 25 [105] = Ok o'.
Proof.
  destruct (subdivide_terminates 13 chain5 (make_hydroseqs chain5) [] 25
              Z.to_nat 5%nat [105])
    as [Hterm [_ [_ [_ Hret]]]].
  - apply up_rankedb_sound. reflexivity.
  - apply rank_boundedb_sound. reflexivity.
  - simpl. lia.
  - split; [exact Hterm|]. apply Hret.
    + apply NoDup_check. reflexivity.
    + reflexivity.
    + apply closed_upstreamb_sound. reflexivity.
    + apply downstream_knownb_sound. reflexivity.
    + lia.
    + intros s [<-|[]]. reflexivity.
Defined.

(** ** The threshold rule *)

Section ThresholdRule.

Variable fuel : nat.
Variable flowlines : Flowlines.
Variable hydroseqs : dict Z.
Variable inlets : list Z.
Variable drainmax : Z.






End ThresholdRule.




(** ** The flood that fills a subbasin *)

Section Flood.

Variable flowlines : Flowlines.
Variable hydroseqs : dict Z.
Variable outlets : list Z.

Hypothesis Hkeys : NoDup (keys hydroseqs).
Hypothesis Hsound :
  forall c k, dict_get c hydroseqs = Some k ->
              exists f, dict_get k flowlines = Some f /\ comid f = c.

Lemma hydroseqs_injective (c c' h : Z) :
  dict_get c hydroseqs = Some h -> dict_get c' hydroseqs = Some h -> c = c'.
Proof.
  intros H H'. destruct (Hsound _ _ H) as [f [Hf Hc]].
  destruct (Hsound _ _ H') as [f' [Hf' Hc']]. congruence.
Qed.

Lemma select_comids_selected (p : Flowline -> bool) (items : dict Z) :
  incl items hydroseqs ->
  select_comids flowlines outlets p items
  = Ok (selected flowlines outlets p items).
Proof.
  induction items as [|[c h] items IH]; intros Hincl; simpl; [reflexivity|].
  assert (Hc : dict_get c hydroseqs = Some h).
  { apply In_dict_get; [exact Hkeys | apply Hincl; now left]. }
  destruct (Hsound _ _ Hc) as [f [Hf _]].
  unfold getitem. rewrite Hf. simpl.
  rewrite IH by (intros x Hx; apply Hincl; now right). reflexivity.
Qed.

Lemma selected_In (p : Flowline -> bool) (c h : Z) :
  In (c, h) (selected flowlines outlets p hydroseqs)
  <-> In (c, h) hydroseqs
      /\ exists f, dict_get h flowlines = Some f /\ p f = true
                   /\ ~ In c outlets.
Proof.
  unfold selected. rewrite filter_In. simpl. split.
  - intros [Hin H]. split; [exact Hin|].
    destruct (dict_get h flowlines) as [f|]; [|discriminate].
    apply andb_true_iff in H as [Hp Hn]. exists f.
    repeat split; [exact Hp|]. apply negb_true_iff in Hn.
    now apply mem_not_In.
  - intros [Hin [f [Hf [Hp Hn]]]]. split; [exact Hin|]. rewrite Hf, Hp.
    simpl. apply negb_true_iff. now apply mem_not_In.
Qed.

Lemma reached_nil (k : nat) (h : Z) :
  ~ reached flowlines hydroseqs outlets [] k h.
Proof.
  revert h. induction k as [|k IH]; intros h; simpl; [tauto|].
  intros [c [f [_ [_ [_ H]]]]]. exact (IH _ H).
Qed.

Lemma reached_shift (current : list Z) (k : nat) :
  forall h,
    reached flowlines hydroseqs outlets
            (map snd (selected flowlines outlets
                               (fun f => mem (down f) current) hydroseqs))
            k h
    <-> reached flowlines hydroseqs outlets current (S k) h.
Proof.
  induction k as [|k IH]; intros h.
  - simpl. rewrite in_map_iff. split.
    + intros [[c h'] [E Hin]]. simpl in E. subst h'.
      apply selected_In in Hin as [Hin [f [Hf [Hp Hn]]]].
      exists c, f. repeat split; try assumption. now apply mem_In.
    + intros [c [f [Hin [Hf [Hn Hd]]]]]. exists (c, h). split; [reflexivity|].
      apply selected_In. split; [exact Hin|]. exists f.
      repeat split; try assumption. now apply mem_In.
  - change (reached flowlines hydroseqs outlets ?cur (S ?n) h)
      with (exists c f,
               In (c, h) hydroseqs /\ dict_get h flowlines = Some f
               /\ ~ In c outlets
               /\ reached flowlines hydroseqs outlets cur n (down f)).
    split; intros [c [f [Hin [Hf [Hn Hr]]]]]; exists c, f;
      repeat split; try assumption; now apply IH.
Qed.

Lemma flood_spec (n : nat) :
  forall (members current m' : list Z),
    flood flowlines hydroseqs outlets n members current = Ok m' ->
    forall c, In c m' <-> In c members
                          \/ flooded flowlines hydroseqs outlets current c.
Proof.
  induction n as [|n IH]; intros members current m'; simpl; [discriminate|].
  destruct current as [|h0 rest] eqn:Ecur.
  - intros H. injection H as <-. intros c. split; [now left|].
    intros [H|[k [h [f [_ [_ [_ H]]]]]]]; [exact H|].
    exfalso. exact (reached_nil _ _ H).
  - rewrite <- Ecur.
    rewrite select_comids_selected by apply incl_refl. simpl.
    intros H c. rewrite (IH _ _ _ H c). rewrite in_app_iff. split.
    + intros [[Hm|Hs]|[k [h [f [Hin [Hf [Hn Hr]]]]]]].
      * now left.
      * right. apply in_map_iff in Hs as [[c' h] [E Hs]]. simpl in E.
        subst c'. apply selected_In in Hs as [Hin [f [Hf [Hp Hn]]]].
        exists O, h, f. repeat split; try assumption. simpl.
        now apply mem_In.
      * right. exists (S k), h, f. repeat split; try assumption.
        now apply reached_shift.
    + intros [Hm|[k [h [f [Hin [Hf [Hn Hr]]]]]]].
      * left. now left.
      * destruct k as [|k].
        -- left. right. apply in_map_iff. exists (c, h).
           split; [reflexivity|]. apply selected_In. split; [exact Hin|].
           exists f. repeat split; try assumption. now apply mem_In.
        -- right. exists k, h, f. repeat split; try assumption.
           now apply reached_shift.
Qed.

Lemma flood_returns (n : nat) :
  forall (members current : list Z),
    (forall h, ~ reached flowlines hydroseqs outlets current n h) ->
    exists m', flood flowlines hydroseqs outlets (S n) members current
               = Ok m'.
Proof.
  induction n as [|n IH]; intros members current Hnone.
  - destruct current as [|h rest].
    + now exists members.
    + exfalso. apply (Hnone h). now left.
  - change (flood flowlines hydroseqs outlets (S (S n)) members current)
      with (match current with
            | [] => Ok members
            | _ =>
                bind (select_comids flowlines outlets
                        (fun f => mem (down f) current) hydroseqs)
                     (fun sel =>
                        flood flowlines hydroseqs outlets (S n)
                              (members ++ map fst sel) (map snd sel))
            end).
    destruct current as [|h0 rest] eqn:Ecur; [now exists members|].
    rewrite <- Ecur. rewrite select_comids_selected by apply incl_refl.
    simpl. apply IH. intros h Hr. apply reached_shift in Hr.
    rewrite Ecur in Hr. exact (Hnone h Hr).
Qed.

Variable rank : Z -> nat.
Variable R : nat.
Hypothesis Hranked : down_ranked flowlines rank.
Hypothesis Hbounded : rank_bounded flowlines rank R.

Lemma reached_rank (current : list Z) (k : nat) :
  (forall h, In h current -> dict_mem h flowlines = true) ->
  forall h, reached flowlines hydroseqs outlets current k h ->
            dict_mem h flowlines = true /\ (k <= rank h)%nat.
Proof.
  intros Hcur. induction k as [|k IH]; intros h; simpl.
  - intros H. split; [now apply Hcur | lia].
  - intros [c [f [Hin [Hf [Hn Hr]]]]]. destruct (IH _ Hr) as [Hm Hk].
    split; [apply dict_mem_get; now exists f|].
    apply dict_mem_get in Hm as [g Hg].
    pose proof (Hranked h f g Hf Hg). lia.
Qed.

Lemma reached_none (current : list Z) (k : nat) :
  (forall h, In h current -> dict_mem h flowlines = true) ->
  (R < k)%nat ->
  forall h, ~ reached flowlines hydroseqs outlets current k h.
Proof.
  intros Hcur Hk h Hr. destruct (reached_rank current k Hcur h Hr) as [Hm Hle].
  apply dict_mem_get in Hm as [f Hf]. pose proof (Hbounded h f Hf). lia.
Qed.

(** The flood from an outlet collects the comids that drain to it. *)

Lemma reached_drains (s hs : Z) (k : nat) :
  In s outlets -> dict_get s hydroseqs = Some hs ->
  forall h, reached flowlines hydroseqs outlets [hs] k h ->
            exists c, dict_get c hydroseqs = Some h
                      /\ drains_to flowlines hydroseqs outlets c s.
Proof.
  intros Hs Hhs. induction k as [|k IH]; intros h; simpl.
  - intros [<-|[]]. exists s. split; [exact Hhs | now constructor].
  - intros [c [f [Hin [Hf [Hn Hr]]]]]. destruct (IH _ Hr) as [c' [Hc' Hd]].
    exists c. assert (Hc : dict_get c hydroseqs = Some h)
      by (now apply In_dict_get).
    split; [exact Hc|]. econstructor; eassumption.
Qed.

Lemma drains_flooded (c s : Z) :
  drains_to flowlines hydroseqs outlets c s ->
  forall hs, dict_get s hydroseqs = Some hs ->
             c = s \/ flooded flowlines hydroseqs outlets [hs] c.
Proof.
  induction 1 as [s Hs|c h f c' s Hn Hc Hf Hc' Hd IH]; intros hs Hhs.
  - now left.
  - right. destruct (IH hs Hhs) as [->|[k [h' [f' [Hin' [Hf' [Hn' Hr]]]]]]].
    + exists O, h, f. repeat split; try assumption.
      * now apply dict_get_In.
      * simpl. left. congruence.
    + assert (Eh : h' = down f).
      { apply In_dict_get in Hin'; [congruence | exact Hkeys]. }
      subst h'. exists (S k), h, f. repeat split; try assumption.
      * now apply dict_get_In.
      * exists c', f'. repeat split; assumption.
Qed.

Lemma flooded_drains (s hs c : Z) :
  In s outlets -> dict_get s hydroseqs = Some hs ->
  flooded flowlines hydroseqs outlets [hs] c ->
  drains_to flowlines hydroseqs outlets c s.
Proof.
  intros Hs Hhs [k [h [f [Hin [Hf [Hn Hr]]]]]].
  destruct (reached_drains s hs k Hs Hhs _ Hr) as [c' [Hc' Hd]].
  econstructor; try eassumption. now apply In_dict_get.
Qed.

Lemma drains_to_outlet (c s : Z) :
  drains_to flowlines hydroseqs outlets c s -> In s outlets.
Proof. induction 1; assumption. Qed.

Lemma drains_to_functional (c s1 s2 : Z) :
  drains_to flowlines hydroseqs outlets c s1 ->
  drains_to flowlines hydroseqs outlets c s2 -> s1 = s2.
Proof.
  intros H1. revert s2.
  induction H1 as [s Hs|c h f c' s Hn Hc Hf Hc' Hd IH]; intros s2 H2.
  - inversion H2; subst; [reflexivity | contradiction].
  - inversion H2 as [|c0 h0 f0 c0' s0 Hn0 Hc0 Hf0 Hc0' Hd0]; subst;
      [contradiction|].
    apply IH. assert (h0 = h) by congruence. subst h0.
    assert (f0 = f) by congruence. subst f0.
    now rewrite (hydroseqs_injective _ _ _ Hc' Hc0').
Qed.

(** The flood of one subbasin, from its outlet. *)
Lemma flood_outlet (fuel : nat) (s hs : Z) :
  (R + 2 <= fuel)%nat ->
  In s outlets -> dict_get s hydroseqs = Some hs ->
  exists m', flood flowlines hydroseqs outlets fuel [s] [hs] = Ok m'
             /\ forall c, In c m'
                          <-> drains_to flowlines hydroseqs outlets c s.
Proof.
  intros Hfuel Hs Hhs.
  destruct fuel as [|n]; [lia|].
  destruct (flood_returns n [s] [hs]) as [m' Hm'].
  { apply reached_none; [|lia]. intros h [<-|[]].
    destruct (Hsound _ _ Hhs) as [f [Hf _]]. apply dict_mem_get.
    now exists f. }
  exists m'. split; [exact Hm'|]. intros c.
  rewrite (flood_spec _ _ _ _ Hm' c). split.
  - intros [[<-|[]]|Hfl]; [now constructor | now apply (flooded_drains s hs)].
  - intros Hd. destruct (drains_flooded _ _ Hd hs Hhs) as [->|Hfl];
      [left; now left | now right].
Qed.

End Flood.

(** ** The subbasins *)

Lemma init_subbasins_acc (outlets : list Z) :
  forall (acc : dict (list Z)),
    NoDup (keys acc) ->
    let sb := fold_left (fun sb outlet => dict_set outlet [outlet] sb)
                        outlets acc in
    NoDup (keys sb)
    /\ (forall s, In s outlets -> dict_get s sb = Some [s])
    /\ (forall s, ~ In s outlets -> dict_get s sb = dict_get s acc).
Proof.
  induction outlets as [|o rest IH]; intros acc Hnd; cbv zeta; simpl.
  - split; [exact Hnd|]. split; [intros s [] | reflexivity].
  - destruct (IH (dict_set o [o] acc) (NoDup_keys_dict_set _ _ _ Hnd))
      as [H1 [H2 H3]].
    split; [exact H1|]. split.
    + intros s Hs. destruct (in_dec Z.eq_dec s rest) as [Hin|Hnin].
      * now apply H2.
      * destruct Hs as [->|Hs]; [|contradiction].
        rewrite H3 by exact Hnin. apply dict_get_set_eq.
    + intros s Hs. rewrite H3 by tauto. apply dict_get_set_neq.
      intros ->. apply Hs. now left.
Qed.

Section SubbasinFacts.

Variable fuel : nat.
Variable flowlines : Flowlines.
Variable hydroseqs : dict Z.
Variable outlets : list Z.

Hypothesis Hkeys : NoDup (keys hydroseqs).
Hypothesis Hsound :
  forall c k, dict_get c hydroseqs = Some k ->
              exists f, dict_get k flowlines = Some f /\ comid f = c.
Variable rank : Z -> nat.
Variable R : nat.
Hypothesis Hranked : down_ranked flowlines rank.
Hypothesis Hbounded : rank_bounded flowlines rank R.
Hypothesis Hfuel : (R + 2 <= fuel)%nat.
Hypothesis Hknown : forall s, In s outlets -> dict_mem s hydroseqs = true.

Lemma fill_subbasins_spec (todo : list Z) :
  forall (sb : dict (list Z)),
    NoDup todo ->
    (forall s, In s todo -> In s outlets /\ dict_get s sb = Some [s]) ->
    exists sb',
      fill_subbasins fuel flowlines hydroseqs outlets todo sb = Ok sb'
      /\ (forall s, In s todo ->
            exists m', dict_get s sb' = Some m'
                       /\ forall c, In c m'
                            <-> drains_to flowlines hydroseqs outlets c s)
      /\ (forall s, ~ In s todo -> dict_get s sb' = dict_get s sb).
Proof.
  induction todo as [|s rest IH]; intros sb Hnd Htodo.
  - exists sb. split; [reflexivity|]. split; [intros s [] | reflexivity].
  - inversion Hnd as [|? ? Hnotin Hnd']; subst.
    destruct (Htodo s (or_introl eq_refl)) as [Hs Hsb].
    pose proof (Hknown s Hs) as Hm. apply dict_mem_get in Hm as [hs Hhs].
    destruct (flood_outlet flowlines hydroseqs outlets Hkeys Hsound rank R
                Hranked Hbounded fuel s hs Hfuel Hs Hhs) as [m' [Hm' Hd]].
    destruct (IH (dict_set s m' sb) Hnd') as [sb' [Hfill [Hin Hout]]].
    { intros s' Hs'. destruct (Htodo s' (or_intror Hs')) as [Ho Hg].
      split; [exact Ho|]. rewrite dict_get_set_neq; [exact Hg|].
      intros ->. contradiction. }
    exists sb'. split; [|split].
    + simpl. unfold getitem at 1. rewrite Hsb. simpl.
      unfold getitem at 1. rewrite Hhs. simpl. rewrite Hm'. simpl.
      exact Hfill.
    + intros s' [<-|Hs'].
      * exists m'. split; [|exact Hd].
        rewrite Hout by exact Hnotin. apply dict_get_set_eq.
      * now apply Hin.
    + intros s' Hs'. rewrite Hout by (intros H; apply Hs'; now right).
      apply dict_get_set_neq. intros ->. apply Hs'. now left.
Qed.

Lemma merge_second_outlets_id (last_comid : Z) (sb : dict (list Z)) :
  dict_mem last_comid hydroseqs = true ->
  second_outlets_marked flowlines hydroseqs outlets last_comid ->
  merge_second_outlets flowlines hydroseqs outlets last_comid sb = Ok sb.
Proof.
  intros Hlast Hmarked. unfold merge_second_outlets.
  apply dict_mem_get in Hlast as [hl Hhl].
  destruct (Hsound _ _ Hhl) as [lastf [Hlastf _]].
  assert (Hfl : flowline_of flowlines hydroseqs last_comid = Ok lastf).
  { unfold flowline_of, getitem. rewrite Hhl. simpl. now rewrite Hlastf. }
  rewrite Hfl. simpl.
  rewrite (select_comids_selected flowlines hydroseqs outlets Hkeys Hsound)
    by apply incl_refl.
  simpl.
  destruct (selected flowlines outlets (fun f => down f =? down lastf)
                     hydroseqs) as [|[c h] l] eqn:E; [reflexivity|].
  exfalso.
  assert (Hin : In (c, h) (selected flowlines outlets
                             (fun f => down f =? down lastf) hydroseqs))
    by (rewrite E; now left).
  apply selected_In in Hin as [Hin [f [Hf [Hp Hn]]]].
  apply Hn. apply (Hmarked lastf c h f Hfl); try assumption.
  - now apply In_dict_get.
  - now apply Z.eqb_eq.
Qed.

Lemma make_subbasins_spec (last_comid : Z) :
  dict_mem last_comid hydroseqs = true ->
  second_outlets_marked flowlines hydroseqs outlets last_comid ->
  exists sb,
    make_subbasins fuel flowlines hydroseqs outlets last_comid = Ok sb
    /\ (forall s, dict_mem s sb = true <-> In s outlets)
    /\ (forall s members c,
          dict_get s sb = Some members ->
          (In c members <-> drains_to flowlines hydroseqs outlets c s)).
Proof.
  intros Hlast Hmarked. unfold make_subbasins.
  rewrite merge_second_outlets_id by assumption. simpl.
  destruct (init_subbasins_acc outlets [] (NoDup_nil _)) as [H1 [H2 H3]].
  fold (init_subbasins outlets) in H1, H2, H3.
  assert (Hkeys0 : forall s, In s (keys (init_subbasins outlets))
                             <-> In s outlets).
  { intros s. split.
    - intros Hin. destruct (in_dec Z.eq_dec s outlets) as [H|H]; [exact H|].
      exfalso. apply H3 in H. simpl in H. apply dict_get_None in H.
      contradiction.
    - intros Hin. apply H2 in Hin.
      destruct (in_dec Z.eq_dec s (keys (init_subbasins outlets)))
        as [H|H]; [exact H|].
      apply dict_get_None in H. congruence. }
  destruct (fill_subbasins_spec (keys (init_subbasins outlets))
              (init_subbasins outlets) H1) as [sb [Hfill [Hin Hout]]].
  { intros s Hs. apply Hkeys0 in Hs. split; [exact Hs | now apply H2]. }
  exists sb. split; [exact Hfill|]. split.
  - intros s. rewrite <- Hkeys0. split.
    + intros Hm.
      destruct (in_dec Z.eq_dec s (keys (init_subbasins outlets)))
        as [H|H]; [exact H|].
      rewrite dict_mem_get in Hm. destruct Hm as [m Hm].
      rewrite (Hout s H) in Hm. apply dict_get_None in H. congruence.
    + intros Hs. destruct (Hin s Hs) as [m' [Hm' _]].
      apply dict_mem_get. now exists m'.
  - intros s members c Hs.
    destruct (in_dec Z.eq_dec s (keys (init_subbasins outlets))) as [H|H].
    + destruct (Hin s H) as [m' [Hm' Hd]].
      assert (m' = members) by congruence. subst m'. apply Hd.
    + rewrite (Hout s H) in Hs. apply dict_get_None in H. congruence.
Qed.

End SubbasinFacts.

(** ** The outlets that reach the subbasins *)

Lemma bind_Ok {A B : Type} (c : result A) (k : A -> result B) (b : B) :
  bind c k = Ok b -> exists a, c = Ok a /\ k a = Ok b.
Proof.
  destruct c as [a|e|]; simpl; try discriminate. intros H. now exists a.
Qed.

Lemma In_append_new (l : list Z) (x y : Z) :
  In y (append_new l x) <-> In y l \/ y = x.
Proof.
  unfold append_new. destruct (mem x l) eqn:E.
  - apply mem_In in E. split; [now left | intros [H| ->]; assumption].
  - rewrite in_app_iff. simpl. intuition congruence.
Qed.

Lemma fold_append_new_incl {A : Type} (g : A -> Z) (l : list A) :
  forall (o : list Z),
    incl o (fold_left (fun o x => append_new o (g x)) l o).
Proof.
  induction l as [|x l IH]; intros o; simpl; [apply incl_refl|].
  eapply incl_tran; [|apply IH]. intros y Hy. apply In_append_new. now left.
Qed.

Section ConnectFacts.

Variable fuel : nat.
Variable flowlines : Flowlines.
Variable hydroseqs : dict Z.

Lemma connect_outlet_incl (outlet : Z) (st st' : list Z * list Flowline) :
  connect_outlet fuel flowlines hydroseqs outlet st = Ok st' ->
  incl (fst st) (fst st').
Proof.
  unfold connect_outlet. destruct st as [o main].
  destruct (flowline_of flowlines hydroseqs outlet) as [f|e|]; simpl;
    try discriminate.
  destruct (dict_mem (down f) flowlines && negb (in_main f main)).
  - destruct (connect_down flowlines fuel f main) as [[f' main']|e|];
      simpl; try discriminate.
    destruct (mem (comid f') o); intros H; injection H as <-; simpl.
    + apply fold_append_new_incl.
    + eapply incl_tran; [|apply fold_append_new_incl].
      intros y Hy. apply in_or_app. now left.
  - intros H. injection H as <-. apply incl_refl.
Qed.

Lemma connect_outlets_incl (n : nat) :
  forall (i : nat) (st st' : list Z * list Flowline),
    connect_outlets fuel flowlines hydroseqs n i st = Ok st' ->
    incl (fst st) (fst st').
Proof.
  induction n as [|n IH]; intros i st st'; simpl; [discriminate|].
  destruct (nth_error (fst st) i) as [outlet|].
  - intros H. apply bind_Ok in H as [st1 [H1 H2]].
    eapply incl_tran;
      [eapply connect_outlet_incl; exact H1 | eapply IH; exact H2].
  - intros H. injection H as <-. apply incl_refl.
Qed.

End ConnectFacts.

Section KnownOutlets.

Variable fuel : nat.
Variable flowlines : Flowlines.
Variable hydroseqs : dict Z.
Variable inlets : list Z.
Variable drainmax : Z.

Lemma check_outlet_known (outlet : Z) (o o' : list Z) :
  check_outlet fuel flowlines hydroseqs inlets drainmax outlet o = Ok o' ->
  dict_mem outlet hydroseqs = true.
Proof.
  unfold check_outlet, flowline_of, getitem, dict_mem.
  destruct (dict_get outlet hydroseqs); [reflexivity | discriminate].
Qed.

Lemma check_outlets_known (n : nat) :
  forall (i : nat) (o : list Z),
    check_outlets fuel flowlines hydroseqs inlets drainmax n i o = Ok o ->
    forall j s, (i <= j)%nat -> nth_error o j = Some s ->
                dict_mem s hydroseqs = true.
Proof.
  induction n as [|n IH]; intros i o; simpl; [discriminate|].
  destruct (nth_error o i) as [outlet|] eqn:Ei.
  - intros H j s Hij Hj. apply bind_Ok in H as [o1 [H1 H2]].
    assert (o1 = o).
    { pose proof (check_outlet_extends _ _ _ _ _ _ _ _ H1) as E1.
      pose proof (check_outlets_extends _ _ _ _ _ _ _ _ _ H2) as E2.
      pose proof (extends_length _ _ _ E1).
      pose proof (extends_length _ _ _ E2).
      eapply extends_same_length; [exact E1 | lia]. }
    subst o1. destruct (Nat.eq_dec i j) as [->|Hne].
    + assert (s = outlet) by congruence. subst s.
      eapply check_outlet_known; exact H1.
    + apply (IH (S i) o H2 j s); [lia | exact Hj].
  - intros _ j s Hij Hj. exfalso.
    apply nth_error_None in Ei.
    assert (j < length o)%nat by (apply nth_error_Some; congruence). lia.
Qed.

Lemma subdivide_known (o o' : list Z) :
  subdivide fuel flowlines hydroseqs inlets drainmax o = Ok o' ->
  forall s, In s o' -> dict_mem s hydroseqs = true.
Proof.
  intros H s Hs. destruct (subdivide_fixed_point _ _ _ _ _ _ _ H) as [m [_ Hp]].
  apply In_nth_error in Hs as [j Hj].
  apply (check_outlets_known fuel 0 o' Hp j s); [lia | exact Hj].
Qed.

End KnownOutlets.

Lemma find_last_comid_known (flowlines : Flowlines) (max_area last : Z) :
  find_last_comid flowlines = Ok (max_area, last) ->
  dict_mem last (make_hydroseqs flowlines) = true.
Proof.
  unfold find_last_comid. intros H. apply bind_Ok in H as [m [_ H]].
  destruct (filter (fun f => drain f =? m) (values flowlines)) as [|f l] eqn:E;
    [discriminate|].
  injection H as _ <-.
  assert (Hin : In f (values flowlines)).
  { assert (Hf : In f (filter (fun f => drain f =? m) (values flowlines)))
      by (rewrite E; now left).
    apply filter_In in Hf. tauto. }
  unfold values in Hin. apply in_map_iff in Hin as [[k f'] [Ef Hin]].
  simpl in Ef. subst f'.
  destruct (make_hydroseqs_acc flowlines [] (NoDup_nil _)) as [_ [_ [H3 _]]].
  now apply (H3 k).
Qed.

Lemma add_second_outlets_marked (flowlines : Flowlines) (last : Z)
      (o1 o2 : list Z) :
  NoDup (keys flowlines) ->
  In last o1 ->
  add_second_outlets flowlines (make_hydroseqs flowlines) last o1 = Ok o2 ->
  incl o1 o2
  /\ (flowlines <> [] ->
      second_outlets_marked flowlines (make_hydroseqs flowlines) o2 last).
Proof.
  intros Hnd Hlast. unfold add_second_outlets.
  destruct flowlines as [|kv fl] eqn:Efl.
  - intros H. injection H as <-. split; [apply incl_refl | congruence].
  - rewrite <- Efl in *. intros H. apply bind_Ok in H as [lastf [Hl H]].
    injection H as <-. split.
    + intros x Hx. apply in_or_app. now left.
    + intros _ lastf' c h f Hl' Hc Hf Hd.
      assert (lastf' = lastf) by congruence. subst lastf'.
      apply in_or_app. destruct (Z.eq_dec c last) as [->|Hne];
        [now left | right].
      destruct (make_hydroseqs_sound _ _ _ Hnd Hc) as [f' [Hf' Hcf]].
      assert (f' = f) by congruence. subst f'. rewrite <- Hcf.
      apply in_map. apply filter_In. split.
      * unfold values. change f with (snd (h, f)). apply in_map.
        now apply dict_get_In.
      * apply andb_true_iff. split; [now apply Z.eqb_eq|].
        apply negb_true_iff. apply Z.eqb_neq. congruence.
Qed.

Lemma second_outlets_marked_incl (flowlines : Flowlines) (hydroseqs : dict Z)
      (o o' : list Z) (last : Z) :
  incl o o' ->
  second_outlets_marked flowlines hydroseqs o last ->
  second_outlets_marked flowlines hydroseqs o' last.
Proof.
  intros Hincl H lastf c h f Hl Hc Hf Hd. apply Hincl.
  exact (H lastf c h f Hl Hc Hf Hd).
Qed.

Lemma extends_incl (flowlines : Flowlines) (o o' : list Z) :
  extends flowlines o o' -> incl o o'.
Proof.
  intros [ext [-> _]] x Hx. apply in_or_app. now left.
Qed.

(** When every exit of the network is an outlet, every flowline drains to
    an outlet. *)
Lemma all_drain (flowlines : Flowlines) (outlets : list Z)
      (rank : Z -> nat) :
  NoDup (keys flowlines) -> NoDup (comids flowlines) ->
  down_ranked flowlines rank ->
  exits_are_outlets flowlines outlets ->
  forall (n : nat) (k : Z) (f : Flowline),
    (rank k < n)%nat -> dict_get k flowlines = Some f ->
    exists s, drains_to flowlines (make_hydroseqs flowlines) outlets
                        (comid f) s.
Proof.
  intros Hk Hc Hranked Hexits.
  induction n as [|n IH]; intros k f Hn Hf; [lia|].
  destruct (in_dec Z.eq_dec (comid f) outlets) as [Hin|Hnin].
  - exists (comid f). now constructor.
  - destruct (dict_get (down f) flowlines) as [g|] eqn:Eg.
    + pose proof (Hranked k f g Hf Eg) as Hr.
      destruct (IH (down f) g) as [s Hs]; [lia | exact Eg|].
      exists s. apply (drains_down _ _ _ (comid f) k f (comid g) s);
        try assumption; now apply make_hydroseqs_key.
    + exfalso. apply Hnin. apply (Hexits k f Hf).
      now apply dict_mem_false.
Qed.

(** C1, as the code has it.  For a network with distinct keys and no cycle
    of downstream references, whenever [make_subbasin_outlets] returns:
    the subbasins are those of the outlets; a comid is a member of the
    subbasin of [s] exactly when it drains to [s], that is when [s] is the
    first outlet on its way down; hence no comid is a member of two
    subbasins, and the comids that are members of a subbasin are those
    that drain to an outlet.  When moreover the comids are distinct and
    every flowline whose [down] is outside the network is an outlet, every
    loaded comid is a member of a subbasin: the subbasins partition the
    network.  Lines 1123-1149 return the subbasins for every list of
    outlets that are comids of the network and hold the flowlines that
    share the [down] of the watershed outlet. *)
Theorem subbasins_partition_drained :
  forall (fuel : nat) (a : Inputs) (d : Delineation)
         (rank : Z -> nat) (R : nat),
    NoDup (keys (flowlines a)) ->
    down_ranked (flowlines a) rank ->
    rank_bounded (flowlines a) rank R ->
    (R + 2 <= fuel)%nat ->
    make_subbasin_outlets fuel a = Ok d ->
    let drains := drains_to (flowlines a) (make_hydroseqs (flowlines a))
                            (outlets d) in
    (forall s, dict_mem s (subbasins d) = true <-> In s (outlets d))
    /\ (forall s members c,
          dict_get s (subbasins d) = Some members ->
          (In c members <-> drains c s))
    /\ (forall s1 s2 m1 m2 c,
          dict_get s1 (subbasins d) = Some m1 ->
          dict_get s2 (subbasins d) = Some m2 ->
          In c m1 -> In c m2 -> s1 = s2)
    /\ (forall c,
          (exists s members,
              dict_get s (subbasins d) = Some members /\ In c members)
          <-> exists s, drains c s)
    /\ (NoDup (comids (flowlines a)) ->
        exits_are_outlets (flowlines a) (outlets d) ->
        forall c, In c (comids (flowlines a)) ->
                  exists s members,
                    dict_get s (subbasins d) = Some members
                    /\ In c members)
    /\ (forall (o : list Z) (last_comid : Z),
          (forall s, In s o ->
                     dict_mem s (make_hydroseqs (flowlines a)) = true) ->
          dict_mem last_comid (make_hydroseqs (flowlines a)) = true ->
          second_outlets_marked (flowlines a)
                                (make_hydroseqs (flowlines a)) o last_comid ->
          exists sb,
            make_subbasins fuel (flowlines a) (make_hydroseqs (flowlines a))
                           o last_comid
            = Ok sb).
Proof.
  intros fuel a d rank R Hnd Hranked Hbounded Hfuel Hrun drains.
  unfold make_subbasin_outlets in Hrun.
  set (fl := flowlines a) in *. set (hs := make_hydroseqs fl) in *.
  apply bind_Ok in Hrun as [o0 [_ Hrun]].
  apply bind_Ok in Hrun as [gage_outlets [_ Hrun]].
  apply bind_Ok in Hrun as [[max_area last] [Hlast Hrun]].
  apply bind_Ok in Hrun as [o2 [Ho2 Hrun]].
  apply bind_Ok in Hrun as [main [_ Hrun]].
  apply bind_Ok in Hrun as [st [Hst Hrun]].
  apply bind_Ok in Hrun as [o3 [Ho3 Hrun]].
  apply bind_Ok in Hrun as [sb [Hsb Hrun]].
  injection Hrun as <-. simpl in drains. simpl.
  pose proof (find_last_comid_known _ _ _ Hlast) as Hknown_last.
  fold hs in Hknown_last.
  assert (Hne : fl <> []).
  { intros E. rewrite E in Hlast. discriminate Hlast. }
  destruct (add_second_outlets_marked fl last _ o2 Hnd
              (proj2 (In_append_new _ _ _) (or_intror eq_refl)) Ho2)
    as [_ Hmarked2].
  specialize (Hmarked2 Hne).
  assert (Hmarked : second_outlets_marked fl hs o3 last).
  { eapply second_outlets_marked_incl; [|exact Hmarked2].
    eapply incl_tran.
    - apply (connect_outlets_incl _ _ _ _ _ _ _ Hst).
    - eapply extends_incl.
      destruct (subdivide_fixed_point _ _ _ _ _ _ _ Ho3) as [m [Hg _]].
      eapply grows_extends; exact Hg. }
  pose proof (subdivide_known _ _ _ _ _ _ _ Ho3) as Hknown.
  pose proof (make_hydroseqs_NoDup fl) as Hkeys.
  assert (Hsound : forall c k, dict_get c hs = Some k ->
                     exists f, dict_get k fl = Some f /\ comid f = c)
    by (intros c k; apply make_hydroseqs_sound; exact Hnd).
  destruct (make_subbasins_spec fuel fl hs o3 Hkeys Hsound rank R Hranked
              Hbounded Hfuel Hknown last Hknown_last Hmarked)
    as [sb' [Hsb' [Hdom Hmem]]].
  assert (sb' = sb) by congruence. subst sb'.
  assert (Hcover : forall c,
            (exists s members, dict_get s sb = Some members /\ In c members)
            <-> exists s, drains c s).
  { intros c. split.
    - intros [s [members [Hs Hc]]]. exists s. now apply (Hmem s members).
    - intros [s Hs]. pose proof (drains_to_outlet _ _ _ _ _ Hs) as Ho.
      apply Hdom, dict_mem_get in Ho as [members Hm].
      exists s, members. split; [exact Hm | now apply (Hmem s members)]. }
  split; [exact Hdom|]. split; [exact Hmem|]. split; [|split; [|split]].
  - intros s1 s2 m1 m2 c H1 H2 Hc1 Hc2.
    apply (drains_to_functional fl hs o3 Hsound c).
    + now apply (Hmem s1 m1).
    + now apply (Hmem s2 m2).
  - exact Hcover.
  - intros Hcomids Hexits c Hc. apply Hcover.
    unfold comids, values in Hc. apply in_map_iff in Hc as [f [<- Hf]].
    apply in_map_iff in Hf as [[k f'] [E Hin]]. simpl in E. subst f'.
    apply (all_drain fl o3 rank Hnd Hcomids Hranked Hexits (S (rank k)) k f);
      [lia | now apply In_dict_get].
  - intros o last_comid Hko Hkl Hm.
    destruct (make_subbasins_spec fuel fl hs o Hkeys Hsound rank R Hranked
                Hbounded Hfuel Hko last_comid Hkl Hm) as [sb0 [Hsb0 _]].
    now exists sb0.
Qed.

Lemma down_rankedb_sound (flowlines : Flowlines) (rank : Z -> nat) :
  down_rankedb flowlines rank = true -> down_ranked flowlines rank.
Proof.
  unfold down_rankedb, down_ranked. intros H k f g Hk Hg.
  rewrite forallb_forall in H.
  specialize (H (k, f) (dict_get_In _ _ _ Hk)). simpl in H.
  rewrite Hk in H. unfold dict_mem in H. rewrite Hg in H.
  now apply Nat.ltb_lt.
Qed.

(** The theorem on the chain stored from its outlet upwards, where the
    only exit, flowline 105, is an outlet: every comid of the chain is a
    member of a subbasin. *)
Lemma subbasins_partition_drained_witness :
  Forall (fun c => exists s members,
                     dict_get s [(105, [105; 104]); (103, [103; 102; 101])]
                     = Some members
                     /\ In c members)
         (comids chain5).
Proof.
  apply Forall_forall.
  refine (proj1 (proj2 (proj2 (proj2 (proj2
            (subbasins_partition_drained 20 (chain_inputs chain5 25)
               (mkDelineation [105; 103]
                  [(105, [105; 104]); (103, [103; 102; 101])])
               (fun k => Z.to_nat (6 - k)) 5%nat _ _ _ _ _))))) _ _).
  - apply NoDup_check. reflexivity.
  - apply down_rankedb_sound. reflexivity.
  - apply rank_boundedb_sound. reflexivity.
  - simpl. lia.
  - reflexivity.
  - apply NoDup_check. reflexivity.
  - intros k f Hk Hd. apply dict_get_In in Hk. simpl in Hk.
    destruct Hk as [E|[E|[E|[E|[E|[]]]]]]; injection E as <- <-;
      simpl in *; try discriminate; auto.
Defined.

(** C1, as the claim has it, on the chain stored from its top downwards:
    flowlines 104 and 105 both hold the largest drainage area, the first
    of them, 104, is taken for the watershed outlet, and comid 105,
    downstream of it, is a member of no subbasin. *)
Lemma chain5_up_omits_flowline :
  exists d,
    make_subbasin_outlets 20 (chain_inputs chain5_up 25) = Ok d
    /\ In 105 (comids chain5_up)
    /\ forall s members,
         dict_get s (subbasins d) = Some members -> ~ In 105 members.
Proof.
  exists (mkDelineation [104; 103] [(104, [104]); (103, [103; 102; 101])]).
  split; [reflexivity|]. split; [simpl; tauto|].
  intros s members H. cbn [subbasins dict_get] in H.
  destruct (104 =? s); [injection H as <-; simpl; intuition discriminate|].
  destruct (103 =? s); [injection H as <-; simpl; intuition discriminate|].
  discriminate H.
Qed.

(** ** [find_subbasin_comids] *)

(** The search of [find_subbasin_comids] is the flood of the subbasins
    with no outlet to stop it. *)
Lemma search_round_select (flowlines : Flowlines) (last : list Z)
      (items : dict Z) :
  search_round flowlines last items
  = select_comids flowlines [] (fun f => mem (down f) last) items.
Proof.
  induction items as [|[c h] items IH]; simpl; [reflexivity|].
  destruct (getitem h flowlines) as [f|e|]; simpl; try reflexivity.
  rewrite IH. now rewrite andb_true_r.
Qed.

Lemma search_upstream_flood (flowlines : Flowlines) (hydroseqs : dict Z)
      (n : nat) :
  forall (found current : list Z),
    search_upstream flowlines hydroseqs n found current
    = flood flowlines hydroseqs [] n found current.
Proof.
  induction n as [|n IH]; intros found current; simpl; [reflexivity|].
  destruct current as [|h rest]; [reflexivity|].
  rewrite search_round_select.
  destruct (select_comids flowlines [] _ hydroseqs) as [sel|e|]; simpl;
    try reflexivity.
  apply IH.
Qed.

Lemma dict_mem_set {V : Type} (k k0 : Z) (v : V) (d : dict V) :
  dict_mem k0 (dict_set k v d) = true <-> k0 = k \/ dict_mem k0 d = true.
Proof.
  destruct (Z.eq_dec k0 k) as [->|Hne].
  - split; [now left|]. intros _. apply dict_mem_get. exists v.
    apply dict_get_set_eq.
  - unfold dict_mem. rewrite dict_get_set_neq by exact Hne. tauto.
Qed.

Section UpstreamFacts.

Variable flowlines : Flowlines.
Variable hydroseqs : dict Z.

Hypothesis Hkeys : NoDup (keys hydroseqs).
Hypothesis Hsound :
  forall c k, dict_get c hydroseqs = Some k ->
              exists f, dict_get k flowlines = Some f /\ comid f = c.

Variable outletcomid : Z.
Variable h0 : Z.
Hypothesis Houtlet : dict_get outletcomid hydroseqs = Some h0.

Lemma reached_upstream (k : nat) :
  forall h, reached flowlines hydroseqs [] [h0] k h ->
            exists c, dict_get c hydroseqs = Some h
                      /\ (c = outletcomid
                          \/ upstream_of flowlines hydroseqs outletcomid c).
Proof.
  induction k as [|k IH]; intros h; simpl.
  - intros [<-|[]]. exists outletcomid. split; [exact Houtlet | now left].
  - intros [c [f [Hin [Hf [_ Hr]]]]]. destruct (IH _ Hr) as [c' [Hc' Hup]].
    exists c. assert (Hc : dict_get c hydroseqs = Some h)
      by (now apply In_dict_get).
    split; [exact Hc|]. right. destruct Hup as [->|Hup].
    + eapply upstream_direct; eassumption.
    + eapply upstream_step; eassumption.
Qed.

Lemma flooded_upstream (c : Z) :
  flooded flowlines hydroseqs [] [h0] c
  <-> upstream_of flowlines hydroseqs outletcomid c.
Proof.
  split.
  - intros [k [h [f [Hin [Hf [_ Hr]]]]]].
    destruct (reached_upstream k _ Hr) as [c' [Hc' Hup]].
    assert (Hc : dict_get c hydroseqs = Some h) by (now apply In_dict_get).
    destruct Hup as [->|Hup].
    + eapply upstream_direct; eassumption.
    + eapply upstream_step; eassumption.
  - induction 1 as [c h f Hc Hf Hs|c h f c' Hc Hf Hc' Hup IH].
    + exists O, h, f. repeat split; try assumption.
      * now apply dict_get_In.
      * intros [].
      * simpl. left. congruence.
    + destruct IH as [k [h' [f' [Hin' [Hf' [_ Hr]]]]]].
      assert (Eh : h' = down f).
      { apply In_dict_get in Hin'; [congruence | exact Hkeys]. }
      subst h'. exists (S k), h, f. repeat split; try assumption.
      * now apply dict_get_In.
      * intros [].
      * exists c', f'. repeat split; try assumption. intros [].
Qed.

Lemma link_comids_keys (found : list Z) :
  forall (updown updown' : dict Z),
    link_comids flowlines hydroseqs found updown = Ok updown' ->
    forall c, dict_mem c updown' = true
              <-> dict_mem c updown = true \/ In c found.
Proof.
  induction found as [|c0 rest IH]; intros updown updown'; simpl.
  - intros H. injection H as <-. intros c. tauto.
  - destruct (flowline_of flowlines hydroseqs c0) as [f|e|]; simpl;
      try discriminate.
    destruct (dict_mem (down f) hydroseqs).
    + destruct (getitem (down f) hydroseqs) as [d|e|]; simpl;
        try discriminate.
      intros H c. rewrite (IH _ _ H c), dict_mem_set. intuition congruence.
    + intros H c. rewrite (IH _ _ H c), dict_mem_set. intuition congruence.
Qed.

Lemma link_comids_returns (found : list Z) :
  forall (updown : dict Z),
    (forall c, In c found -> dict_mem c hydroseqs = true) ->
    exists updown', link_comids flowlines hydroseqs found updown = Ok updown'.
Proof.
  induction found as [|c0 rest IH]; intros updown Hknown; simpl.
  - now exists updown.
  - pose proof (Hknown c0 (or_introl eq_refl)) as Hc.
    apply dict_mem_get in Hc as [h Hh].
    destruct (Hsound _ _ Hh) as [f [Hf _]].
    unfold flowline_of, getitem. rewrite Hh. simpl. rewrite Hf. simpl.
    destruct (dict_mem (down f) hydroseqs) eqn:Ed.
    + apply dict_mem_get in Ed as [d Hd]. rewrite Hd. simpl.
      apply IH. intros c Hin. apply Hknown. now right.
    + apply IH. intros c Hin. apply Hknown. now right.
Qed.

Lemma link_comids_values (found : list Z) :
  forall (updown updown' : dict Z),
    link_comids flowlines hydroseqs found updown = Ok updown' ->
    forall c v, dict_get c updown' = Some v ->
                (In c found /\ link_of flowlines hydroseqs c = Some v)
                \/ dict_get c updown = Some v.
Proof.
  induction found as [|c0 rest IH]; intros updown updown'; simpl.
  - intros H. injection H as <-. intros c v Hv. now right.
  - unfold flowline_of, getitem.
    destruct (dict_get c0 hydroseqs) as [h|] eqn:Eh; simpl;
      try discriminate.
    destruct (dict_get h flowlines) as [f|] eqn:Ef; simpl; try discriminate.
    assert (Hl : link_of flowlines hydroseqs c0
                 = Some (match dict_get (down f) hydroseqs with
                         | Some d => d
                         | None => 0
                         end)).
    { unfold link_of. rewrite Eh, Ef.
      destruct (dict_get (down f) hydroseqs); reflexivity. }
    unfold dict_mem.
    destruct (dict_get (down f) hydroseqs) as [d|] eqn:Ed; simpl;
      intros H c v Hv;
      (destruct (IH _ _ H c v Hv) as [[Hin Hlink]|Hset];
       [left; split; [now right | exact Hlink]|]);
      (destruct (Z.eq_dec c c0) as [->|Hne];
       [rewrite dict_get_set_eq in Hset; injection Hset as <-;
        left; split; [now left | exact Hl]
       |rewrite dict_get_set_neq in Hset by exact Hne; now right]).
Qed.

End UpstreamFacts.

(** X1.  When [find_subbasin_comids] returns, the keys of its dictionary
    are the outlet comid and the comids of the flowlines that flow into the
    outlet flowline through one or more [down] references: the flowlines
    upstream of the outlet, and no other. *)
Theorem find_subbasin_comids_upstream :
  forall (fuel : nat) (flowlines : Flowlines) (outletcomid : Z)
         (updown : dict Z),
    NoDup (keys flowlines) ->
    find_subbasin_comids fuel flowlines outletcomid = Ok updown ->
    forall c,
      dict_mem c updown = true
      <-> c = outletcomid
          \/ upstream_of flowlines (make_hydroseqs flowlines) outletcomid c.
Proof.
  intros fuel flowlines outletcomid updown Hnd Hrun c.
  unfold find_subbasin_comids in Hrun.
  set (hs := make_hydroseqs flowlines) in *.
  pose proof (make_hydroseqs_NoDup flowlines) as Hkeys. fold hs in Hkeys.
  assert (Hsound : forall c k, dict_get c hs = Some k ->
                     exists f, dict_get k flowlines = Some f /\ comid f = c)
    by (intros c1 k; apply make_hydroseqs_sound; exact Hnd).
  apply bind_Ok in Hrun as [h [Hh Hrun]].
  apply bind_Ok in Hrun as [found [Hfound Hrun]].
  apply bind_Ok in Hrun as [ud [Hud Hrun]].
  injection Hrun as <-.
  unfold getitem in Hh.
  destruct (dict_get outletcomid hs) as [h'|] eqn:Eh; [|discriminate].
  injection Hh as ->.
  rewrite search_upstream_flood in Hfound.
  pose proof (flood_spec flowlines hs [] Hkeys Hsound _ _ _ _ Hfound c)
    as Hspec.
  rewrite (flooded_upstream flowlines hs Hkeys outletcomid h Eh) in Hspec.
  rewrite dict_mem_set, (link_comids_keys _ _ _ _ _ Hud c), Hspec.
  simpl. unfold dict_mem. simpl. intuition congruence.
Qed.

(** The theorem on the chain: above flowline 103 are 102 and 101. *)
Lemma find_subbasin_comids_upstream_witness :
  find_subbasin_comids 20 chain5 103 = Ok [(103, 0); (102, 0); (101, 0)]
  /\ (dict_mem 101 [(103, 0); (102, 0); (101, 0)] = true
      <-> 101 = 103
          \/ upstream_of chain5 (make_hydroseqs chain5) 103 101).
Proof.
  split; [reflexivity|].
  apply (find_subbasin_comids_upstream 20 chain5 103).
  - apply NoDup_check. reflexivity.
  - reflexivity.
Defined.

(** X2.  In a network with no cycle of [down] references and with an
    iteration budget above its depth, [find_subbasin_comids] returns a
    dictionary for every outlet that is a comid of the network; for any
    other outlet it raises [KeyError], whatever the network. *)
Theorem find_subbasin_comids_returns :
  forall (fuel : nat) (flowlines : Flowlines) (rank : Z -> nat) (R : nat)
         (outletcomid : Z),
    NoDup (keys flowlines) ->
    down_ranked flowlines rank ->
    rank_bounded flowlines rank R ->
    (R + 2 <= fuel)%nat ->
    (In outletcomid (comids flowlines) ->
     exists updown, find_subbasin_comids fuel flowlines outletcomid
                    = Ok updown)
    /\ (~ In outletcomid (comids flowlines) ->
        find_subbasin_comids fuel flowlines outletcomid = Raise KeyError).
Proof.
  intros fuel flowlines rank R outletcomid Hnd Hranked Hbounded Hfuel.
  unfold find_subbasin_comids.
  set (hs := make_hydroseqs flowlines).
  pose proof (make_hydroseqs_NoDup flowlines) as Hkeys. fold hs in Hkeys.
  assert (Hsound : forall c k, dict_get c hs = Some k ->
                     exists f, dict_get k flowlines = Some f /\ comid f = c)
    by (intros c1 k; apply make_hydroseqs_sound; exact Hnd).
  split.
  - intros Hin. unfold comids, values in Hin.
    apply in_map_iff in Hin as [f [Hc Hin]].
    apply in_map_iff in Hin as [[k f'] [E Hin]]. simpl in E. subst f'.
    pose proof (make_hydroseqs_In flowlines k f Hin) as Hm.
    rewrite Hc in Hm. fold hs in Hm. apply dict_mem_get in Hm as [h Hh].
    unfold getitem. rewrite Hh. simpl.
    rewrite search_upstream_flood.
    destruct fuel as [|n]; [lia|].
    destruct (flood_returns flowlines hs [] Hkeys Hsound n [outletcomid] [h])
      as [found Hfound].
    { apply (reached_none flowlines hs [] rank R Hranked Hbounded); [|lia].
      intros h' [<-|[]]. destruct (Hsound _ _ Hh) as [g [Hg _]].
      apply dict_mem_get. now exists g. }
    rewrite Hfound. simpl.
    destruct (link_comids_returns flowlines hs Hsound found [])
      as [ud Hud].
    { intros c Hc'.
      apply (flood_spec flowlines hs [] Hkeys Hsound _ _ _ _ Hfound) in Hc'.
      destruct Hc' as [[<-|[]]|[k' [h' [f' [Hin' _]]]]].
      - apply dict_mem_get. now exists h.
      - apply dict_mem_get. exists h'. now apply In_dict_get. }
    rewrite Hud. simpl. eexists. reflexivity.
  - intros Hnin. unfold getitem.
    destruct (dict_get outletcomid hs) as [h|] eqn:Eh; [|reflexivity].
    exfalso. apply Hnin. destruct (Hsound _ _ Eh) as [f [Hf <-]].
    now apply (dict_get_comids flowlines h).
Qed.

(** The theorem on the chain: flowline 103 is a comid of it and 999 is
    not. *)
Lemma find_subbasin_comids_returns_witness :
  (exists updown, find_subbasin_comids 20 chain5 103 = Ok updown)
  /\ find_subbasin_comids 20 chain5 999 = Raise KeyError.
Proof.
  destruct (find_subbasin_comids_returns 20 chain5
              (fun k => Z.to_nat (6 - k)) 5%nat 103) as [H1 _];
    [apply NoDup_check; reflexivity | apply down_rankedb_sound; reflexivity
    | apply rank_boundedb_sound; reflexivity | simpl; lia |].
  split; [apply H1; simpl; tauto | reflexivity].
Defined.

(** X3.  The dictionary that [find_subbasin_comids] returns maps the outlet
    to 0; it maps any other comid to the value stored in [hydroseqs] under
    the [down] of its flowline, read as a comid, and to 0 when [hydroseqs]
    has no such key.  Hence, in a network where no [down] reference is also
    the comid of a flowline, every value of the dictionary is 0. *)
Theorem find_subbasin_comids_values :
  forall (fuel : nat) (flowlines : Flowlines) (outletcomid : Z)
         (updown : dict Z),
    let hydroseqs := make_hydroseqs flowlines in
    find_subbasin_comids fuel flowlines outletcomid = Ok updown ->
    dict_get outletcomid updown = Some 0
    /\ (forall c v,
          dict_get c updown = Some v -> c <> outletcomid ->
          exists h f,
            dict_get c hydroseqs = Some h
            /\ dict_get h flowlines = Some f
            /\ v = match dict_get (down f) hydroseqs with
                   | Some d => d
                   | None => 0
                   end)
    /\ ((forall f, In f (values flowlines) ->
                   ~ In (down f) (comids flowlines)) ->
        forall c v, dict_get c updown = Some v -> v = 0).
Proof.
  intros fuel flowlines outletcomid updown hydroseqs Hrun.
  unfold find_subbasin_comids in Hrun. fold hydroseqs in Hrun.
  apply bind_Ok in Hrun as [h [Hh Hrun]].
  apply bind_Ok in Hrun as [found [Hfound Hrun]].
  apply bind_Ok in Hrun as [ud [Hud Hrun]].
  injection Hrun as <-.
  assert (Hval : forall c v,
            dict_get c (dict_set outletcomid 0 ud) = Some v ->
            c <> outletcomid ->
            exists h f,
              dict_get c hydroseqs = Some h
              /\ dict_get h flowlines = Some f
              /\ v = match dict_get (down f) hydroseqs with
                     | Some d => d
                     | None => 0
                     end).
  { intros c v Hv Hne. rewrite dict_get_set_neq in Hv by exact Hne.
    destruct (link_comids_values _ _ _ _ _ Hud c v Hv) as [[_ Hl]|Hnil];
      [|discriminate].
    unfold link_of in Hl.
    destruct (dict_get c hydroseqs) as [hc|] eqn:Ec; [|discriminate].
    destruct (dict_get hc flowlines) as [f|] eqn:Ef; [|discriminate].
    exists hc, f. split; [reflexivity|]. split; [exact Ef|].
    destruct (dict_get (down f) hydroseqs); congruence. }
  split; [apply dict_get_set_eq|]. split; [exact Hval|].
  intros Hdisjoint c v Hv. destruct (Z.eq_dec c outletcomid) as [->|Hne].
  - rewrite dict_get_set_eq in Hv. congruence.
  - destruct (Hval c v Hv Hne) as [hc [f [Hc [Hf ->]]]].
    destruct (dict_get (down f) hydroseqs) as [d|] eqn:Ed; [|reflexivity].
    exfalso. apply (Hdisjoint f).
    + unfold values. change f with (snd (hc, f)). apply in_map.
      now apply dict_get_In.
    + destruct (make_hydroseqs_acc flowlines [] (NoDup_nil _))
        as [_ [H2 _]].
      destruct (H2 (down f) d Ed) as [[g [Hin Hg]]|Hacc]; [|discriminate].
      rewrite <- Hg. unfold comids, values. apply in_map.
      change g with (snd (d, g)). now apply in_map.
Qed.

(** The theorem on the chain, whose hydroseqs run from 1 to 5 and whose
    comids run from 101 to 105. *)
Lemma find_subbasin_comids_values_witness :
  Forall (fun cv => snd cv = 0) [(103, 0); (102, 0); (101, 0)].
Proof.
  apply Forall_forall. intros [c v] Hcv. simpl.
  refine (proj2 (proj2 (find_subbasin_comids_values 20 chain5 103
                          [(103, 0); (102, 0); (101, 0)] _)) _ c v _).
  - reflexivity.
  - intros f Hf. simpl in Hf.
    destruct Hf as [<-|[<-|[<-|[<-|[<-|[]]]]]]; simpl; intuition discriminate.
  - apply In_dict_get; [apply NoDup_check; reflexivity | exact Hcv].
Defined.

(** ** The watershed outlet *)

Lemma fold_max_ge (l : list Z) :
  forall x, x <= fold_left Z.max l x
            /\ forall y, In y l -> y <= fold_left Z.max l x.
Proof.
  induction l as [|a l IH]; intros x; simpl.
  - split; [lia | intros y []].
  - destruct (IH (Z.max x a)) as [H1 H2]. split; [lia|].
    intros y [<-|Hy]; [lia | now apply H2].
Qed.

Lemma fold_max_In (l : list Z) :
  forall x, In (fold_left Z.max l x) (x :: l).
Proof.
  induction l as [|a l IH]; intros x; simpl; [now left|].
  destruct (IH (Z.max x a)) as [H|H].
  - destruct (Z.max_spec x a) as [[_ E]|[_ E]]; rewrite E in *.
    + right. now left.
    + now left.
  - right. now right.
Qed.

Lemma filter_first {A : Type} (p : A -> bool) (l : list A) (x : A)
      (rest : list A) :
  filter p l = x :: rest ->
  exists before after,
    l = before ++ x :: after /\ p x = true
    /\ forall y, In y before -> p y = false.
Proof.
  induction l as [|a l IH]; simpl; [discriminate|].
  destruct (p a) eqn:Ea.
  - intros H. injection H as -> _. exists [], l.
    repeat split; [exact Ea | intros y []].
  - intros H. destruct (IH H) as [before [after [-> [Hx Hb]]]].
    exists (a :: before), after. repeat split; [exact Hx|].
    intros y [<-|Hy]; [exact Ea | now apply Hb].
Qed.

(** X7.  The watershed outlet of lines 979-981 is the flowline of largest
    total drainage area, the first one in the order of the dictionary when
    several hold that area; on an empty network [max] raises
    [ValueError]. *)
Theorem find_last_comid_largest :
  forall (flowlines : Flowlines),
    (flowlines = [] -> find_last_comid flowlines = Raise ValueError)
    /\ (flowlines <> [] ->
        exists before f after,
          values flowlines = before ++ f :: after
          /\ find_last_comid flowlines = Ok (drain f, comid f)
          /\ (forall g, In g (values flowlines) -> drain g <= drain f)
          /\ (forall g, In g before -> drain g < drain f)).
Proof.
  intros flowlines. split; [intros ->; reflexivity|].
  intros Hne. unfold find_last_comid.
  destruct (values flowlines) as [|f0 fs] eqn:Ev.
  { destruct flowlines; [congruence | discriminate]. }
  simpl py_max. cbn [bind].
  set (m := fold_left Z.max (map drain fs) (drain f0)).
  assert (Hge : forall g, In g (f0 :: fs) -> drain g <= m).
  { intros g [<-|Hg].
    - exact (proj1 (fold_max_ge (map drain fs) (drain f0))).
    - apply (proj2 (fold_max_ge (map drain fs) (drain f0))).
      now apply in_map. }
  assert (Hin : exists g, In g (f0 :: fs) /\ drain g = m).
  { pose proof (fold_max_In (map drain fs) (drain f0)) as H.
    change (drain f0 :: map drain fs) with (map drain (f0 :: fs)) in H.
    apply in_map_iff in H as [g [Hg Hin]]. now exists g. }
  destruct (filter (fun f => drain f =? m) (f0 :: fs)) as [|f rest] eqn:Ef.
  - exfalso. destruct Hin as [g [Hg Hm]].
    assert (H : In g (filter (fun f => drain f =? m) (f0 :: fs))).
    { apply filter_In. split; [exact Hg | now apply Z.eqb_eq]. }
    rewrite Ef in H. destruct H.
  - destruct (filter_first _ _ _ _ Ef) as [before [after [El [Hf Hb]]]].
    apply Z.eqb_eq in Hf. exists before, f, after.
    split; [exact El|]. split; [now rewrite Hf|]. split.
    + intros g Hg. rewrite Hf. now apply Hge.
    + intros g Hg. rewrite Hf.
      assert (drain g <= m).
      { apply Hge. rewrite El. apply in_or_app. now left. }
      pose proof (Hb g Hg) as Hn. apply Z.eqb_neq in Hn. lia.
Qed.

(** ** Failures of the outlet selection *)

Lemma make_hydroseqs_unknown (flowlines : Flowlines) (c : Z) :
  ~ In c (comids flowlines) ->
  dict_get c (make_hydroseqs flowlines) = None.
Proof.
  intros Hnin.
  destruct (dict_get c (make_hydroseqs flowlines)) as [k|] eqn:E;
    [|reflexivity].
  exfalso. apply Hnin.
  destruct (make_hydroseqs_acc flowlines [] (NoDup_nil _)) as [_ [H2 _]].
  destruct (H2 c k E) as [[f [Hin <-]]|Hacc]; [|discriminate].
  unfold comids, values. apply in_map. change f with (snd (k, f)).
  now apply in_map.
Qed.

(** X9.  On an empty network [make_subbasin_outlets] raises, whatever the
    extra outlets and the iteration budget: [NameError] for a delineator
    with a dam file or a gage file, at the call of [find_flowlines] of
    line 885 or 907, and otherwise [ValueError] at the [max] of line
    979. *)
Theorem empty_network_raises :
  forall (fuel : nat) (a : Inputs),
    flowlines a = [] ->
    make_subbasin_outlets fuel a
    = Raise (match dams a, gages a with
             | None, None => ValueError
             | _, _ => NameError
             end).
Proof.
  intros fuel a Hfl. unfold make_subbasin_outlets. rewrite Hfl.
  destruct (dams a), (gages a); reflexivity.
Qed.

(** The theorem for a call with two extra outlets, without dam and gage
    files. *)
Lemma empty_network_raises_witness :
  make_subbasin_outlets 20
    (mkInputs [] (Some [101; 102]) None None String.EmptyString None None)
  = Raise ValueError.
Proof.
  apply (empty_network_raises 20
           (mkInputs [] (Some [101; 102]) None None String.EmptyString
                     None None)).
  reflexivity.
Defined.

(** ** The main channel *)

Lemma flowline_eqb_eq (f g : Flowline) : flowline_eqb f g = true <-> f = g.
Proof.
  unfold flowline_eqb. rewrite !andb_true_iff, !Z.eqb_eq.
  destruct f, g; simpl. split.
  - intros [[[[[-> ->] ->] ->] ->] ->]. reflexivity.
  - intros E. injection E as -> -> -> -> -> ->. tauto.
Qed.

Lemma in_main_In (f : Flowline) (main : list Flowline) :
  in_main f main = true <-> In f main.
Proof.
  unfold in_main. rewrite existsb_exists. split.
  - intros [g [Hg E]]. apply flowline_eqb_eq in E. now subst.
  - intros H. exists f. split; [exact H | now apply flowline_eqb_eq].
Qed.

Lemma in_main_not_In (f : Flowline) (main : list Flowline) :
  in_main f main = false <-> ~ In f main.
Proof.
  rewrite <- in_main_In. destruct (in_main f main); split; congruence.
Qed.

Lemma In_main_add (main : list Flowline) (f g : Flowline) :
  In g (main_add main f) <-> In g main \/ g = f.
Proof.
  unfold main_add. destruct (in_main f main) eqn:E.
  - apply in_main_In in E. split; [now left | intros [H| ->]; assumption].
  - rewrite in_app_iff. simpl. intuition congruence.
Qed.

Lemma NoDup_main_add (main : list Flowline) (f : Flowline) :
  NoDup main -> NoDup (main_add main f).
Proof.
  intros H. unfold main_add. destruct (in_main f main) eqn:E; [exact H|].
  apply in_main_not_In in E. apply NoDup_app; [exact H | |].
  - constructor; [intros [] | constructor].
  - intros x Hx [<-|[]]. contradiction.
Qed.

Section MainChannelFacts.

Variable flowlines : Flowlines.

Lemma below_cases (f g : Flowline) :
  below flowlines f g
  <-> exists next, dict_get (down f) flowlines = Some next
                   /\ (g = next \/ below flowlines next g).
Proof.
  split.
  - intros H. inversion H as [f' g' Hd|f' next g' Hd Hb]; subst.
    + exists g. split; [exact Hd | now left].
    + exists next. split; [exact Hd | now right].
  - intros [next [Hd [->|Hb]]].
    + now apply below_next.
    + eapply below_step; eassumption.
Qed.

Lemma below_snoc (f g h : Flowline) :
  below flowlines f g -> dict_get (down g) flowlines = Some h ->
  below flowlines f h.
Proof.
  intros H Hd. induction H as [f g Hfg|f next g Hfn Hb IH].
  - eapply below_step; [exact Hfg | now apply below_next].
  - eapply below_step; [exact Hfn | now apply IH].
Qed.

Lemma below_known (f g : Flowline) :
  below flowlines f g -> In g (values flowlines).
Proof.
  assert (Hk : forall k h, dict_get k flowlines = Some h ->
                           In h (values flowlines)).
  { intros k h H. unfold values. change h with (snd (k, h)).
    apply in_map. now apply dict_get_In. }
  induction 1 as [f g Hd|f next g Hd Hb IH]; [now apply (Hk (down f)) |
                                               exact IH].
Qed.

Lemma trace_down_spec (n : nat) :
  forall (f : Flowline) (main main' : list Flowline),
    trace_down flowlines n f main = Ok main' ->
    (forall g, In g main' <-> In g main \/ below flowlines f g)
    /\ (NoDup main -> NoDup main').
Proof.
  induction n as [|n IH]; intros f main main'; simpl; [discriminate|].
  destruct (dict_get (down f) flowlines) as [next|] eqn:Ed.
  - intros H. destruct (IH _ _ _ H) as [Hin Hnd]. split.
    + intros g. rewrite Hin, In_main_add.
      assert (Hb : below flowlines f g
                   <-> g = next \/ below flowlines next g).
      { rewrite below_cases. split.
        - intros [next' [E Hg]]. assert (next' = next) by congruence.
          now subst.
        - intros Hg. now exists next. }
      rewrite Hb. tauto.
    + intros Hm. apply Hnd. now apply NoDup_main_add.
  - intros H. injection H as <-. split; [|tauto].
    intros g. split; [now left|].
    intros [Hg|Hb]; [exact Hg|].
    apply below_cases in Hb as [next [E _]]. congruence.
Qed.

Lemma trace_down_fuel (rank : Z -> nat) (n : nat) :
  down_ranked flowlines rank ->
  forall (k : Z) (f : Flowline) (main : list Flowline),
    dict_get k flowlines = Some f -> (rank k < n)%nat ->
    exists main', trace_down flowlines n f main = Ok main'.
Proof.
  intros Hranked. induction n as [|n IH]; intros k f main Hf Hn; [lia|].
  simpl. destruct (dict_get (down f) flowlines) as [next|] eqn:Ed.
  - apply (IH (down f)); [exact Ed|].
    pose proof (Hranked k f next Hf Ed). lia.
  - now exists main.
Qed.

Variable hydroseqs : dict Z.

Lemma trace_inlets_spec (fuel : nat) (inlets : list Z) :
  forall (main main' : list Flowline),
    trace_inlets fuel flowlines hydroseqs inlets main = Ok main' ->
    closed_downstream flowlines main ->
    NoDup main ->
    incl main (values flowlines) ->
    closed_downstream flowlines main'
    /\ NoDup main'
    /\ incl main' (values flowlines)
    /\ incl main main'
    /\ forall inlet, In inlet inlets ->
                     exists f, flowline_of flowlines hydroseqs inlet = Ok f
                               /\ In f main'.
Proof.
  induction inlets as [|inlet rest IH]; intros main main'; simpl.
  - intros H Hc Hnd Hk. injection H as <-.
    repeat split; try assumption; [apply incl_refl | intros i []].
  - intros H Hc Hnd Hk. apply bind_Ok in H as [f [Hf H]].
    apply bind_Ok in H as [main1 [H1 H]].
    destruct (trace_down_spec _ _ _ _ H1) as [Hin1 Hnd1].
    assert (Hfk : In f (values flowlines)).
    { unfold flowline_of in Hf. apply bind_Ok in Hf as [h [_ Hf]].
      unfold getitem in Hf.
      destruct (dict_get h flowlines) as [f'|] eqn:E; [|discriminate].
      injection Hf as <-. unfold values. change f' with (snd (h, f')).
      apply in_map. now apply dict_get_In. }
    destruct (IH _ _ H) as [Hc' [Hnd' [Hk' [Hincl' Hall]]]].
    + intros x y Hx Hd. apply Hin1.
      apply Hin1 in Hx as [Hx|Hx].
      * apply In_main_add in Hx as [Hx| ->].
        -- left. apply In_main_add. left. now apply (Hc x).
        -- right. now apply below_next.
      * right. eapply below_snoc; eassumption.
    + apply Hnd1. now apply NoDup_main_add.
    + intros x Hx. apply Hin1 in Hx as [Hx|Hx].
      * apply In_main_add in Hx as [Hx| ->]; [now apply Hk | exact Hfk].
      * eapply below_known. exact Hx.
    + assert (Hsub : incl main main1).
      { intros x Hx. apply Hin1. left. apply In_main_add. now left. }
      repeat split; try assumption.
      * eapply incl_tran; eassumption.
      * intros i [<-|Hi]; [|now apply Hall].
        exists f. split; [exact Hf|]. apply Hincl'. apply Hin1. left.
        apply In_main_add. now right.
Qed.

Lemma find_inlets_nil :
  find_inlets flowlines = [] ->
  forall k f, dict_get k flowlines = Some f ->
              up f = 0 \/ dict_mem (up f) flowlines = true.
Proof.
  unfold find_inlets. intros H k f Hf.
  destruct (dict_mem (up f) flowlines) eqn:Em; [now right | left].
  destruct (Z.eqb_spec (up f) 0) as [E|Hne]; [exact E | exfalso].
  assert (Hin : In (comid f)
                   (map comid
                      (filter (fun f => negb (dict_mem (up f) flowlines)
                                        && negb (up f =? 0))
                              (values flowlines)))).
  { apply in_map. apply filter_In. split.
    - unfold values. change f with (snd (k, f)). apply in_map.
      now apply dict_get_In.
    - rewrite Em. simpl. apply negb_true_iff. now apply Z.eqb_neq. }
  rewrite H in Hin. destruct Hin.
Qed.

Lemma last_nonempty {A : Type} (l : list A) :
  forall (a d d' : A), last (a :: l) d = last (a :: l) d'.
Proof.
  induction l as [|b l IH]; intros a d d'; [reflexivity|].
  change (last (b :: l) d = last (b :: l) d'). apply IH.
Qed.

Lemma up_chain_app (l : list Flowline) :
  forall (f g : Flowline),
    up_chain flowlines (l ++ [f]) ->
    dict_get (up f) flowlines = Some g ->
    up_chain flowlines ((l ++ [f]) ++ [g]).
Proof.
  induction l as [|a l IH]; intros f g Hc Hg; simpl.
  - split; [exact Hg | exact I].
  - destruct l as [|b l]; simpl in *.
    + destruct Hc as [Ha _]. repeat split; assumption.
    + destruct Hc as [Ha Hc]. split; [exact Ha|]. now apply IH.
Qed.

Lemma trace_up_spec (rank : Z -> nat) (n : nat) :
  up_ranked flowlines rank ->
  (forall k f, dict_get k flowlines = Some f ->
               up f = 0 \/ dict_mem (up f) flowlines = true) ->
  forall (k : Z) (f : Flowline) (l : list Flowline),
    dict_get k flowlines = Some f -> (rank k < n)%nat ->
    up_chain flowlines (l ++ [f]) ->
    exists tail,
      trace_up flowlines n f (l ++ [f]) = Ok ((l ++ [f]) ++ tail)
      /\ up_chain flowlines ((l ++ [f]) ++ tail)
      /\ up (last tail f) = 0.
Proof.
  intros Hranked Hclosed.
  induction n as [|n IH]; intros k f l Hf Hn Hc; [lia|].
  simpl. destruct (Z.eqb_spec (up f) 0) as [E|Hne].
  - exists []. rewrite app_nil_r. repeat split; assumption.
  - destruct (Hclosed k f Hf) as [E|Hm]; [contradiction|].
    apply dict_mem_get in Hm as [g Hg]. unfold getitem. rewrite Hg. simpl.
    destruct (IH (up f) g (l ++ [f]) Hg) as [tail [Ht [Hc' Hl]]].
    + pose proof (Hranked k f g Hf Hg). lia.
    + now apply up_chain_app.
    + assert (E : ((l ++ [f]) ++ [g]) ++ tail = (l ++ [f]) ++ g :: tail)
        by (now rewrite <- app_assoc).
      rewrite E in Ht, Hc'. exists (g :: tail).
      split; [exact Ht|]. split; [exact Hc'|].
      rewrite (last_nonempty tail g f g). destruct tail; exact Hl.
Qed.

End MainChannelFacts.

(** X10.  With inlets, the main channel of lines 996-1002 holds the
    flowline of every inlet and, with each of its flowlines, the flowline
    downstream of it; its members are flowlines of the network and none is
    there twice. *)
Theorem main_channel_closed :
  forall (fuel : nat) (flowlines : Flowlines) (hydroseqs : dict Z)
         (inlets : list Z) (last_comid : Z) (main : list Flowline),
    inlets <> [] ->
    make_main fuel flowlines hydroseqs inlets last_comid = Ok main ->
    closed_downstream flowlines main
    /\ NoDup main
    /\ incl main (values flowlines)
    /\ forall inlet, In inlet inlets ->
                     exists f, flowline_of flowlines hydroseqs inlet = Ok f
                               /\ In f main.
Proof.
  intros fuel flowlines hydroseqs inlets last_comid main Hne H.
  unfold make_main in H. apply bind_Ok in H as [main0 [H0 H]].
  destruct inlets as [|i rest]; [congruence|]. injection H as <-.
  destruct (trace_inlets_spec flowlines hydroseqs fuel _ _ _ H0)
    as [Hc [Hnd [Hk [_ Hall]]]].
  - intros f g [].
  - constructor.
  - intros x [].
  - repeat split; assumption.
Qed.

(** A chain that enters the network at flowline 1, whose [up] is outside
    it: the inlet is 101 and the main channel is the whole chain. *)
Lemma main_channel_closed_witness :
  closed_downstream chain4_inlet
    (map snd (rev chain4_inlet))
  /\ NoDup (map snd (rev chain4_inlet))
  /\ incl (map snd (rev chain4_inlet)) (values chain4_inlet)
  /\ Forall (fun inlet =>
               exists f, flowline_of chain4_inlet
                                     (make_hydroseqs chain4_inlet) inlet
                         = Ok f
                         /\ In f (map snd (rev chain4_inlet)))
            [401].
Proof.
  destruct (main_channel_closed 10 chain4_inlet
              (make_hydroseqs chain4_inlet) [401] 404
              (map snd (rev chain4_inlet)))
    as [H1 [H2 [H3 H4]]]; [discriminate | reflexivity |].
  repeat split; try assumption. apply Forall_forall. exact H4.
Defined.

(** X11.  Without inlets, in a network with no cycle of [up] references,
    the main channel of lines 1006-1011 is built within the iteration
    budget and without a failed lookup: it starts at the flowline of the
    watershed outlet, each of its flowlines is followed by the flowline
    its [up] refers to, and it ends at a flowline whose [up] is 0. *)
Theorem main_channel_no_inlets :
  forall (fuel : nat) (flowlines : Flowlines) (rank : Z -> nat) (R : nat)
         (last_comid : Z),
    let hydroseqs := make_hydroseqs flowlines in
    NoDup (keys flowlines) ->
    up_ranked flowlines rank ->
    rank_bounded flowlines rank R ->
    (R < fuel)%nat ->
    find_inlets flowlines = [] ->
    In last_comid (comids flowlines) ->
    exists f tail,
      flowline_of flowlines hydroseqs last_comid = Ok f
      /\ make_main fuel flowlines hydroseqs (find_inlets flowlines)
                   last_comid
         = Ok (f :: tail)
      /\ up_chain flowlines (f :: tail)
      /\ up (last tail f) = 0.
Proof.
  intros fuel flowlines rank R last_comid hydroseqs Hnd Hranked Hbounded
         Hfuel Hin Hlast.
  rewrite Hin. unfold make_main. simpl.
  unfold comids, values in Hlast.
  apply in_map_iff in Hlast as [f0 [Hc Hl]].
  apply in_map_iff in Hl as [[k0 f0'] [E Hl]]. simpl in E. subst f0'.
  pose proof (make_hydroseqs_In flowlines k0 f0 Hl) as Hm.
  rewrite Hc in Hm. fold hydroseqs in Hm. apply dict_mem_get in Hm as [h Hh].
  destruct (make_hydroseqs_sound flowlines _ _ Hnd Hh) as [f [Hf _]].
  assert (Hfl : flowline_of flowlines hydroseqs last_comid = Ok f).
  { unfold flowline_of, getitem. rewrite Hh. simpl. now rewrite Hf. }
  rewrite Hfl. simpl.
  destruct (trace_up_spec flowlines rank fuel Hranked
              (find_inlets_nil flowlines Hin) h f [] Hf)
    as [tail [Ht [Hchain Hend]]].
  - pose proof (Hbounded h f Hf). lia.
  - exact I.
  - exists f, tail. simpl in Ht, Hchain. repeat split; assumption.
Qed.

(** The theorem on the chain, from the watershed outlet 105 up to
    flowline 101. *)
Lemma main_channel_no_inlets_witness :
  exists f tail,
    flowline_of chain5 (make_hydroseqs chain5) 105 = Ok f
    /\ make_main 6 chain5 (make_hydroseqs chain5) (find_inlets chain5) 105
       = Ok (f :: tail)
    /\ up_chain chain5 (f :: tail)
    /\ up (last tail f) = 0.
Proof.
  apply (main_channel_no_inlets 6 chain5 (fun k => Z.to_nat k) 5%nat 105).
  - apply NoDup_check. reflexivity.
  - apply up_rankedb_sound. reflexivity.
  - apply rank_boundedb_sound. reflexivity.
  - lia.
  - reflexivity.
  - simpl. tauto.
Defined.

(** ** The connectivity step *)

Lemma values_known (flowlines : Flowlines) (k : Z) (f : Flowline) :
  dict_get k flowlines = Some f -> In f (values flowlines).
Proof.
  intros H. unfold values. change f with (snd (k, f)). apply in_map.
  now apply dict_get_In.
Qed.

Lemma flowline_of_known (flowlines : Flowlines) (hydroseqs : dict Z)
      (c : Z) (f : Flowline) :
  flowline_of flowlines hydroseqs c = Ok f ->
  exists h, dict_get c hydroseqs = Some h /\ dict_get h flowlines = Some f.
Proof.
  unfold flowline_of, getitem.
  destruct (dict_get c hydroseqs) as [h|]; simpl; [|discriminate].
  destruct (dict_get h flowlines) as [f'|] eqn:E; [|discriminate].
  intros H. injection H as <-. now exists h.
Qed.

Lemma flowline_of_result (flowlines : Flowlines) (hydroseqs : dict Z)
      (c : Z) :
  (exists f, flowline_of flowlines hydroseqs c = Ok f)
  \/ flowline_of flowlines hydroseqs c = Raise KeyError.
Proof.
  unfold flowline_of, getitem.
  destruct (dict_get c hydroseqs) as [h|]; simpl; [|now right].
  destruct (dict_get h flowlines) as [f|]; [left; now exists f | now right].
Qed.

Section ConnectivityFacts.

Variable fuel : nat.
Variable flowlines : Flowlines.
Variable hydroseqs : dict Z.

Lemma connect_down_known (n : nat) :
  forall (f f' : Flowline) (main main' : list Flowline),
    connect_down flowlines n f main = Ok (f', main') ->
    In f (values flowlines) -> In f' (values flowlines).
Proof.
  induction n as [|n IH]; intros f f' main main'; simpl; [discriminate|].
  unfold getitem.
  destruct (dict_get (down f) flowlines) as [next|] eqn:Ed; simpl;
    [|discriminate].
  pose proof (values_known _ _ _ Ed) as Hnext.
  destruct (in_main next main).
  - intros H. injection H as <- _. tauto.
  - destruct (dict_mem (down next) flowlines).
    + intros H _. eapply IH; eassumption.
    + intros H _. injection H as <- _. exact Hnext.
Qed.

Lemma connect_outlet_extends (outlet : Z) (st st' : list Z * list Flowline) :
  connect_outlet fuel flowlines hydroseqs outlet st = Ok st' ->
  extends flowlines (fst st) (fst st').
Proof.
  unfold connect_outlet. destruct st as [o main].
  destruct (flowline_of flowlines hydroseqs outlet) as [f|e|] eqn:Ef; simpl;
    try discriminate.
  destruct (flowline_of_known _ _ _ _ Ef) as [h [_ Hf]].
  destruct (dict_mem (down f) flowlines && negb (in_main f main)).
  - destruct (connect_down flowlines fuel f main) as [[f' main']|e|] eqn:Ec;
      simpl; try discriminate.
    pose proof (connect_down_known _ _ _ _ _ Ec (values_known _ _ _ Hf))
      as Hf'.
    assert (Hothers : forall o1,
              extends flowlines o1
                (fold_left (fun o other => append_new o (comid other))
                   (filter (fun v => (down v =? down f')
                                     && negb (flowline_eqb v f'))
                           (values flowlines)) o1)).
    { intros o1. apply (add_tributaries_extends flowlines).
      intros x Hx. apply filter_In in Hx. tauto. }
    destruct (mem (comid f') o) eqn:Em; intros H; injection H as <-; simpl.
    + apply Hothers.
    + eapply extends_trans; [|apply Hothers].
      pose proof (extends_append_new flowlines o (comid f')) as Ha.
      unfold append_new in Ha. rewrite Em in Ha. apply Ha.
      unfold comids. now apply in_map.
  - intros H. injection H as <-. apply extends_refl.
Qed.


Variable rank : Z -> nat.
Variable R : nat.
Hypothesis Hranked : down_ranked flowlines rank.
Hypothesis Hbounded : rank_bounded flowlines rank R.
Hypothesis Hfuel : (R < fuel)%nat.

Lemma connect_down_result (n : nat) :
  forall (k : Z) (f : Flowline) (main : list Flowline),
    dict_get k flowlines = Some f -> (rank k < n)%nat ->
    (exists r, connect_down flowlines n f main = Ok r)
    \/ connect_down flowlines n f main = Raise KeyError.
Proof.
  induction n as [|n IH]; intros k f main Hf Hn; [lia|].
  simpl. unfold getitem.
  destruct (dict_get (down f) flowlines) as [next|] eqn:Ed; simpl;
    [|now right].
  destruct (in_main next main); [left; eexists; reflexivity|].
  destruct (dict_mem (down next) flowlines);
    [|left; eexists; reflexivity].
  apply (IH (down f)); [exact Ed|].
  pose proof (Hranked k f next Hf Ed). lia.
Qed.

Lemma connect_outlet_result (outlet : Z) (st : list Z * list Flowline) :
  (exists st', connect_outlet fuel flowlines hydroseqs outlet st = Ok st')
  \/ connect_outlet fuel flowlines hydroseqs outlet st = Raise KeyError.
Proof.
  unfold connect_outlet. destruct st as [o main].
  destruct (flowline_of flowlines hydroseqs outlet) as [f|e|] eqn:Ef.
  - destruct (flowline_of_known _ _ _ _ Ef) as [h [_ Hf]]. simpl.
    destruct (dict_mem (down f) flowlines && negb (in_main f main));
      [|left; eexists; reflexivity].
    destruct (connect_down_result fuel h f main Hf) as [[[f' main'] Hr]|Hr].
    + pose proof (Hbounded h f Hf). lia.
    + rewrite Hr. simpl. left.
      destruct (mem (comid f') o); eexists; reflexivity.
    + rewrite Hr. now right.
  - destruct (flowline_of_result flowlines hydroseqs outlet)
      as [[f Hf]|Hf]; [congruence|].
    right. simpl. congruence.
  - destruct (flowline_of_result flowlines hydroseqs outlet)
      as [[f Hf]|Hf]; congruence.
Qed.

(** The loop over the outlets fails at the first outlet that is no comid
    of the network, if not before. *)
Lemma connect_outlets_unknown (n : nat) :
  forall (i j : nat) (st : list Z * list Flowline) (x : Z),
    nth_error (fst st) j = Some x ->
    dict_get x hydroseqs = None ->
    (i <= j)%nat -> (j - i < n)%nat ->
    connect_outlets fuel flowlines hydroseqs n i st = Raise KeyError.
Proof.
  induction n as [|n IH]; intros i j st x Hj Hx Hij Hn; [lia|].
  simpl. destruct (nth_error (fst st) i) as [outlet|] eqn:Ei.
  - destruct (Nat.eq_dec i j) as [->|Hne].
    + assert (outlet = x) by congruence. subst outlet.
      unfold connect_outlet. destruct st as [o main].
      unfold flowline_of, getitem. now rewrite Hx.
    + destruct (connect_outlet_result outlet st) as [[st' Hr]|Hr];
        rewrite Hr; simpl; [|reflexivity].
      apply (IH (S i) j st' x); try lia; [|exact Hx].
      destruct (connect_outlet_extends _ _ _ Hr) as [ext [-> _]].
      rewrite nth_error_app1; [exact Hj|].
      apply nth_error_Some. congruence.
  - exfalso. apply nth_error_None in Ei.
    assert (j < length (fst st))%nat by (apply nth_error_Some; congruence).
    lia.
Qed.

End ConnectivityFacts.

(** ** The main channel never fails but on a missing key *)

Lemma trace_up_result (flowlines : Flowlines) (rank : Z -> nat) (n : nat) :
  up_ranked flowlines rank ->
  forall (k : Z) (f : Flowline) (main : list Flowline),
    dict_get k flowlines = Some f -> (rank k < n)%nat ->
    (exists main', trace_up flowlines n f main = Ok main')
    \/ trace_up flowlines n f main = Raise KeyError.
Proof.
  intros Hranked. induction n as [|n IH]; intros k f main Hf Hn; [lia|].
  simpl. destruct (up f =? 0); [left; now exists main|].
  unfold getitem.
  destruct (dict_get (up f) flowlines) as [next|] eqn:Eu; simpl;
    [|now right].
  apply (IH (up f)); [exact Eu|].
  pose proof (Hranked k f next Hf Eu). lia.
Qed.

Lemma trace_inlets_result (fuel : nat) (flowlines : Flowlines)
      (hydroseqs : dict Z) (rank : Z -> nat) (R : nat) :
  down_ranked flowlines rank -> rank_bounded flowlines rank R ->
  (R < fuel)%nat ->
  forall (inlets : list Z) (main : list Flowline),
    (exists main', trace_inlets fuel flowlines hydroseqs inlets main
                   = Ok main')
    \/ trace_inlets fuel flowlines hydroseqs inlets main = Raise KeyError.
Proof.
  intros Hranked Hbounded Hfuel.
  induction inlets as [|inlet rest IH]; intros main; simpl.
  - left. now exists main.
  - destruct (flowline_of_result flowlines hydroseqs inlet) as [[f Hf]|Hf];
      rewrite Hf; simpl; [|now right].
    destruct (flowline_of_known _ _ _ _ Hf) as [h [_ Hh]].
    destruct (trace_down_fuel flowlines rank fuel Hranked h f
                (main_add main f) Hh) as [main1 H1].
    + pose proof (Hbounded h f Hh). lia.
    + rewrite H1. simpl. apply IH.
Qed.

Lemma make_main_result (fuel : nat) (flowlines : Flowlines)
      (hydroseqs : dict Z) (rank_d rank_u : Z -> nat) (R : nat)
      (inlets : list Z) (last_comid : Z) :
  down_ranked flowlines rank_d -> rank_bounded flowlines rank_d R ->
  up_ranked flowlines rank_u -> rank_bounded flowlines rank_u R ->
  (R < fuel)%nat ->
  (exists main, make_main fuel flowlines hydroseqs inlets last_comid
                = Ok main)
  \/ make_main fuel flowlines hydroseqs inlets last_comid = Raise KeyError.
Proof.
  intros Hd Hbd Hu Hbu Hfuel. unfold make_main.
  destruct (trace_inlets_result fuel flowlines hydroseqs rank_d R Hd Hbd
              Hfuel inlets []) as [[main H]|H]; rewrite H; simpl;
    [|now right].
  destruct inlets; [|left; now exists main].
  destruct (flowline_of_result flowlines hydroseqs last_comid)
    as [[f Hf]|Hf]; rewrite Hf; simpl; [|now right].
  destruct (flowline_of_known _ _ _ _ Hf) as [h [_ Hh]].
  apply (trace_up_result flowlines rank_u fuel Hu h f); [exact Hh|].
  pose proof (Hbu h f Hh). lia.
Qed.

(** ** The outlets of the delineation *)

Lemma find_last_comid_returns (flowlines : Flowlines) :
  flowlines <> [] ->
  exists max_area last, find_last_comid flowlines = Ok (max_area, last).
Proof.
  intros Hne. unfold find_last_comid.
  destruct (values flowlines) as [|f0 fs] eqn:Ev.
  { destruct flowlines; [congruence | discriminate]. }
  simpl py_max. cbn [bind].
  set (m := fold_left Z.max (map drain fs) (drain f0)).
  pose proof (fold_max_In (map drain fs) (drain f0)) as H.
  change (drain f0 :: map drain fs) with (map drain (f0 :: fs)) in H.
  apply in_map_iff in H as [g [Hg Hin]]. fold m in Hg.
  destruct (filter (fun f => drain f =? m) (f0 :: fs)) as [|f rest] eqn:Ef.
  - exfalso.
    assert (H : In g (filter (fun f => drain f =? m) (f0 :: fs))).
    { apply filter_In. split; [exact Hin | now apply Z.eqb_eq]. }
    rewrite Ef in H. destruct H.
  - now exists m, (comid f).
Qed.

Lemma add_second_outlets_result (flowlines : Flowlines) (hydroseqs : dict Z)
      (last_comid : Z) (o : list Z) :
  (exists more, add_second_outlets flowlines hydroseqs last_comid o
                = Ok (o ++ more))
  \/ add_second_outlets flowlines hydroseqs last_comid o = Raise KeyError.
Proof.
  unfold add_second_outlets. destruct flowlines as [|kv fl].
  - left. exists []. now rewrite app_nil_r.
  - destruct (flowline_of_result (kv :: fl) hydroseqs last_comid)
      as [[f Hf]|Hf]; rewrite Hf; simpl; [left | now right].
    eexists. reflexivity.
Qed.




(** X13.  For a delineator without dam and gage files, an extra outlet
    that is not the comid of a flowline of the network stops
    [make_subbasin_outlets] with a [KeyError]: in a network that is not
    empty and has no cycle of [down] or of [up] references, with an
    iteration budget above the depth of the network and not below the
    number of extra outlets, the call raises [KeyError], at the lookup of
    line 1017 if not before. *)
Theorem unknown_extra_raises :
  forall (fuel : nat) (a : Inputs) (e : list Z) (x : Z)
         (rank_d rank_u : Z -> nat) (R : nat),
    dams a = None ->
    gages a = None ->
    extras a = Some e ->
    In x e ->
    ~ In x (comids (flowlines a)) ->
    flowlines a <> [] ->
    down_ranked (flowlines a) rank_d ->
    rank_bounded (flowlines a) rank_d R ->
    up_ranked (flowlines a) rank_u ->
    rank_bounded (flowlines a) rank_u R ->
    (R < fuel)%nat ->
    (length e <= fuel)%nat ->
    make_subbasin_outlets fuel a = Raise KeyError.
Proof.
  intros fuel a e x rank_d rank_u R Hda Hga He Hx Hnin Hne Hd Hbd Hu Hbu
         Hfuel Hlen.
  unfold make_subbasin_outlets. rewrite He, Hda, Hga. cbn [bind].
  rewrite app_nil_r.
  set (fl := flowlines a) in *. set (hs := make_hydroseqs fl).
  destruct (find_last_comid_returns fl Hne) as [max_area [last Hlast]].
  rewrite Hlast. simpl.
  assert (H3 : exists m3, append_new e last = e ++ m3).
  { unfold append_new. destruct (mem last e).
    - exists []. now rewrite app_nil_r.
    - now exists [last]. }
  destruct H3 as [m3 E3]. rewrite E3.
  destruct (add_second_outlets_result fl hs last (e ++ m3))
    as [[m2 H2]|H2]; rewrite H2; simpl; [|reflexivity].
  destruct (make_main_result fuel fl hs rank_d rank_u R (find_inlets fl)
              last Hd Hbd Hu Hbu Hfuel) as [[main Hm]|Hm]; rewrite Hm;
    simpl; [|reflexivity].
  apply In_nth_error in Hx as [j Hj].
  assert (Hjlen : (j < length e)%nat) by (apply nth_error_Some; congruence).
  rewrite (connect_outlets_unknown fuel fl hs rank_d R Hd Hbd Hfuel fuel
             0 j _ x); try reflexivity; try lia.
  - simpl. rewrite <- !app_assoc. rewrite nth_error_app1; assumption.
  - now apply make_hydroseqs_unknown.
Qed.

(** The theorem on the chain, with the extra outlets 102 and 999. *)
Lemma unknown_extra_raises_witness :
  make_subbasin_outlets 20
    (mkInputs chain5 (Some [102; 999]) None None String.EmptyString None
              None)
  = Raise KeyError.
Proof.
  apply (unknown_extra_raises 20 _ [102; 999] 999
           (fun k => Z.to_nat (6 - k)) (fun k => Z.to_nat k) 5%nat).
  - reflexivity.
  - reflexivity.
  - reflexivity.
  - simpl. tauto.
  - simpl. intuition discriminate.
  - discriminate.
  - apply down_rankedb_sound. reflexivity.
  - apply rank_boundedb_sound. reflexivity.
  - apply up_rankedb_sound. reflexivity.
  - apply rank_boundedb_sound. reflexivity.
  - lia.
  - simpl. lia.
Defined.

(** ** The extent of a list of shapes *)

Lemma Qle_plus_nonneg (a w : Q) : (0 <= w)%Q -> (a <= a + w)%Q.
Proof.
  intros H. apply (Qle_trans _ (a + 0)%Q).
  - rewrite Qplus_0_r. apply Qle_refl.
  - apply Qplus_le_r. exact H.
Qed.

Lemma Qle_minus_nonneg (a w : Q) : (0 <= w)%Q -> (a - w <= a)%Q.
Proof.
  intros H. apply (Qle_trans _ (a + 0)%Q).
  - unfold Qminus. apply Qplus_le_r. exact (Qopp_le_compat 0 w H).
  - rewrite Qplus_0_r. apply Qle_refl.
Qed.

Lemma encloses_refl (b : BBox) : encloses b b.
Proof.
  destruct b as [[[b0 b1] b2] b3]. simpl. repeat split; apply Qle_refl.
Qed.

Lemma encloses_trans (a b c : BBox) :
  encloses a b -> encloses b c -> encloses a c.
Proof.
  destruct a as [[[a0 a1] a2] a3], b as [[[b0 b1] b2] b3],
           c as [[[c0 c1] c2] c3]. simpl.
  intros [H0 [H1 [H2 H3]]] [K0 [K1 [K2 K3]]].
  repeat split; eapply Qle_trans; eassumption.
Qed.

Lemma widen_encloses (m b : BBox) :
  encloses (widen m b) m /\ encloses (widen m b) b.
Proof.
  destruct m as [[[m0 m1] m2] m3], b as [[[b0 b1] b2] b3]. simpl.
  destruct (Qltb b0 m0) eqn:E0, (Qltb b1 m1) eqn:E1, (Qltb m2 b2) eqn:E2,
           (Qltb m3 b3) eqn:E3;
    repeat match goal with
           | H : Qltb _ _ = true |- _ =>
               apply Qltb_lt in H; apply Qlt_le_weak in H
           | H : Qltb _ _ = false |- _ => apply Qltb_ge in H
           end;
    repeat split; try assumption; apply Qle_refl.
Qed.

Lemma widen_fixed (m b : BBox) : encloses m b -> widen m b = m.
Proof.
  destruct m as [[[m0 m1] m2] m3], b as [[[b0 b1] b2] b3]. simpl.
  intros [H0 [H1 [H2 H3]]].
  apply Qltb_ge in H0, H1, H2, H3. now rewrite H0, H1, H2, H3.
Qed.

Lemma widen_sides (m b : BBox) :
  let '(u0, u1, u2, u3) := widen m b in
  let '(m0, m1, m2, m3) := m in
  let '(b0, b1, b2, b3) := b in
  (u0 = m0 \/ u0 = b0) /\ (u1 = m1 \/ u1 = b1)
  /\ (u2 = m2 \/ u2 = b2) /\ (u3 = m3 \/ u3 = b3).
Proof.
  destruct m as [[[m0 m1] m2] m3], b as [[[b0 b1] b2] b3]. simpl.
  destruct (Qltb b0 m0), (Qltb b1 m1), (Qltb m2 b2), (Qltb m3 b3);
    repeat split; auto.
Qed.

Lemma fold_widen_encloses (l : list Shape) :
  forall m,
    encloses (fold_left (fun m s => widen m (bbox s)) l m) m
    /\ forall s, In s l ->
                 encloses (fold_left (fun m s => widen m (bbox s)) l m)
                          (bbox s).
Proof.
  induction l as [|a l IH]; intros m; simpl.
  - split; [apply encloses_refl | intros s []].
  - destruct (IH (widen m (bbox a))) as [H1 H2].
    destruct (widen_encloses m (bbox a)) as [W1 W2]. split.
    + eapply encloses_trans; eassumption.
    + intros s [<-|Hs]; [|now apply H2].
      eapply encloses_trans; eassumption.
Qed.

Lemma fold_widen_fixed (l : list Shape) (m : BBox) :
  (forall s, In s l -> encloses m (bbox s)) ->
  fold_left (fun m s => widen m (bbox s)) l m = m.
Proof.
  induction l as [|a l IH]; intros H; simpl; [reflexivity|].
  rewrite widen_fixed by (apply H; now left).
  apply IH. intros s Hs. apply H. now right.
Qed.

Lemma fold_widen_sides (l : list Shape) :
  forall m,
    let '(u0, u1, u2, u3) :=
      fold_left (fun m s => widen m (bbox s)) l m in
    let '(m0, m1, m2, m3) := m in
    (u0 = m0 \/ exists s, In s l /\ bbox0 s = u0)
    /\ (u1 = m1 \/ exists s, In s l /\ bbox1 s = u1)
    /\ (u2 = m2 \/ exists s, In s l /\ bbox2 s = u2)
    /\ (u3 = m3 \/ exists s, In s l /\ bbox3 s = u3).
Proof.
  induction l as [|a l IH]; intros m; simpl.
  - destruct m as [[[m0 m1] m2] m3]. repeat split; now left.
  - specialize (IH (widen m (bbox a))).
    pose proof (widen_sides m (bbox a)) as W.
    destruct (fold_left _ l _) as [[[u0 u1] u2] u3].
    destruct (widen m (bbox a)) as [[[w0 w1] w2] w3].
    destruct m as [[[m0 m1] m2] m3]. unfold bbox in W.
    destruct IH as [I0 [I1 [I2 I3]]]. destruct W as [W0 [W1 [W2 W3]]].
    repeat split.
    + destruct I0 as [->|[s [Hs E]]]; [|right; exists s; tauto].
      destruct W0 as [->| ->]; [now left | right; exists a; tauto].
    + destruct I1 as [->|[s [Hs E]]]; [|right; exists s; tauto].
      destruct W1 as [->| ->]; [now left | right; exists a; tauto].
    + destruct I2 as [->|[s [Hs E]]]; [|right; exists s; tauto].
      destruct W2 as [->| ->]; [now left | right; exists a; tauto].
    + destruct I3 as [->|[s [Hs E]]]; [|right; exists s; tauto].
      destruct W3 as [->| ->]; [now left | right; exists a; tauto].
Qed.

(** X14.  For a non-negative [space] and a first shape whose bounding box
    has its lower bounds below its upper bounds, [get_boundaries] returns
    an extent that holds the bounding box of every shape of the list. *)
Theorem get_boundaries_encloses :
  forall (first : Shape) (rest : list Shape) (space : Q),
    (0 <= space)%Q ->
    (bbox0 first <= bbox2 first)%Q ->
    (bbox1 first <= bbox3 first)%Q ->
    exists extent shapes',
      get_boundaries (first :: rest) space = Ok (extent, shapes')
      /\ forall s, In s (first :: rest) -> encloses extent (bbox s).
Proof.
  intros first rest space Hspace Hx Hy. unfold get_boundaries.
  set (u := fold_left (fun m s => widen m (bbox s)) (first :: rest)
                      (bbox first)).
  exists (spaced u space), (set_bbox first u :: rest).
  split; [reflexivity|].
  destruct (fold_widen_encloses (first :: rest) (bbox first)) as [_ Hall].
  fold u in Hall.
  pose proof (Hall first (or_introl eq_refl)) as Hfirst.
  assert (Hsp : encloses (spaced u space) u).
  { destruct u as [[[u0 u1] u2] u3]. unfold bbox in Hfirst.
    simpl in Hfirst. destruct Hfirst as [H0 [H1 [H2 H3]]].
    assert (Hw : (0 <= (u2 - u0) * space)%Q).
    { apply Qmult_le_0_compat; [|exact Hspace].
      apply (Qplus_le_r _ _ u0). ring_simplify.
      eapply Qle_trans; [exact H0|]. eapply Qle_trans; eassumption. }
    assert (Hh : (0 <= (u3 - u1) * space)%Q).
    { apply Qmult_le_0_compat; [|exact Hspace].
      apply (Qplus_le_r _ _ u1). ring_simplify.
      eapply Qle_trans; [exact H1|]. eapply Qle_trans; eassumption. }
    simpl. repeat split.
    - now apply Qle_minus_nonneg.
    - now apply Qle_minus_nonneg.
    - now apply Qle_plus_nonneg.
    - now apply Qle_plus_nonneg. }
  intros s Hs. eapply encloses_trans; [exact Hsp | now apply Hall].
Qed.

(** The theorem for the two nested shapes and the default [space]. *)
Lemma get_boundaries_encloses_witness :
  exists extent shapes',
    get_boundaries nested_shapes 0.1%Q = Ok (extent, shapes')
    /\ forall s, In s nested_shapes -> encloses extent (bbox s).
Proof.
  apply (get_boundaries_encloses (mkShape 0 0 4 4 [(0, 0); (4, 4)]%Q)
           [mkShape 1 1 3 3 [(1, 1); (3, 3)]%Q] 0.1%Q);
    simpl; discriminate.
Defined.

(** X15.  [get_boundaries] writes into its argument: [boundaries] is the
    list [shapes[0].bbox] itself, so after the call the bounding box of
    the first shape is the union of the bounding boxes of all the shapes
    (it holds each of them and each of its sides is a side of one of
    them), and it has changed whenever another shape reaches beyond the
    first one.  The points of the first shape and the other shapes are
    left alone, and a second call on the same shapes returns the same
    extent and changes nothing more. *)
Theorem get_boundaries_overwrites_first :
  forall (first : Shape) (rest : list Shape) (space : Q),
    exists extent first',
      get_boundaries (first :: rest) space = Ok (extent, first' :: rest)
      /\ points first' = points first
      /\ (forall s, In s (first :: rest) ->
                    encloses (bbox first') (bbox s))
      /\ (exists s, In s (first :: rest) /\ bbox0 s = bbox0 first')
      /\ (exists s, In s (first :: rest) /\ bbox1 s = bbox1 first')
      /\ (exists s, In s (first :: rest) /\ bbox2 s = bbox2 first')
      /\ (exists s, In s (first :: rest) /\ bbox3 s = bbox3 first')
      /\ ((exists s, In s rest /\ ~ encloses (bbox first) (bbox s)) ->
          bbox first' <> bbox first)
      /\ get_boundaries (first' :: rest) space
         = Ok (extent, first' :: rest).
Proof.
  intros first rest space. unfold get_boundaries.
  set (u := fold_left (fun m s => widen m (bbox s)) (first :: rest)
                      (bbox first)).
  destruct (fold_widen_encloses (first :: rest) (bbox first)) as [_ Hall].
  fold u in Hall.
  pose proof (fold_widen_sides (first :: rest) (bbox first)) as Hsides.
  fold u in Hsides.
  assert (Hb : bbox (set_bbox first u) = u).
  { destruct u as [[[u0 u1] u2] u3]. reflexivity. }
  exists (spaced u space), (set_bbox first u).
  split; [reflexivity|]. split.
  { destruct u as [[[u0 u1] u2] u3]. reflexivity. }
  rewrite Hb. split; [exact Hall|].
  assert (Hside : (exists s, In s (first :: rest)
                             /\ bbox0 s = fst (fst (fst u)))
                  /\ (exists s, In s (first :: rest)
                                /\ bbox1 s = snd (fst (fst u)))
                  /\ (exists s, In s (first :: rest)
                                /\ bbox2 s = snd (fst u))
                  /\ (exists s, In s (first :: rest) /\ bbox3 s = snd u)).
  { destruct u as [[[u0 u1] u2] u3]. unfold bbox in Hsides.
    destruct Hsides as [S0 [S1 [S2 S3]]]. simpl fst. simpl snd.
    repeat split.
    - destruct S0 as [->|S0]; [exists first; split; [now left|] | exact S0].
      reflexivity.
    - destruct S1 as [->|S1]; [exists first; split; [now left|] | exact S1].
      reflexivity.
    - destruct S2 as [->|S2]; [exists first; split; [now left|] | exact S2].
      reflexivity.
    - destruct S3 as [->|S3]; [exists first; split; [now left|] | exact S3].
      reflexivity. }
  assert (Hf : bbox0 (set_bbox first u) = fst (fst (fst u))
               /\ bbox1 (set_bbox first u) = snd (fst (fst u))
               /\ bbox2 (set_bbox first u) = snd (fst u)
               /\ bbox3 (set_bbox first u) = snd u).
  { destruct u as [[[u0 u1] u2] u3]. repeat split. }
  destruct Hf as [-> [-> [-> ->]]].
  destruct Hside as [S0 [S1 [S2 S3]]].
  split; [exact S0|]. split; [exact S1|]. split; [exact S2|].
  split; [exact S3|]. split.
  - intros [s [Hs Hn]] E. apply Hn. rewrite <- E. apply Hall. now right.
  - assert (Hfix : fold_left (fun m s => widen m (bbox s))
                             (set_bbox first u :: rest) u = u).
    { apply fold_widen_fixed. intros s [<-|Hs].
      - rewrite Hb. apply encloses_refl.
      - apply Hall. now right. }
    rewrite Hfix. destruct u as [[[u0 u1] u2] u3]. reflexivity.
Qed.

(** ** The distance formula *)

Section DistanceFacts.

Variable cos : Q -> Q.
Variable sqrt : Q -> Q.
Variable pi : Q.

(** X17.  The distance of [get_distance] is symmetric, for a cosine and a
    square root that give equal results on equal arguments. *)
Theorem get_distance_symmetric :
  forall (a b : Point),
    (forall p q, (p == q)%Q -> (cos p == cos q)%Q) ->
    (forall p q, (p == q)%Q -> (sqrt p == sqrt q)%Q) ->
    (get_distance cos sqrt pi a b == get_distance cos sqrt pi b a)%Q.
Proof.
  intros a b Hcos Hsqrt. unfold get_distance. apply Hsqrt.
  assert (E : forall c : Q,
             (cos (c * (0.5 * (snd a + snd b)) * (pi / 180))
              == cos (c * (0.5 * (snd b + snd a)) * (pi / 180)))%Q).
  { intros c. apply Hcos. unfold Qdiv. ring. }
  assert (E1 : (cos (0.5 * (snd a + snd b) * (pi / 180))
                == cos (0.5 * (snd b + snd a) * (pi / 180)))%Q).
  { apply Hcos. unfold Qdiv. ring. }
  rewrite (E 2%Q), (E 4%Q), (E 3%Q), (E 5%Q), E1. ring.
Qed.

End DistanceFacts.

(** The theorem for the points (0, 0) and (1, 2), with a constant cosine
    and the identity for the square root. *)
Lemma get_distance_symmetric_witness :
  (get_distance (fun _ => 1%Q) (fun q => q) 3%Q (0, 0)%Q (1, 2)%Q
   == get_distance (fun _ => 1%Q) (fun q => q) 3%Q (1, 2)%Q (0, 0)%Q)%Q.
Proof.
  apply (get_distance_symmetric (fun _ => 1%Q) (fun q => q) 3%Q
           (0, 0)%Q (1, 2)%Q).
  - intros p q _. reflexivity.
  - intros p q H. exact H.
Defined.

(** ** [find_flowlines] *)

Lemma field_eqb_eq (a b : Field) : field_eqb a b = true <-> a = b.
Proof.
  destruct a as [[[an at_] al] ad], b as [[[bn bt] bl] bd].
  unfold field_eqb. rewrite !andb_true_iff, !String.eqb_eq, !Z.eqb_eq.
  split.
  - intros [[[-> ->] ->] ->]. reflexivity.
  - intros H. injection H as -> -> -> ->. repeat split.
Qed.

Lemma field_index_missing (x : Field) (l : list Field) :
  (forall f, In f l -> f <> x) -> field_index x l = Raise ValueError.
Proof.
  induction l as [|y l IH]; intros H; simpl; [reflexivity|].
  destruct (field_eqb y x) eqn:E.
  - apply field_eqb_eq in E. exfalso. apply (H y); [now left | exact E].
  - rewrite IH; [reflexivity|]. intros f Hf. apply H. now right.
Qed.

Lemma field_index_first (x : Field) (before after : list Field) :
  ~ In x before ->
  field_index x (before ++ x :: after) = Ok (length before).
Proof.
  induction before as [|y before IH]; intros H; simpl.
  - replace (field_eqb x x) with true; [reflexivity|].
    symmetry. now apply field_eqb_eq.
  - destruct (field_eqb y x) eqn:E.
    + apply field_eqb_eq in E. exfalso. apply H. now left.
    + rewrite IH; [reflexivity|]. intros Hin. apply H. now right.
Qed.

Lemma py_getitem_nth {A : Type} (l : list A) (j : nat) (a : A) :
  nth_error l j = Some a -> py_getitem l (Z.of_nat (S j) - 1) = Ok a.
Proof.
  intros H. unfold py_getitem.
  assert (Hlt : (j < length l)%nat).
  { apply nth_error_Some. congruence. }
  replace (Z.of_nat (S j) - 1) with (Z.of_nat j) by lia. cbv zeta.
  destruct (Z.of_nat j <? 0) eqn:E0; [apply Z.ltb_lt in E0; lia|].
  rewrite E0.
  destruct (Z.of_nat (length l) <=? Z.of_nat j) eqn:E1;
    [apply Z.leb_le in E1; lia|].
  simpl. now rewrite Nat2Z.id, H.
Qed.

Lemma mapM_indexed {A C : Type} (f : A -> result C)
      (l : list A) :
  forall (P : nat -> C -> Prop),
    (forall k a, nth_error l k = Some a -> exists c, f a = Ok c /\ P k c) ->
    exists cs,
      mapM f l = Ok cs
      /\ length cs = length l
      /\ forall k c, nth_error cs k = Some c -> P k c.
Proof.
  induction l as [|x l IH]; intros P H.
  - exists []. split; [reflexivity|]. split; [reflexivity|].
    intros [|k] c Hk; discriminate.
  - destruct (H O x eq_refl) as [c [Hc Hp]].
    destruct (IH (fun k => P (S k))) as [cs [Hcs [Hlen Hnth]]].
    { intros k a Hk. exact (H (S k) a Hk). }
    exists (c :: cs). simpl. rewrite Hc. simpl. rewrite Hcs. simpl.
    split; [reflexivity|]. split; [now rewrite Hlen|].
    intros [|k] c' Hk; simpl in Hk.
    + injection Hk as <-. exact Hp.
    + now apply Hnth.
Qed.

Lemma mapM_raises {A C : Type} (f : A -> result C) (e : exn) (l : list A) :
  (forall a, In a l -> (exists c, f a = Ok c) \/ f a = Raise e) ->
  (exists a, In a l /\ f a = Raise e) ->
  mapM f l = Raise e.
Proof.
  induction l as [|x l IH]; intros Hall [a [Hin Ha]]; [destruct Hin|].
  simpl. destruct (Hall x (or_introl eq_refl)) as [[c Hc]|Hr].
  - rewrite Hc. simpl. destruct Hin as [->|Hin]; [congruence|].
    rewrite IH; [reflexivity | | now exists a].
    intros b Hb. apply Hall. now right.
  - now rewrite Hr.
Qed.

Lemma closest_index_cases (point : Point) (shapes : list Shape) :
  (candidates_raise point shapes
   /\ closest_index point shapes = Raise NameError)
  \/ (~ candidates_raise point shapes
      /\ ((closest_index point shapes = Ok None
           /\ find_candidates (fst point) (snd point) shapes = [])
          \/ exists i s,
               closest_index point shapes = Ok (Some i)
               /\ In (i, s)
                     (find_candidates (fst point) (snd point) shapes))).
Proof.
  unfold candidates_raise, closest_index, resolve_matches.
  destruct (find_candidates (fst point) (snd point) shapes)
    as [|m [|m2 r]] eqn:E.
  - right. split; [simpl; intros [H _]; lia|]. left. split; reflexivity.
  - right. split; [simpl; intros [H _]; lia|]. right.
    destruct m as [i s]. exists i, s. split; [reflexivity | now left].
  - replace (1 <? length (m :: m2 :: r))%nat with true by reflexivity.
    destruct (existsb (fun m0 : nat * Shape =>
                         match points (snd m0) with
                         | [] => false
                         | _ :: _ => true
                         end) (m :: m2 :: r)) eqn:Ex.
    + left. apply existsb_exists in Ex as [m0 [Hin Hp]].
      assert (Hv : exists m1, In m1 (m :: m2 :: r)
                              /\ points (snd m1) <> []).
      { exists m0. split; [exact Hin|].
        destruct (points (snd m0)); [discriminate Hp | discriminate]. }
      split; [split; [simpl; lia | exact Hv]|].
      now rewrite (match_distances_vertex _ Hv).
    + right.
      assert (Hnv : forall m0, In m0 (m :: m2 :: r) ->
                               points (snd m0) = []).
      { intros m0 Hin. destruct (points (snd m0)) eqn:Ep; [reflexivity|].
        assert (Ht : existsb (fun m0 : nat * Shape =>
                                match points (snd m0) with
                                | [] => false
                                | _ :: _ => true
                                end) (m :: m2 :: r) = true).
        { apply existsb_exists. exists m0. split; [exact Hin|].
          now rewrite Ep. }
        congruence. }
      split.
      { intros [_ [m0 [Hin Hp]]]. apply Hp. now apply Hnv. }
      right. rewrite (match_distances_no_vertex _ Hnv). cbn [bind].
      destruct (index_of_min_spec
                  (map (fun m0 => span (snd m0)) (m :: m2 :: r)))
        as [j [v [Hj [Hn _]]]]; [discriminate|].
      rewrite Hj. rewrite nth_error_map in Hn.
      destruct (nth_error (m :: m2 :: r) j) as [[i s]|] eqn:Hm;
        [|discriminate].
      exists i, s. split; [reflexivity|].
      eapply nth_error_In. exact Hm.
Qed.

(** X19.  [find_flowlines] looks for the flowline of every point before it
    looks for the field of the comids.  When one of the points has several
    candidates, of which one has a vertex, the call raises the [NameError]
    of line 100.  When no point has, a flowline file without the field
    [['COMID', 'N', 9, 0]] gives a [ValueError], whatever the points, an
    empty list included; and with the field at position [j + 1] of the
    descriptors (position 0 is the deletion flag) and records of more
    than [j] values, the call returns one entry for each point, in the
    order of the points: the entry is [None] exactly when no bounding
    box, and no bounding box widened by its own width and height, holds
    the point, and otherwise it is item [j] of the record of a shape
    whose box, widened or not, holds the point. *)
Theorem find_flowlines_entries :
  forall (Value : Type) (reader : FlowlineReader Value)
         (points : list Point),
    ((exists point, In point points
                    /\ candidates_raise point (r_shapes reader)) ->
     find_flowlines Value reader points = Raise NameError)
    /\ ((forall point, In point points ->
                       ~ candidates_raise point (r_shapes reader)) ->
        ((forall f, In f (r_fields reader) -> f <> COMID_field) ->
         find_flowlines Value reader points = Raise ValueError)
        /\ (forall (before after : list Field) (j : nat),
              r_fields reader = before ++ COMID_field :: after ->
              ~ In COMID_field before ->
              length before = S j ->
              (forall i s, nth_error (r_shapes reader) i = Some s ->
                           exists record, r_record reader i = Ok record
                                          /\ (j < length record)%nat) ->
              exists comids,
                find_flowlines Value reader points = Ok comids
                /\ length comids = length points
                /\ forall k point,
                     nth_error points k = Some point ->
                     exists entry,
                       nth_error comids k = Some entry
                       /\ (entry = None
                           <-> unmatched point (r_shapes reader))
                       /\ forall v,
                            entry = Some v ->
                            exists i s record,
                              nth_error (r_shapes reader) i = Some s
                              /\ (box_holds (fst point) (snd point) s
                                  \/ widened_box_holds (fst point)
                                                       (snd point) s)
                              /\ r_record reader i = Ok record
                              /\ nth_error record j = Some v)).
Proof.
  intros Value reader points. set (shapes := r_shapes reader).
  assert (Hres : forall point,
             (exists c, closest_index point shapes = Ok c)
             \/ closest_index point shapes = Raise NameError).
  { intros point.
    destruct (closest_index_cases point shapes)
      as [[_ H]|[_ [[H _]|[i [s [H _]]]]]]; [now right | left | left];
      eexists; exact H. }
  split.
  - intros [point [Hin Hr]]. unfold find_flowlines. fold shapes.
    rewrite (mapM_raises (fun point => closest_index point shapes)
                         NameError points); [reflexivity | |].
    + intros a _. apply Hres.
    + exists point. split; [exact Hin|].
      destruct (closest_index_cases point shapes) as [[_ H]|[Hn _]];
        [exact H | contradiction].
  - intros Hsettled.
    destruct (mapM_indexed (fun point => closest_index point shapes) points
                (fun k idx =>
                   forall point,
                     nth_error points k = Some point ->
                     (idx = None
                      /\ find_candidates (fst point) (snd point) shapes
                         = [])
                     \/ exists i s,
                          idx = Some i
                          /\ In (i, s) (find_candidates (fst point)
                                          (snd point) shapes)))
      as [indices [Hidx [Hlen Hnth]]].
    { intros k a Hk.
      destruct (closest_index_cases a shapes)
        as [[Hr _]|[_ [[H Hnil]|[i [s [H Hin]]]]]].
      - exfalso. apply (Hsettled a); [|exact Hr].
        eapply nth_error_In. exact Hk.
      - exists None. split; [exact H|]. intros point Hp.
        rewrite Hk in Hp. injection Hp as <-. left. now split.
      - exists (Some i). split; [exact H|]. intros point Hp.
        rewrite Hk in Hp. injection Hp as <-. right. now exists i, s. }
    unfold find_flowlines. fold shapes. rewrite Hidx. cbn [bind]. split.
    + intros H. now rewrite (field_index_missing _ _ H).
    + intros before after j Hf Hnin Hlb Hrec.
      rewrite Hf, (field_index_first _ _ _ Hnin), Hlb. cbn [bind].
      destruct (mapM_indexed
                  (record_comid Value reader (Z.of_nat (S j) - 1)) indices
                  (fun k entry =>
                     forall point,
                       nth_error points k = Some point ->
                       (entry = None <-> unmatched point shapes)
                       /\ forall v,
                            entry = Some v ->
                            exists i s record,
                              nth_error shapes i = Some s
                              /\ (box_holds (fst point) (snd point) s
                                  \/ widened_box_holds (fst point)
                                                       (snd point) s)
                              /\ r_record reader i = Ok record
                              /\ nth_error record j = Some v))
        as [comids [Hc [Hlen2 Hent]]].
      { intros k idx Hk.
        assert (Hpt : exists point, nth_error points k = Some point).
        { destruct (nth_error points k) as [pt|] eqn:Ep;
            [now exists pt|].
          apply nth_error_None in Ep.
          assert (k < length indices)%nat
            by (apply nth_error_Some; congruence).
          lia. }
        destruct Hpt as [pt Hpt].
        destruct (Hnth k idx Hk pt Hpt) as [[-> Hnil]|[i [s [-> Hin]]]].
        - exists None. split; [reflexivity|]. intros point Hp.
          rewrite Hpt in Hp. injection Hp as <-.
          split; [|discriminate]. split; [|reflexivity]. intros _.
          now apply find_candidates_unmatched.
        - pose proof Hin as Hin'.
          apply find_candidates_holds in Hin' as [Hs Hb].
          destruct (Hrec i s Hs) as [record [Hr Hj]].
          destruct (nth_error record j) as [v|] eqn:Hv;
            [|apply nth_error_None in Hv; lia].
          exists (Some v). unfold record_comid. rewrite Hr. cbn [bind].
          rewrite (py_getitem_nth _ _ _ Hv). split; [reflexivity|].
          intros point Hp. rewrite Hpt in Hp. injection Hp as <-. split.
          + split; [discriminate|]. intros Hu. exfalso.
            apply find_candidates_unmatched in Hu.
            rewrite Hu in Hin. destruct Hin.
          + intros v' Hv'. injection Hv' as <-. exists i, s, record.
            split; [exact Hs|]. split; [|split; [exact Hr | exact Hv]].
            destruct Hb as [[_ Hb]|[_ Hb]]; [now left | now right]. }
      exists comids. split; [exact Hc|].
      split; [now rewrite Hlen2, Hlen|].
      intros k point Hp.
      destruct (nth_error comids k) as [entry|] eqn:Ee.
      * exists entry. split; [reflexivity|]. exact (Hent k entry Ee point Hp).
      * apply nth_error_None in Ee.
        assert (k < length points)%nat
          by (apply nth_error_Some; congruence).
        lia.
Qed.

(** The theorem for the file of the two nested shapes: a point in the
    outer box only and a point far from both boxes get their entries, and
    a point in both boxes stops the call. *)
Lemma find_flowlines_entries_witness :
  find_flowlines Z nested_reader [(0.5, 0.5); (20, 20)]%Q
  = Ok [Some 100; None]
  /\ find_flowlines Z reader_without_comid [] = Raise ValueError
  /\ find_flowlines Z nested_reader [(0.5, 0.5); (2, 2)]%Q
     = Raise NameError.
Proof.
  split; [reflexivity|]. split; [reflexivity|].
  apply (proj1 (find_flowlines_entries Z nested_reader
                  [(0.5, 0.5); (2, 2)]%Q)).
  exists (2, 2)%Q. split; [right; now left|].
  split; [simpl; lia|].
  exists (0%nat, mkShape 0 0 4 4 [(0, 0); (4, 4)]%Q).
  split; [now left | discriminate].
Defined.

(** ** The primary channel of [combine_flowlines] *)

Lemma dict_get_first_key {V : Type} (d : dict V) (k : Z) (rest : list Z) :
  keys d = k :: rest -> dict_mem k d = true.
Proof.
  destruct d as [|[k' v] d]; [discriminate|]. simpl.
  intros H. injection H as -> _. unfold dict_mem. simpl.
  now rewrite Z.eqb_refl.
Qed.

Section PrimaryFacts.

Variable flowlines : Flowlines.
Variable all_comids : list Z.

Hypothesis Hkeys : NoDup (keys flowlines).

Lemma restrict_acc (attr : Flowline -> Z) (l : Flowlines) :
  NoDup (keys l) ->
  forall (acc : dict Z) (k : Z),
    dict_get k
      (fold_left (fun d kv => if mem (comid (snd kv)) all_comids
                              then dict_set (fst kv) (attr (snd kv)) d
                              else d) l acc)
    = match dict_get k l with
      | Some f => if mem (comid f) all_comids then Some (attr f)
                  else dict_get k acc
      | None => dict_get k acc
      end.
Proof.
  induction l as [|[k0 f0] l IH]; intros Hnd acc k; [reflexivity|].
  inversion Hnd as [|? ? Hnotin Hnd']; subst. simpl.
  rewrite (IH Hnd'). destruct (Z.eqb_spec k0 k) as [->|Hne].
  - replace (dict_get k l) with (@None Flowline)
      by (symmetry; now apply dict_get_None).
    destruct (mem (comid f0) all_comids); [|reflexivity].
    apply dict_get_set_eq.
  - assert (E : dict_get k (if mem (comid f0) all_comids
                            then dict_set k0 (attr f0) acc else acc)
                = dict_get k acc).
    { destruct (mem (comid f0) all_comids); [|reflexivity].
      apply dict_get_set_neq. congruence. }
    rewrite E. reflexivity.
Qed.

Lemma restrict_get (attr : Flowline -> Z) (k : Z) :
  dict_get k (restrict attr flowlines all_comids)
  = match dict_get k flowlines with
    | Some f => if mem (comid f) all_comids then Some (attr f) else None
    | None => None
    end.
Proof.
  unfold restrict. rewrite (restrict_acc attr flowlines Hkeys).
  reflexivity.
Qed.

Lemma restrict_mem (attr : Flowline -> Z) (k : Z) :
  dict_mem k (restrict attr flowlines all_comids) = true
  <-> member flowlines all_comids k.
Proof.
  unfold dict_mem, member. rewrite restrict_get.
  destruct (dict_get k flowlines) as [f|].
  - destruct (mem (comid f) all_comids) eqn:E.
    + split; [|reflexivity]. intros _. exists f.
      split; [reflexivity | now apply mem_In].
    + split; [discriminate|]. intros [g [Hg Hin]]. injection Hg as <-.
      apply mem_In in Hin. congruence.
  - split; [discriminate | intros [g [Hg _]]; discriminate].
Qed.

Lemma restrict_getitem (attr : Flowline -> Z) (k : Z) (f : Flowline) :
  dict_get k flowlines = Some f ->
  In (comid f) all_comids ->
  getitem k (restrict attr flowlines all_comids) = Ok (attr f).
Proof.
  intros Hf Hin. unfold getitem. rewrite restrict_get, Hf.
  apply mem_In in Hin. now rewrite Hin.
Qed.

Lemma follow_down_spec (rank : Z -> nat) :
  down_ranked flowlines rank ->
  forall (n : nat) (current : Z),
    member flowlines all_comids current ->
    (rank current < n)%nat ->
    exists bottom f,
      follow_down n (restrict down flowlines all_comids) current = Ok bottom
      /\ dict_get bottom flowlines = Some f
      /\ In (comid f) all_comids
      /\ ~ member flowlines all_comids (down f).
Proof.
  intros Hrank. induction n as [|n IH]; intros current [f [Hf Hin]] Hlt;
    [lia|].
  simpl. rewrite (restrict_getitem down current f Hf Hin). cbn [bind].
  destruct (dict_mem (down f) (restrict down flowlines all_comids)) eqn:E.
  - apply restrict_mem in E. pose proof E as [g [Hg _]].
    pose proof (Hrank current f g Hf Hg) as Hr.
    apply IH; [exact E | lia].
  - exists current, f. split; [reflexivity|]. split; [exact Hf|].
    split; [exact Hin|]. intros Hm.
    apply (proj2 (restrict_mem down _)) in Hm. congruence.
Qed.

Lemma follow_up_spec (rank : Z -> nat) :
  up_ranked flowlines rank ->
  forall (n : nat) (current : Z) (tail : list Z),
    member flowlines all_comids current ->
    (rank current < n)%nat ->
    up_linked flowlines (current :: tail) ->
    exists prefix top rest f,
      prefix ++ current :: tail = top :: rest
      /\ follow_up n (restrict up flowlines all_comids) current
                   (current :: tail) = Ok (top :: rest)
      /\ Forall (member flowlines all_comids) prefix
      /\ up_linked flowlines (top :: rest)
      /\ dict_get top flowlines = Some f
      /\ ~ member flowlines all_comids (up f).
Proof.
  intros Hrank. induction n as [|n IH];
    intros current tail [f [Hf Hin]] Hlt Hlinked; [lia|].
  simpl. rewrite (restrict_getitem up current f Hf Hin). cbn [bind].
  destruct (dict_mem (up f) (restrict up flowlines all_comids)) eqn:E.
  - apply restrict_mem in E. pose proof E as [g [Hg _]].
    pose proof (Hrank current f g Hf Hg) as Hr.
    destruct (IH (up f) (current :: tail) E) as
      [prefix [top [rest [ft [Heq [Hrun [Hall [Hl [Hft Hnot]]]]]]]]].
    + lia.
    + split; [|exact Hlinked]. exists f. split; [exact Hf | reflexivity].
    + exists (prefix ++ [up f]), top, rest, ft.
      split; [now rewrite <- app_assoc|]. split; [exact Hrun|].
      split; [|split; [exact Hl | split; [exact Hft | exact Hnot]]].
      apply Forall_app. split; [exact Hall|]. constructor; [exact E|].
      constructor.
  - exists [], current, tail, f. split; [reflexivity|].
    split; [reflexivity|]. split; [constructor|].
    split; [exact Hlinked|]. split; [exact Hf|].
    intros Hm. apply (proj2 (restrict_mem up _)) in Hm. congruence.
Qed.

End PrimaryFacts.

(** X20.  The primary channel of lines 1496-1510, for a network without a
    cycle of [down] or of [up] references and enough iterations: when no
    flowline of the attribute file has its comid in the flowline file,
    line 1503 raises [IndexError]; otherwise the loops end without a
    [KeyError] and leave a list of hydroseqs of the file in which each
    one is the [up] of the flowline of the next, whose last flowline
    flows out of the file and above whose first flowline the file holds
    nothing. *)
Theorem primary_channel_chain :
  forall (fuel : nat) (flowlines : Flowlines) (all_comids : list Z)
         (rank_d rank_u : Z -> nat) (R : nat),
    NoDup (keys flowlines) ->
    down_ranked flowlines rank_d ->
    up_ranked flowlines rank_u ->
    rank_bounded flowlines rank_d R ->
    rank_bounded flowlines rank_u R ->
    (R < fuel)%nat ->
    ((forall h, ~ member flowlines all_comids h) ->
     primary_channel fuel flowlines all_comids = Raise IndexError)
    /\ ((exists h, member flowlines all_comids h) ->
        exists primary top rest front bottom f_top f_bottom,
          primary_channel fuel flowlines all_comids = Ok primary
          /\ primary = top :: rest
          /\ primary = front ++ [bottom]
          /\ Forall (member flowlines all_comids) primary
          /\ up_linked flowlines primary
          /\ dict_get top flowlines = Some f_top
          /\ ~ member flowlines all_comids (up f_top)
          /\ dict_get bottom flowlines = Some f_bottom
          /\ ~ member flowlines all_comids (down f_bottom)).
Proof.
  intros fuel flowlines all_comids rank_d rank_u R Hnd Hd Hu Hbd Hbu Hfuel.
  unfold primary_channel. split.
  - intros Hnone.
    destruct (keys (restrict down flowlines all_comids)) as [|c ks] eqn:E;
      [reflexivity|].
    exfalso. apply (Hnone c).
    apply (restrict_mem flowlines all_comids Hnd down).
    exact (dict_get_first_key _ _ _ E).
  - intros [h Hh].
    destruct (keys (restrict down flowlines all_comids)) as [|c ks] eqn:E.
    { exfalso.
      apply (proj2 (restrict_mem flowlines all_comids Hnd down _)) in Hh.
      destruct (restrict down flowlines all_comids); [discriminate Hh|].
      discriminate E. }
    assert (Hc : member flowlines all_comids c).
    { apply (restrict_mem flowlines all_comids Hnd down).
      exact (dict_get_first_key _ _ _ E). }
    assert (Hrc : (rank_d c < fuel)%nat).
    { destruct Hc as [f [Hf _]]. pose proof (Hbd c f Hf). lia. }
    destruct (follow_down_spec flowlines all_comids Hnd rank_d Hd fuel c
                Hc Hrc) as [bottom [fb [Hrun [Hfb [Hin Hout]]]]].
    rewrite Hrun. cbn [bind].
    assert (Hb : member flowlines all_comids bottom)
      by (exists fb; split; assumption).
    assert (Hrb : (rank_u bottom < fuel)%nat).
    { pose proof (Hbu bottom fb Hfb). lia. }
    destruct (follow_up_spec flowlines all_comids Hnd rank_u Hu fuel bottom
                [] Hb Hrb I)
      as [prefix [top [rest [ft [Heq [Hrun2 [Hall [Hl [Hft Hnot]]]]]]]]].
    exists (top :: rest), top, rest, prefix, bottom, ft, fb.
    split; [exact Hrun2|]. split; [reflexivity|].
    split; [now rewrite Heq|]. split.
    { rewrite <- Heq. apply Forall_app. split; [exact Hall|].
      constructor; [exact Hb | constructor]. }
    split; [exact Hl|]. split; [exact Hft|]. split; [exact Hnot|].
    split; [exact Hfb | exact Hout].
Qed.

(** The theorem on the chain, for a flowline file that holds the flowlines
    102, 103 and 104: the primary channel is made of the hydroseqs 2, 3
    and 4. *)
Lemma primary_channel_chain_witness :
  primary_channel 6 chain5 [102; 103; 104] = Ok [2; 3; 4]
  /\ exists primary top rest front bottom f_top f_bottom,
       primary_channel 6 chain5 [102; 103; 104] = Ok primary
       /\ primary = top :: rest
       /\ primary = front ++ [bottom]
       /\ Forall (member chain5 [102; 103; 104]) primary
       /\ up_linked chain5 primary
       /\ dict_get top chain5 = Some f_top
       /\ ~ member chain5 [102; 103; 104] (up f_top)
       /\ dict_get bottom chain5 = Some f_bottom
       /\ ~ member chain5 [102; 103; 104] (down f_bottom).
Proof.
  split; [reflexivity|].
  refine (proj2 (primary_channel_chain 6 chain5 [102; 103; 104]
                   (fun k => Z.to_nat (6 - k)) (fun k => Z.to_nat k) 5%nat
                   _ _ _ _ _ _) _).
  - apply NoDup_check. reflexivity.
  - apply down_rankedb_sound. reflexivity.
  - apply up_rankedb_sound. reflexivity.
  - apply rank_boundedb_sound. reflexivity.
  - apply rank_boundedb_sound. reflexivity.
  - lia.
  - exists 3. exists (mkFlowline 103 3 4 2 30 30).
    split; [reflexivity | simpl; tauto].
Defined.
